(** * GitHub commit-diff lesson generator: model and verified properties

    A shallow embedding of the components that carry the logic of the
    application:

    - [RepositoryAnalyzer]: [parseGitHubUrl], [simulateCommitData],
      [simulateCommitFiles] and the intake flow [analyzeRepository];
    - [CodeViewer]: the diff line classifier [formatPatch], [loadCommitFiles],
      [getFileExtension] and [getLanguageFromExtension];
    - [LessonPanel]: [loadLesson], [generateLesson] and [formatContent];
    - [App]: [loadCommits], [handleRepositoryAnalyzed] and what the page
      shows;
    - [CommitTimeline]: [getCommitTypeColor] and the selected entry.

    JavaScript strings are sequences of UTF-16 code units, numbers that the
    code only uses as integers are in [Z], the progress fraction is in [Q].
    The regular expressions are syntax trees, run by a backtracking matcher.
    [Math.random()], [Date.now()], the persistence gateway, the auth gateway
    and the text generation gateway are external: their answers are read from
    an environment [Env], and the code is a state-and-exception monad over the
    number of answers consumed, the store and the view state.  The gateway
    also decides how the keys of the rows it lists are spelled, snake_case
    or camelCase; the code reads some columns under one spelling only, and
    what it then finds depends on this choice ([listed_keys]).

    Part I holds the definitions, Part II the properties the specification
    claims, Part III further properties of the code. *)

From Stdlib Require Import List ZArith NArith QArith Qround Bool Lia.
From Stdlib Require Import Permutation Sorted.
From Stdlib Require Import Ascii DecimalString DecimalPos DecimalZ.
From Stdlib Require String.
Import String.StringSyntax.
Delimit Scope string_scope with string_lit.
Import ListNotations.

Local Open Scope Z_scope.

(* ================================================================== *)
(** * Part I: definitions                                              *)
(* ================================================================== *)

(** ** JavaScript strings *)

Module JS.

Definition code_unit := N.
Definition jsstring := list code_unit.

(** A string literal of the source (ASCII). *)
Definition lit (s : String.string) : jsstring :=
  map N_of_ascii (String.list_ascii_of_string s).
Arguments lit s%_string_lit.

Definition LF : code_unit := 10%N.
Definition SLASH : code_unit := 47%N.
Definition SPACE : code_unit := 32%N.

Definition jsstring_eqb (a b : jsstring) : bool :=
  if list_eq_dec N.eq_dec a b then true else false.

(** [String.prototype.startsWith]: on success also gives what follows. *)
Fixpoint strip_prefix (p s : jsstring) : option jsstring :=
  match p, s with
  | [], _ => Some s
  | _ :: _, [] => None
  | a :: p', b :: s' => if (a =? b)%N then strip_prefix p' s' else None
  end.

Definition startsWith (s p : jsstring) : bool :=
  match strip_prefix p s with Some _ => true | None => false end.

(** [String.prototype.split] on a one-unit separator: never empty. *)
Fixpoint split (sep : code_unit) (s : jsstring) : list jsstring :=
  match s with
  | [] => [[]]
  | c :: s' =>
      if (c =? sep)%N then [] :: split sep s'
      else match split sep s' with
           | [] => [[c]]
           | l :: ls => (c :: l) :: ls
           end
  end.

(** [Array.prototype.join]. *)
Fixpoint join (sep : jsstring) (parts : list jsstring) : jsstring :=
  match parts with
  | [] => []
  | [p] => p
  | p :: rest => p ++ sep ++ join sep rest
  end.

(** [String.prototype.substring(a, b)] for [0 <= a <= b]. *)
Definition substring (a b : nat) (s : jsstring) : jsstring :=
  firstn (b - a) (skipn a s).

(** [String.prototype.substr(a, n)] for [0 <= a]. *)
Definition substr (a n : nat) (s : jsstring) : jsstring :=
  firstn n (skipn a s).

(** Decimal rendering of an integer number, as template literals do. *)
Definition dec (z : Z) : jsstring :=
  lit (NilZero.string_of_int (Z.to_int z)).

(** [WhiteSpace] and [LineTerminator] code units, which [trim] removes. *)
Definition is_line_terminator (c : code_unit) : bool :=
  ((c =? 10) || (c =? 13) || (c =? 8232) || (c =? 8233))%N.

Definition is_white_space (c : code_unit) : bool :=
  ((c =? 9) || (c =? 11) || (c =? 12) || (c =? 32) || (c =? 160)
   || (c =? 5760) || ((8192 <=? c) && (c <=? 8202)) || (c =? 8239)
   || (c =? 8287) || (c =? 12288) || (c =? 65279))%N.

Fixpoint trimStart (s : jsstring) : jsstring :=
  match s with
  | c :: s' => if is_white_space c || is_line_terminator c then trimStart s' else s
  | [] => []
  end.

Definition trim (s : jsstring) : jsstring :=
  rev (trimStart (rev (trimStart s))).

(** [toLowerCase] on the ASCII letters; the source applies it to the names
    of the author roster only. *)
Definition toLowerCase (s : jsstring) : jsstring :=
  map (fun c => if ((65 <=? c) && (c <=? 90))%N then (c + 32)%N else c) s.

(** [s.replace(a, b)] with a one-unit string pattern: first occurrence. *)
Fixpoint replace_first (a : code_unit) (b : jsstring) (s : jsstring) : jsstring :=
  match s with
  | [] => []
  | c :: s' => if (c =? a)%N then b ++ s' else c :: replace_first a b s'
  end.

(** What a thrown value is: an [Error] object with its message, or some
    other value. *)
Inductive Exn :=
| Error (message : jsstring)
| NotAnError.

Inductive Result (A : Type) :=
| Ok (a : A)
| Throw (e : Exn).
Arguments Ok {A} a.
Arguments Throw {A} e.

End JS.
Import JS.

(** ** Regular expressions *)

Module Regex.

(** The part of the pattern language the source uses, without flags. *)
Inductive t :=
| Bol                          (* ^ *)
| Eol                          (* $ *)
| Lit (s : jsstring)           (* pattern characters, escaped or not *)
| NotUnit (c : code_unit)      (* a negated class of one unit *)
| Dot                          (* . *)
| Seq (r1 r2 : t)
| Opt (r : t)                  (* r? *)
| Star (r : t)                 (* r* *)
| Plus (r : t)                 (* r+ *)
| Group (i : nat) (r : t).     (* capturing parentheses number i *)

(** The state of a match: the index reached, what is left of the input and
    the captures made so far. *)
Record mstate := mk {
  pos : nat;
  rest : jsstring;
  caps : list (nat * jsstring)
}.

Definition cont := mstate -> option mstate.

(** One unit of a class. *)
Definition unit_step (P : code_unit -> bool) (st : mstate) (k : cont) : option mstate :=
  match rest st with
  | c :: r => if P c then k (mk (S (pos st)) r (caps st)) else None
  | [] => None
  end.

(** Greedy repetition of the matcher [m], as the backtracking matcher of the
    language does it: one more turn of [m] first, which must advance, and
    the continuation [k] when that way fails.  [fuel] bounds the turns. *)
Fixpoint loop (m : mstate -> cont -> option mstate) (fuel : nat)
    (st : mstate) (k : cont) : option mstate :=
  match fuel with
  | O => k st
  | S fuel' =>
      match m st (fun st' =>
                    if (length (rest st') <? length (rest st))%nat
                    then loop m fuel' st' k else None) with
      | Some res => Some res
      | None => k st
      end
  end.

Fixpoint run (r : t) : mstate -> cont -> option mstate :=
  match r with
  | Bol => fun st k => if (pos st =? 0)%nat then k st else None
  | Eol => fun st k => match rest st with [] => k st | _ :: _ => None end
  | Lit s => fun st k =>
      match strip_prefix s (rest st) with
      | Some r' => k (mk (pos st + length s) r' (caps st))
      | None => None
      end
  | NotUnit c => unit_step (fun x => negb (x =? c)%N)
  | Dot => unit_step (fun x => negb (is_line_terminator x))
  | Seq r1 r2 => fun st k => run r1 st (fun st' => run r2 st' k)
  | Opt r => fun st k =>
      match run r st k with
      | Some res => Some res
      | None => k st
      end
  | Star r => fun st k => loop (run r) (S (length (rest st))) st k
  | Plus r => fun st k =>
      run r st (fun st' => loop (run r) (S (length (rest st'))) st' k)
  | Group i r => fun st k =>
      run r st (fun st' =>
        k (mk (pos st') (rest st') ((i, firstn (pos st' - pos st) (rest st)) :: caps st')))
  end.

(** The longest run of units of a class at the head of a string, with
    what follows it, and the state after a match of that run. *)
Fixpoint span (P : code_unit -> bool) (s : jsstring) : jsstring * jsstring :=
  match s with
  | [] => ([], [])
  | c :: s' =>
      if P c then let (a, b) := span P s' in (c :: a, b) else ([], s)
  end.

Definition skip (P : code_unit -> bool) (st : mstate) : mstate :=
  mk (pos st + length (fst (span P (rest st)))) (snd (span P (rest st))) (caps st).

(** A continuation that fails as long as the run of the class goes on. *)
Definition stops_at (P : code_unit -> bool) (k : cont) : Prop :=
  forall st c r, rest st = c :: r -> P c = true -> k st = None.

(** The search of [exec] for an expression without the [g] and [y] flags:
    the first index, from [i] on, at which the expression matches; the
    result is that index and the final state of the match. *)
Fixpoint exec_from (r : t) (i : nat) (s : jsstring) : option (nat * mstate) :=
  match run r (mk i s []) Some with
  | Some res => Some (i, res)
  | None =>
      match s with
      | [] => None
      | _ :: s' => exec_from r (S i) s'
      end
  end.

Definition exec (r : t) (s : jsstring) : option (nat * mstate) := exec_from r 0 s.

(** [match[i]] of a group that took part in the match. *)
Fixpoint capture (i : nat) (cs : list (nat * jsstring)) : jsstring :=
  match cs with
  | [] => []
  | (j, x) :: cs' => if (i =? j)%nat then x else capture i cs'
  end.

(** [s.replace(r, replacement)] for such an expression and a replacement
    without a dollar sign: the first match goes. *)
Definition replace (r : t) (replacement : jsstring) (s : jsstring) : jsstring :=
  match exec r s with
  | Some (start, res) => firstn start s ++ replacement ++ rest res
  | None => s
  end.

End Regex.

(** ** RepositoryAnalyzer: the URL parser *)

Module UrlParser.

(** The two regular expressions of [parseGitHubUrl]: [githubRegex], which
    is [^], [http], [s?], [://github.com/] with its escapes, group 1
    [[^/]+], a slash, group 2 [[^/]+], an optional non-capturing group of a
    slash and [.*], and [$]; and the [.git] at the end that [replace]
    removes. *)
Definition githubRegex : Regex.t :=
  Regex.Seq Regex.Bol
 (Regex.Seq (Regex.Lit (lit "http"))
 (Regex.Seq (Regex.Opt (Regex.Lit (lit "s")))
 (Regex.Seq (Regex.Lit (lit "://github.com/"))
 (Regex.Seq (Regex.Group 1 (Regex.Plus (Regex.NotUnit SLASH)))
 (Regex.Seq (Regex.Lit (lit "/"))
 (Regex.Seq (Regex.Group 2 (Regex.Plus (Regex.NotUnit SLASH)))
 (Regex.Seq (Regex.Opt (Regex.Seq (Regex.Lit (lit "/")) (Regex.Star Regex.Dot)))
            Regex.Eol))))))).

Definition dotGitRegex : Regex.t := Regex.Seq (Regex.Lit (lit ".git")) Regex.Eol.

(** Parts of [githubRegex], from the right. *)
Definition tail_regex : Regex.t :=
  Regex.Seq (Regex.Opt (Regex.Seq (Regex.Lit (lit "/")) (Regex.Star Regex.Dot))) Regex.Eol.

Definition group2_regex : Regex.t := Regex.Group 2 (Regex.Plus (Regex.NotUnit SLASH)).

Definition path_regex : Regex.t :=
  Regex.Seq (Regex.Lit (lit "://github.com/"))
 (Regex.Seq (Regex.Group 1 (Regex.Plus (Regex.NotUnit SLASH)))
 (Regex.Seq (Regex.Lit (lit "/"))
 (Regex.Seq group2_regex tail_regex))).

Record parsed := { owner : jsstring; repo : jsstring }.

Definition invalid_url_message : jsstring := lit "Invalid GitHub URL format".

Definition parseGitHubUrl (url : jsstring) : Result parsed :=
  match Regex.exec githubRegex url with
  | None => Throw (Error invalid_url_message)
  | Some (_, m) =>
      Ok {| owner := Regex.capture 1 (Regex.caps m);
            repo := Regex.replace dotGitRegex [] (Regex.capture 2 (Regex.caps m)) |}
  end.

(** *** The same, without backtracking

    What the two expressions compute, written as a scan of the string: used
    to state what the parser accepts, and proved equal to the expressions. *)

(** The longest run of units other than a slash and what follows it. *)
Fixpoint span_not_slash (s : jsstring) : jsstring * jsstring :=
  match s with
  | [] => ([], [])
  | c :: s' =>
      if (c =? SLASH)%N then ([], s)
      else let (run, rest) := span_not_slash s' in (c :: run, rest)
  end.

(** Units that the dot accepts up to the end: none is a line terminator. *)
Definition dot_star_to_end (s : jsstring) : bool :=
  forallb (fun c => negb (is_line_terminator c)) s.

Definition after_scheme (r1 : jsstring) : option (jsstring * jsstring) :=
  match strip_prefix (lit "://github.com/") r1 with
  | None => None
  | Some r2 =>
      match span_not_slash r2 with
      | ([], _) => None
      | (_, []) => None
      | (g1, _ :: r3) =>
          match span_not_slash r3 with
          | ([], _) => None
          | (g2, []) => Some (g1, g2)
          | (g2, _ :: tail) =>
              if dot_star_to_end tail then Some (g1, g2) else None
          end
      end
  end.

Definition scan_url (url : jsstring) : option (jsstring * jsstring) :=
  match strip_prefix (lit "http") url with
  | None => None
  | Some r0 =>
      after_scheme (match strip_prefix (lit "s") r0 with
                    | Some r => r
                    | None => r0
                    end)
  end.

(** The string without its final [.git], if it has one. *)
Definition strip_dot_git (s : jsstring) : jsstring :=
  match strip_prefix (rev (lit ".git")) (rev s) with
  | Some r => rev r
  | None => s
  end.

(** The URL shape of the specification: [https://github.com/<owner>/<repo>],
    owner and repo non-empty and free of slashes, then nothing or a slash
    and a further path. *)
Definition no_slash (s : jsstring) : Prop := ~ In SLASH s.

Definition spec_url (o r tail : jsstring) : jsstring :=
  lit "https://github.com/" ++ o ++ [SLASH] ++ r ++ tail.

Definition spec_tail (tail : jsstring) : Prop :=
  tail = [] \/ exists p, tail = SLASH :: p.

Definition spec_url_form (url : jsstring) : Prop :=
  exists o r tail,
    o <> [] /\ r <> [] /\ no_slash o /\ no_slash r /\ spec_tail tail /\
    url = spec_url o r tail.

(** The URL shape the regular expression accepts. *)
Definition scheme (secure : bool) : jsstring :=
  if secure then lit "https" else lit "http".

Definition accepted_url (secure : bool) (o r tail : jsstring) : jsstring :=
  scheme secure ++ lit "://github.com/" ++ o ++ [SLASH] ++ r ++ tail.

Definition accepted_tail (tail : jsstring) : Prop :=
  tail = [] \/ exists p, tail = SLASH :: p /\ dot_star_to_end p = true.

Definition accepted_form (url : jsstring) : Prop :=
  exists secure o r tail,
    o <> [] /\ r <> [] /\ no_slash o /\ no_slash r /\ accepted_tail tail /\
    url = accepted_url secure o r tail.

End UrlParser.

(** ** Rows of the four collections of the persistence gateway *)

Module RepositoryRow.
Record t := mk {
  id : jsstring;
  user_id : jsstring;
  name : jsstring;
  full_name : jsstring;
  url : jsstring;
  description : jsstring;
  default_branch : jsstring;
  total_commits : Z;
  analysis_status : jsstring
}.
End RepositoryRow.

Module CommitRow.
Record t := mk {
  id : jsstring;
  repository_id : jsstring;
  sha : jsstring;
  message : jsstring;
  author_name : jsstring;
  author_email : jsstring;
  date : jsstring;
  files_changed : Z;
  additions : Z;
  deletions : Z;
  commit_order : Z
}.
End CommitRow.

Module CommitFileRow.
(** [status] is [None] for [undefined]. *)
Record t := mk {
  id : jsstring;
  commit_id : jsstring;
  filename : jsstring;
  status : option jsstring;
  additions : Z;
  deletions : Z;
  patch : jsstring
}.
End CommitFileRow.

Module LessonRow.
Record t := mk {
  id : jsstring;
  commitId : jsstring;
  title : jsstring;
  content : jsstring;
  summary : jsstring;
  keyConcepts : jsstring;
  difficultyLevel : jsstring;
  estimatedReadingTime : Z;
  status : jsstring
}.
End LessonRow.

(** ** The keys of a row

    The code names a column of several words in two spellings: the rows of
    [commit_files] are written with [commit_id] and listed with
    [where: { commitId }], the rows of [lessons] are written with
    [keyConcepts] and read with [key_concepts].  The gateway takes either
    spelling in what it is given.  In a row that [list] returns, such a
    column has one key, in the spelling the gateway chooses. *)
Inductive Spelling := snake_case | camelCase.

Definition spelling_eqb (a b : Spelling) : bool :=
  match a, b with
  | snake_case, snake_case | camelCase, camelCase => true
  | _, _ => false
  end.

(** ** The environment: everything the code asks of the outside *)

Class Env := {
  (** the value of the [k]-th call of [Math.random()] *)
  random_values : nat -> Q;
  (** the value of the [k]-th call of [Date.now()] *)
  now_values : nat -> Z;
  (** [Number.prototype.toString(36)] of a random value *)
  toString36 : Q -> jsstring;
  (** [Date.prototype.toISOString] of a valid time value *)
  toISOString : Z -> jsstring;
  (** messages of the engine's [TypeError] and [RangeError] *)
  typeError_message : jsstring;
  rangeError_message : jsstring;
  (** the [k]-th call of the persistence gateway: [None] when it resolves,
      [Some e] when it rejects with [e] *)
  gateway_rejects : nat -> option Exn;
  (** [(await blink.auth.me()).id] *)
  auth_me_id : Result jsstring;
  (** the order in which [list] returns rows when no [orderBy] is given *)
  lessons_default_order : list LessonRow.t -> list LessonRow.t;
  commit_files_default_order : list CommitFileRow.t -> list CommitFileRow.t;
  (** the spelling of the keys of several words in the rows that [list]
      returns, for rows that were written with keys in the given spelling *)
  listed_keys : Spelling -> Spelling;
  (** [blink.ai.generateText] on a prompt: the text, or a rejection *)
  ai_generateText : jsstring -> Result jsstring
}.

(** [Math.random()] answers in [[0, 1)], and the clock is a valid time value
    after the epoch. *)
Definition MAX_TIME : Z := 8640000000000000.

Record EnvOk `{Env} : Prop := {
  random_range : forall k, (0 <= random_values k)%Q /\ (random_values k < 1)%Q;
  now_range : forall k, 0 <= now_values k <= MAX_TIME
}.
Arguments EnvOk : clear implicits.

(** [row.key] for a column of several words of a listed row: the row was
    written with keys in the spelling [written], the key is asked for in the
    spelling [asked].  [None] is [undefined]: the row has the column under
    the other key. *)
Definition listed `{Env} {A} (written asked : Spelling) (value : A) : option A :=
  if spelling_eqb (listed_keys written) asked then Some value else None.

(** ** State and exceptions *)

Module Eff.

(** A computation over a state [S] that returns or throws; the state at the
    throw is kept, as the store keeps what was written before a failure. *)
Definition t (S A : Type) : Type := S -> Result A * S.

Definition ret {S A} (a : A) : t S A := fun s => (Ok a, s).

Definition bind {S A B} (m : t S A) (k : A -> t S B) : t S B :=
  fun s => match m s with
           | (Ok a, s') => k a s'
           | (Throw e, s') => (Throw e, s')
           end.

Definition throw {S A} (e : Exn) : t S A := fun s => (Throw e, s).

Definition of_result {S A} (r : Result A) : t S A := fun s => (r, s).

Definition modify {S} (f : S -> S) : t S unit := fun s => (Ok tt, f s).

(** [try { body } catch (e) { handler e } finally { finalizer }] *)
Definition try_catch_finally {S}
    (body : t S unit) (handler : Exn -> t S unit) (finalizer : t S unit) : t S unit :=
  fun s =>
    let '(r1, s1) := match body s with
                     | (Ok a, s') => (Ok a, s')
                     | (Throw e, s') => handler e s'
                     end in
    match finalizer s1 with
    | (Ok _, s2) => (r1, s2)
    | (Throw e, s2) => (Throw e, s2)
    end.

(** [for (let i = i0; i < i0 + n; i++) acc.push(body(i))] *)
Fixpoint for_push {S A} (n i : nat) (body : nat -> t S A) (acc : list A) : t S (list A) :=
  match n with
  | O => ret acc
  | Datatypes.S n' => bind (body i) (fun a => for_push n' (Datatypes.S i) body (acc ++ [a]))
  end.

(** [for (let i = i0; i < i0 + l.length; i++) body(i, l[i])], and
    [for (const x of l) body(x)] when the index is not used. *)
Fixpoint for_each {S A} (l : list A) (i : nat) (body : nat -> A -> t S unit) : t S unit :=
  match l with
  | [] => ret tt
  | x :: l' => bind (body i x) (fun _ => for_each l' (Datatypes.S i) body)
  end.

End Eff.

Declare Scope eff_scope.
Delimit Scope eff_scope with eff.
Notation "x <- m ;; k" := (Eff.bind m (fun x => k))
  (at level 61, m at next level, right associativity) : eff_scope.
Notation "m ;; k" := (Eff.bind m (fun _ => k))
  (at level 61, right associativity) : eff_scope.
Local Open Scope eff_scope.

(** ** The random source and the clock *)

Module Gen.

Record Src := { random_calls : nat; now_calls : nat }.

Definition G := Eff.t Src.

Definition next_random (s : Src) : Src :=
  {| random_calls := S (random_calls s); now_calls := now_calls s |}.

Definition next_now (s : Src) : Src :=
  {| random_calls := random_calls s; now_calls := S (now_calls s) |}.

Section WithEnv.
Context `{Env}.

Definition Math_random : G Q :=
  fun s => (Ok (random_values (random_calls s)), next_random s).

Definition Date_now : G Z :=
  fun s => (Ok (now_values (now_calls s)), next_now s).

(** [Math.floor(Math.random() * n)].  The random value is a double, hence a
    rational number; the product is taken exactly here, where the engine
    rounds it to a double before the floor.  The two floors can differ by
    one at a rounding boundary (for the double nearest to 0.3 and [n = 10]
    the exact floor is 2 and the engine's is 3).  They lie in the same
    range: for a double [r < 1] and the integers [n] of this code, [r * n]
    rounds to a double below [n].  What is proved of these numbers below is
    their range. *)
Definition floor_random (n : Z) : G Z :=
  r <- Math_random ;; Eff.ret (Qfloor (r * inject_Z n)).

(** [date.toISOString()], a [RangeError] outside the valid time values *)
Definition Date_toISOString (time : Z) : G jsstring :=
  if Z.abs time <=? MAX_TIME then Eff.ret (toISOString time)
  else Eff.throw (Error rangeError_message).

(** [Array(n).fill(0).map(() => line).join('\n')], a [RangeError] when [n]
    is not an array length *)
Definition Array_fill_map_join (n : Z) (line : jsstring) : G jsstring :=
  if (n <? 0) || (2 ^ 32 <=? n) then Eff.throw (Error rangeError_message)
  else Eff.ret (join [LF] (repeat line (Z.to_nat n))).

End WithEnv.

(** [a[i]] for a number [i]: [None] is [undefined]. *)
Definition item {A} (a : list A) (i : Z) : option A :=
  if i <? 0 then None else nth_error a (Z.to_nat i).

(** [`${x}`] for a string or [undefined] *)
Definition interpolate (x : option jsstring) : jsstring :=
  match x with Some s => s | None => lit "undefined" end.

End Gen.
Import Gen.

(** ** RepositoryAnalyzer: the mock commit and file generators *)

Module Commit.
Record t := mk {
  id : jsstring;
  sha : jsstring;
  message : jsstring;
  authorName : jsstring;
  authorEmail : jsstring;
  date : jsstring;
  filesChanged : Z;
  additions : Z;
  deletions : Z;
  commitOrder : Z
}.
End Commit.

Module CommitFile.
Record t := mk {
  id : jsstring;
  commitId : jsstring;
  filename : jsstring;
  status : option jsstring;
  additions : Z;
  deletions : Z;
  patch : jsstring
}.
End CommitFile.

Module Generator.
Section WithEnv.
Context `{Env}.

Definition commitMessages : list jsstring :=
  [ lit "Initial commit";
    lit "Add basic project structure";
    lit "Implement core functionality";
    lit "Add user authentication";
    lit "Fix authentication bugs";
    lit "Add database integration";
    lit "Implement API endpoints";
    lit "Add error handling";
    lit "Update documentation";
    lit "Optimize performance";
    lit "Add unit tests";
    lit "Fix security vulnerabilities";
    lit "Update dependencies";
    lit "Add new features";
    lit "Final cleanup and release" ].

Definition authors : list jsstring :=
  [ lit "John Doe"; lit "Jane Smith"; lit "Mike Johnson"; lit "Sarah Wilson" ].

Definition DAY_MS : Z := 24 * 60 * 60 * 1000.

(** One turn of the loop of [simulateCommitData]: the object pushed for
    index [i].  [author] is [undefined] when the index misses the roster,
    and then [author.toLowerCase()], evaluated after the [id] and the [sha],
    is a [TypeError]. *)
Definition simulateCommit (i : nat) : G Commit.t :=
  a <- floor_random (Z.of_nat (length authors)) ;;
  let author := item authors a in
  t0 <- Date_now ;;
  let date := t0 - (Z.of_nat (length commitMessages) - Z.of_nat i) * DAY_MS in
  t1 <- Date_now ;;
  r <- Math_random ;;
  au <- match author with
        | Some au => Eff.ret au
        | None => Eff.throw (Error typeError_message)
        end ;;
  iso <- Date_toISOString date ;;
  fc <- floor_random 10 ;;
  ad <- floor_random 100 ;;
  de <- floor_random 50 ;;
  Eff.ret {| Commit.id := lit "commit_" ++ dec t1 ++ lit "_" ++ dec (Z.of_nat i);
             Commit.sha := substring 2 10 (toString36 r);
             Commit.message := nth i commitMessages [];
             Commit.authorName := au;
             Commit.authorEmail := replace_first SPACE (lit ".") (toLowerCase au)
                                   ++ lit "@example.com";
             Commit.date := iso;
             Commit.filesChanged := fc + 1;
             Commit.additions := ad + 10;
             Commit.deletions := de + 1;
             Commit.commitOrder := Z.of_nat i + 1 |}.

Definition COMMIT_CAP : nat := 10.

Definition simulateCommitData (repoName owner : jsstring) : G (list Commit.t) :=
  Eff.for_push (Nat.min (length commitMessages) COMMIT_CAP) 0 simulateCommit [].

Definition fileExtensions : list jsstring :=
  [ lit ".js"; lit ".ts"; lit ".tsx"; lit ".css"; lit ".html"; lit ".md"; lit ".json" ].

Definition fileNames : list jsstring :=
  [ lit "index"; lit "app"; lit "component"; lit "utils"; lit "config";
    lit "styles"; lit "readme" ].

Definition statuses : list jsstring :=
  [ lit "added"; lit "modified"; lit "deleted" ].

Definition status_is (status : option jsstring) (s : jsstring) : bool :=
  match status with
  | Some x => jsstring_eqb x s
  | None => false
  end.

(** The three patch templates of [simulateCommitFiles]. *)
Definition patch_added (file : jsstring) : G jsstring :=
  n <- floor_random 20 ;;
  k <- floor_random 10 ;;
  body <- Array_fill_map_join (k + 3) (lit "+  // New line of code") ;;
  Eff.ret (lit "+++ b/" ++ file ++ [LF]
           ++ lit "@@ -0,0 +1," ++ dec (n + 5) ++ lit " @@" ++ [LF] ++ body).

Definition patch_deleted (file : jsstring) : G jsstring :=
  n <- floor_random 20 ;;
  k <- floor_random 10 ;;
  body <- Array_fill_map_join (k + 3) (lit "-  // Removed line of code") ;;
  Eff.ret (lit "--- a/" ++ file ++ [LF]
           ++ lit "@@ -1," ++ dec (n + 5) ++ lit " +0,0 @@" ++ [LF] ++ body).

Definition patch_modified (file : jsstring) : G jsstring :=
  a <- floor_random 10 ;;
  b <- floor_random 5 ;;
  c <- floor_random 10 ;;
  d <- floor_random 5 ;;
  Eff.ret (lit "--- a/" ++ file ++ [LF] ++ lit "+++ b/" ++ file ++ [LF]
           ++ lit "@@ -" ++ dec (a + 1) ++ lit "," ++ dec (b + 3)
           ++ lit " +" ++ dec (c + 1) ++ lit "," ++ dec (d + 3) ++ lit " @@" ++ [LF]
           ++ lit "-  // Old line of code" ++ [LF] ++ lit "+  // New line of code").

(** One turn of the loop of [simulateCommitFiles]. *)
Definition simulateCommitFile (commitId : jsstring) (i : nat) : G CommitFile.t :=
  fi <- floor_random (Z.of_nat (length fileNames)) ;;
  let fileName := interpolate (item fileNames fi) in
  ei <- floor_random (Z.of_nat (length fileExtensions)) ;;
  let extension := interpolate (item fileExtensions ei) in
  si <- floor_random (Z.of_nat (length statuses)) ;;
  let status := item statuses si in
  patch <- (if status_is status (lit "added") then patch_added (fileName ++ extension)
            else if status_is status (lit "deleted") then patch_deleted (fileName ++ extension)
            else patch_modified (fileName ++ extension)) ;;
  t <- Date_now ;;
  ad <- (if status_is status (lit "deleted") then Eff.ret 0
         else (x <- floor_random 20 ;; Eff.ret (x + 1))) ;;
  de <- (if status_is status (lit "added") then Eff.ret 0
         else (x <- floor_random 10 ;; Eff.ret (x + 1))) ;;
  Eff.ret {| CommitFile.id := lit "file_" ++ dec t ++ lit "_" ++ dec (Z.of_nat i);
             CommitFile.commitId := commitId;
             CommitFile.filename := fileName ++ extension;
             CommitFile.status := status;
             CommitFile.additions := ad;
             CommitFile.deletions := de;
             CommitFile.patch := patch |}.

(** [filesChanged] is an integer number; the loop [i < filesChanged] makes
    no turn when it is zero or negative. *)
Definition simulateCommitFiles (commitId : jsstring) (filesChanged : Z) : G (list CommitFile.t) :=
  Eff.for_push (Z.to_nat filesChanged) 0 (simulateCommitFile commitId) [].

End WithEnv.
End Generator.

(** ** The persistence gateway *)

Module Store.
Record t := mk {
  repositories : list RepositoryRow.t;
  commits : list CommitRow.t;
  commit_files : list CommitFileRow.t;
  lessons : list LessonRow.t
}.
Definition empty : t := mk [] [] [] [].
End Store.

(** The writes the code issues: [create] on the four collections and
    [repositories.update(id, { total_commits, analysis_status })]. *)
Inductive Write :=
| CreateRepository (r : RepositoryRow.t)
| CreateCommit (c : CommitRow.t)
| CreateCommitFile (f : CommitFileRow.t)
| UpdateRepository (id : jsstring) (total_commits : Z) (analysis_status : jsstring)
| CreateLesson (l : LessonRow.t).

Definition patch_repository (id : jsstring) (total : Z) (status : jsstring)
    (r : RepositoryRow.t) : RepositoryRow.t :=
  if jsstring_eqb (RepositoryRow.id r) id then
    RepositoryRow.mk (RepositoryRow.id r) (RepositoryRow.user_id r) (RepositoryRow.name r)
      (RepositoryRow.full_name r) (RepositoryRow.url r) (RepositoryRow.description r)
      (RepositoryRow.default_branch r) total status
  else r.

(** What a write that resolves does to the store: [create] appends a row,
    [update] patches the rows with the given id. *)
Definition apply_write (w : Write) (st : Store.t) : Store.t :=
  match w with
  | CreateRepository r =>
      Store.mk (Store.repositories st ++ [r]) (Store.commits st)
               (Store.commit_files st) (Store.lessons st)
  | CreateCommit c =>
      Store.mk (Store.repositories st) (Store.commits st ++ [c])
               (Store.commit_files st) (Store.lessons st)
  | CreateCommitFile f =>
      Store.mk (Store.repositories st) (Store.commits st)
               (Store.commit_files st ++ [f]) (Store.lessons st)
  | UpdateRepository id total status =>
      Store.mk (map (patch_repository id total status) (Store.repositories st))
               (Store.commits st) (Store.commit_files st) (Store.lessons st)
  | CreateLesson l =>
      Store.mk (Store.repositories st) (Store.commits st)
               (Store.commit_files st) (Store.lessons st ++ [l])
  end.

Module Flow.

(** The state of a component: the random source and the clock, the number
    of gateway calls issued, the store, the writes that resolved (oldest
    first) and the view state of the component. *)
Record State (V : Type) := mkState {
  src : Src;
  gateway_calls : nat;
  store : Store.t;
  log : list Write;
  view : V
}.
Arguments mkState {V}.
Arguments src {V}.
Arguments gateway_calls {V}.
Arguments store {V}.
Arguments log {V}.
Arguments view {V}.

Definition M (V : Type) := Eff.t (State V).

Definition liftG {V A} (m : G A) : M V A :=
  fun s => let '(r, g) := m (src s) in
           (r, mkState g (gateway_calls s) (store s) (log s) (view s)).

Definition set_view {V} (f : V -> V) : M V unit :=
  Eff.modify (fun s => mkState (src s) (gateway_calls s) (store s) (log s) (f (view s))).

Section WithEnv.
Context `{Env}.

(** [await blink.db.<collection>.create(row)] and [update(id, patch)] *)
Definition gateway_write {V} (w : Write) : M V unit :=
  fun s =>
    match gateway_rejects (gateway_calls s) with
    | Some e => (Throw e, mkState (src s) (S (gateway_calls s)) (store s) (log s) (view s))
    | None => (Ok tt, mkState (src s) (S (gateway_calls s)) (apply_write w (store s))
                              (log s ++ [w]) (view s))
    end.

(** [await blink.db.<collection>.list(query)] *)
Definition gateway_list {V A} (query : Store.t -> list A) : M V (list A) :=
  fun s =>
    match gateway_rejects (gateway_calls s) with
    | Some e => (Throw e, mkState (src s) (S (gateway_calls s)) (store s) (log s) (view s))
    | None => (Ok (query (store s)),
               mkState (src s) (S (gateway_calls s)) (store s) (log s) (view s))
    end.

Definition auth_me {V} : M V jsstring := Eff.of_result auth_me_id.

End WithEnv.
End Flow.
Import Flow.

(** ** RepositoryAnalyzer: the intake flow *)

Module Repository.
Record t := mk {
  id : jsstring;
  name : jsstring;
  fullName : jsstring;
  url : jsstring;
  description : jsstring;
  defaultBranch : jsstring;
  totalCommits : Z;
  analysisStatus : jsstring
}.
End Repository.

Record Toast := mkToast {
  toast_title : jsstring;
  toast_description : jsstring;
  toast_variant : option jsstring
}.

Module RepositoryAnalyzer.
Import UrlParser Generator.

(** The state variables of the component, the toasts shown and the
    arguments [onRepositoryAnalyzed] was called with. *)
Record View := mkView {
  analyzing : bool;
  progress : Q;
  currentStep : jsstring;
  error : jsstring;
  toasts : list Toast;
  analyzed : list Repository.t
}.

Definition initial_view : View := mkView false 0 [] [] [] [].

Definition setAnalyzing (b : bool) : M View unit :=
  set_view (fun v => mkView b (progress v) (currentStep v) (error v) (toasts v) (analyzed v)).
Definition with_progress (p : Q) (v : View) : View :=
  mkView (analyzing v) p (currentStep v) (error v) (toasts v) (analyzed v).
Definition setProgress (p : Q) : M View unit := set_view (with_progress p).
Definition setCurrentStep (c : jsstring) : M View unit :=
  set_view (fun v => mkView (analyzing v) (progress v) c (error v) (toasts v) (analyzed v)).
Definition setError (e : jsstring) : M View unit :=
  set_view (fun v => mkView (analyzing v) (progress v) (currentStep v) e (toasts v) (analyzed v)).
Definition toast (t : Toast) : M View unit :=
  set_view (fun v => mkView (analyzing v) (progress v) (currentStep v) (error v)
                            (toasts v ++ [t]) (analyzed v)).
Definition onRepositoryAnalyzed (r : Repository.t) : M View unit :=
  set_view (fun v => mkView (analyzing v) (progress v) (currentStep v) (error v)
                            (toasts v) (analyzed v ++ [r])).

Section WithEnv.
Context `{Env}.

Definition ANALYZING : jsstring := lit "analyzing".
Definition COMPLETED : jsstring := lit "completed".

Definition commit_row (repositoryId : jsstring) (commit : Commit.t) : CommitRow.t :=
  {| CommitRow.id := Commit.id commit;
     CommitRow.repository_id := repositoryId;
     CommitRow.sha := Commit.sha commit;
     CommitRow.message := Commit.message commit;
     CommitRow.author_name := Commit.authorName commit;
     CommitRow.author_email := Commit.authorEmail commit;
     CommitRow.date := Commit.date commit;
     CommitRow.files_changed := Commit.filesChanged commit;
     CommitRow.additions := Commit.additions commit;
     CommitRow.deletions := Commit.deletions commit;
     CommitRow.commit_order := Commit.commitOrder commit |}.

Definition commit_file_row (file : CommitFile.t) : CommitFileRow.t :=
  {| CommitFileRow.id := CommitFile.id file;
     CommitFileRow.commit_id := CommitFile.commitId file;
     CommitFileRow.filename := CommitFile.filename file;
     CommitFileRow.status := CommitFile.status file;
     CommitFileRow.additions := CommitFile.additions file;
     CommitFileRow.deletions := CommitFile.deletions file;
     CommitFileRow.patch := CommitFile.patch file |}.

(** The body of the loop over [commits]: the commit row, then its files one
    by one, then the progress. *)
Definition persist_commit (repositoryId : jsstring) (total : nat)
    (i : nat) (commit : Commit.t) : M View unit :=
  gateway_write (CreateCommit (commit_row repositoryId commit)) ;;
  files <- liftG (simulateCommitFiles (Commit.id commit) (Commit.filesChanged commit)) ;;
  Eff.for_each files 0 (fun _ file => gateway_write (CreateCommitFile (commit_file_row file))) ;;
  setProgress (60 + (inject_Z (Z.of_nat i) / inject_Z (Z.of_nat total)) * 30).

(** The row created first, the object handed to [onRepositoryAnalyzed] and
    the closing toast. *)
Definition new_repository_row (repositoryId uid : jsstring) (p : parsed) (url : jsstring)
    : RepositoryRow.t :=
  {| RepositoryRow.id := repositoryId;
     RepositoryRow.user_id := uid;
     RepositoryRow.name := repo p;
     RepositoryRow.full_name := owner p ++ lit "/" ++ repo p;
     RepositoryRow.url := url;
     RepositoryRow.description := lit "Repository " ++ repo p ++ lit " by " ++ owner p;
     RepositoryRow.default_branch := lit "main";
     RepositoryRow.total_commits := 0;
     RepositoryRow.analysis_status := ANALYZING |}.

Definition final_repository (repositoryId : jsstring) (p : parsed) (url : jsstring)
    (total : Z) : Repository.t :=
  {| Repository.id := repositoryId;
     Repository.name := repo p;
     Repository.fullName := owner p ++ lit "/" ++ repo p;
     Repository.url := url;
     Repository.description := lit "Repository " ++ repo p ++ lit " by " ++ owner p;
     Repository.defaultBranch := lit "main";
     Repository.totalCommits := total;
     Repository.analysisStatus := COMPLETED |}.

Definition complete_toast (p : parsed) (total : Z) : Toast :=
  {| toast_title := lit "Analysis Complete";
     toast_description := lit "Successfully analyzed " ++ dec total
                          ++ lit " commits from " ++ repo p;
     toast_variant := None |}.

(** The [try] block of [analyzeRepository].  The two timer waits change no
    state and are left out; every [await] is a step of the sequence. *)
Definition analyze (url : jsstring) : M View unit :=
  setAnalyzing true ;;
  setError [] ;;
  setProgress 0 ;;
  setCurrentStep (lit "Parsing repository URL...") ;;
  p <- Eff.of_result (parseGitHubUrl (trim url)) ;;
  setProgress 20 ;;
  setCurrentStep (lit "Creating repository record...") ;;
  t <- liftG Date_now ;;
  r <- liftG Math_random ;;
  let repositoryId := lit "repo_" ++ dec t ++ lit "_" ++ substr 2 9 (toString36 r) in
  uid <- auth_me ;;
  gateway_write (CreateRepository (new_repository_row repositoryId uid p (trim url))) ;;
  setProgress 40 ;;
  setCurrentStep (lit "Fetching commit history...") ;;
  commits <- liftG (simulateCommitData (repo p) (owner p)) ;;
  setProgress 60 ;;
  setCurrentStep (lit "Processing commits and generating diffs...") ;;
  Eff.for_each commits 0 (persist_commit repositoryId (length commits)) ;;
  setProgress 90 ;;
  setCurrentStep (lit "Finalizing analysis...") ;;
  gateway_write (UpdateRepository repositoryId (Z.of_nat (length commits)) COMPLETED) ;;
  setProgress 100 ;;
  setCurrentStep (lit "Analysis complete!") ;;
  onRepositoryAnalyzed
    (final_repository repositoryId p (trim url) (Z.of_nat (length commits))) ;;
  toast (complete_toast p (Z.of_nat (length commits))).

(** The [catch] block: [error instanceof Error ? error.message : ...]. *)
Definition error_message (e : Exn) : jsstring :=
  match e with
  | Error message => message
  | NotAnError => lit "Failed to analyze repository"
  end.

Definition failed_toast : Toast :=
  {| toast_title := lit "Analysis Failed";
     toast_description := lit "Please check the URL and try again";
     toast_variant := Some (lit "destructive") |}.

Definition analyze_failed (e : Exn) : M View unit :=
  setError (error_message e) ;; toast failed_toast.

(** The [finally] block. *)
Definition analyze_finally : M View unit :=
  setAnalyzing false ;; setProgress 0 ;; setCurrentStep [].

Definition analyzeRepository (url : jsstring) : M View unit :=
  match trim url with
  | [] => setError (lit "Please enter a GitHub repository URL")
  | _ :: _ => Eff.try_catch_finally (analyze url) analyze_failed analyze_finally
  end.

End WithEnv.
End RepositoryAnalyzer.

(** ** Traces of the intake flow *)

Module Trace.
Import RepositoryAnalyzer.

(** The store after the writes [ws] resolved in this order. *)
Definition replay (ws : list Write) (st : Store.t) : Store.t :=
  fold_left (fun st w => apply_write w st) ws st.

(** The state after the writes [ws] resolved, each in one gateway call, with
    random source and clock [g] and view [v]. *)
Definition after_writes {V} (ws : list Write) (g : Src) (v : V) (s : State V) : State V :=
  mkState g (gateway_calls s + length ws) (replay ws (store s)) (log s ++ ws) v.

(** The writes for one commit: its row, then the rows of its files. *)
Definition commit_writes (repositoryId : jsstring) (cf : Commit.t * list CommitFile.t) : list Write :=
  CreateCommit (commit_row repositoryId (fst cf))
  :: map (fun f => CreateCommitFile (commit_file_row f)) (snd cf).

(** A write of the intake before its final update: a [create], and for a
    repository a row in status [analyzing] with no commits counted. *)
Definition intake_create (w : Write) : Prop :=
  match w with
  | CreateRepository r =>
      RepositoryRow.analysis_status r = ANALYZING /\ RepositoryRow.total_commits r = 0
  | CreateCommit _ | CreateCommitFile _ => True
  | UpdateRepository _ _ _ | CreateLesson _ => False
  end.

(** The rows a list of writes creates, per collection. *)
Definition created_repositories (ws : list Write) : list RepositoryRow.t :=
  flat_map (fun w => match w with CreateRepository r => [r] | _ => [] end) ws.
Definition created_commits (ws : list Write) : list CommitRow.t :=
  flat_map (fun w => match w with CreateCommit c => [c] | _ => [] end) ws.
Definition created_commit_files (ws : list Write) : list CommitFileRow.t :=
  flat_map (fun w => match w with CreateCommitFile f => [f] | _ => [] end) ws.

(** The files generated for a commit: as many as its [filesChanged], each
    with the id of the commit. *)
Definition files_fit (commit : Commit.t) (files : list CommitFile.t) : Prop :=
  length files = Z.to_nat (Commit.filesChanged commit) /\
  (forall f, In f files -> CommitFile.commitId f = Commit.id commit).

(** The writes of a complete intake, in order. *)
Definition intake_writes (created : RepositoryRow.t)
    (commits : list Commit.t) (filess : list (list CommitFile.t)) : list Write :=
  [CreateRepository created]
  ++ flat_map (commit_writes (RepositoryRow.id created)) (combine commits filess)
  ++ [UpdateRepository (RepositoryRow.id created) (Z.of_nat (length commits)) COMPLETED].

Definition is_throw {A} (r : Result A) : Prop :=
  match r with Throw _ => True | Ok _ => False end.

Section WithEnv.
Context `{Env}.

(** What a run from [s] to [s'] with result [r] did to the gateway: the
    writes [ws] resolved, in this order; either these were all the calls, or
    one more call was issued, the gateway rejected it, and the run threw
    what it was rejected with. *)
Definition account {V A} (s : State V) (r : Result A) (s' : State V) (ws : list Write) : Prop :=
  log s' = log s ++ ws /\
  store s' = replay ws (store s) /\
  (forall j, (j < length ws)%nat -> gateway_rejects (gateway_calls s + j) = None) /\
  (gateway_calls s' = (gateway_calls s + length ws)%nat \/
   (gateway_calls s' = (gateway_calls s + length ws + 1)%nat /\
    exists e, r = Throw e /\
              gateway_rejects (gateway_calls s + length ws) = Some e)).

(** A computation all of whose writes satisfy [Q] and whose view changes
    stay within [R], however it ends. *)
Definition steady {V A} (Q : Write -> Prop) (R : V -> V -> Prop) (m : M V A) : Prop :=
  forall s r s', m s = (r, s') ->
    exists ws, account s r s' ws /\ Forall Q ws /\ R (view s) (view s').

(** A computation for which this holds when it throws. *)
Definition tracks {V A} (Q : Write -> Prop) (R : V -> V -> Prop) (m : M V A) : Prop :=
  forall s r s', m s = (r, s') ->
    exists ws, account s r s' ws /\ (is_throw r -> Forall Q ws /\ R (view s) (view s')).

(** The view changes of the intake before it completes: nothing is handed
    to [onRepositoryAnalyzed] and no toast is shown. *)
Definition unannounced (v v' : View) : Prop :=
  analyzed v' = analyzed v /\ toasts v' = toasts v.

(** The generator calls of the loop over [commits], without its writes:
    [simulateCommitFiles(commit.id, commit.filesChanged)] for each commit in
    turn, on one random source and one clock. *)
Fixpoint generate_files (commits : list Commit.t) : G (list (list CommitFile.t)) :=
  match commits with
  | [] => Eff.ret []
  | commit :: rest =>
      files <- Generator.simulateCommitFiles (Commit.id commit) (Commit.filesChanged commit) ;;
      filess <- generate_files rest ;;
      Eff.ret (files :: filess)
  end.

End WithEnv.
End Trace.

(** ** CodeViewer: the diff line classifier *)

Module CodeViewer.

Record PatchLine := mkLine {
  id : nat;
  content : jsstring;
  className : jsstring;
  prefix : jsstring;
  originalLine : jsstring
}.

Definition CLASS_HEADER : jsstring := lit "text-slate-500 font-medium".
Definition CLASS_HUNK : jsstring := lit "text-blue-600 font-medium bg-blue-50".
Definition CLASS_ADDITION : jsstring := lit "text-green-700 bg-green-50".
Definition CLASS_DELETION : jsstring := lit "text-red-700 bg-red-50".
Definition CLASS_CONTEXT : jsstring := lit "text-slate-700".

(** The callback of [lines.map] in [formatPatch]: [className] and [prefix]
    start as ['text-slate-700'] and [''] and the cascade overwrites them. *)
Definition formatLine (line : jsstring) (index : nat) : PatchLine :=
  let '(className, prefix) :=
    if startsWith line (lit "+++") || startsWith line (lit "---") then (CLASS_HEADER, [])
    else if startsWith line (lit "@@") then (CLASS_HUNK, [])
    else if startsWith line (lit "+") then (CLASS_ADDITION, lit "+")
    else if startsWith line (lit "-") then (CLASS_DELETION, lit "-")
    else if startsWith line (lit " ") then (CLASS_CONTEXT, lit " ")
    else (CLASS_CONTEXT, []) in
  {| id := index;
     content := skipn (match prefix with [] => 0 | _ :: _ => 1 end) line;
     className := className;
     prefix := prefix;
     originalLine := line |}.

(** [Array.prototype.map] with the index. *)
Fixpoint map_indexed {A B} (f : A -> nat -> B) (l : list A) (i : nat) : list B :=
  match l with
  | [] => []
  | x :: l' => f x i :: map_indexed f l' (S i)
  end.

Definition formatPatch (patch : jsstring) : list PatchLine :=
  match patch with
  | [] => []
  | _ :: _ => map_indexed formatLine (split LF patch) 0
  end.

(** The classification in the words of the specification. *)
Inductive LineKind := FileHeader | HunkHeader | Addition | Deletion | Context.

Definition begins_with (line p : jsstring) : Prop := exists rest, line = p ++ rest.

Definition is_file_header (line : jsstring) : Prop :=
  begins_with line (lit "+++") \/ begins_with line (lit "---").

Definition line_has_kind (line : jsstring) (k : LineKind) : Prop :=
  match k with
  | FileHeader => is_file_header line
  | HunkHeader => ~ is_file_header line /\ begins_with line (lit "@@")
  | Addition =>
      ~ is_file_header line /\ ~ begins_with line (lit "@@") /\ begins_with line (lit "+")
  | Deletion =>
      ~ is_file_header line /\ ~ begins_with line (lit "@@") /\
      ~ begins_with line (lit "+") /\ begins_with line (lit "-")
  | Context =>
      ~ is_file_header line /\ ~ begins_with line (lit "@@") /\
      ~ begins_with line (lit "+") /\ ~ begins_with line (lit "-")
  end.

Definition class_of (k : LineKind) : jsstring :=
  match k with
  | FileHeader => CLASS_HEADER
  | HunkHeader => CLASS_HUNK
  | Addition => CLASS_ADDITION
  | Deletion => CLASS_DELETION
  | Context => CLASS_CONTEXT
  end.

Definition sample_patch : jsstring :=
  join [LF] [ lit "+++ b/x"; lit "@@ -1,1 +1,1 @@"; lit "+foo"; lit "-bar"; lit " baz" ].

End CodeViewer.

(** ** LessonPanel *)

Module Lesson.
Record t := mk {
  id : jsstring;
  title : jsstring;
  content : jsstring;
  summary : jsstring;
  keyConcepts : jsstring;
  difficultyLevel : jsstring;
  estimatedReadingTime : Z;
  status : jsstring
}.
End Lesson.

Module LessonPanel.

Record View := mkView {
  lesson : option Lesson.t;
  loading : bool;
  generating : bool;
  toasts : list Toast
}.

Definition initial_view : View := mkView None true false [].

Definition setLesson (l : option Lesson.t) : M View unit :=
  set_view (fun v => mkView l (loading v) (generating v) (toasts v)).
Definition setLoading (b : bool) : M View unit :=
  set_view (fun v => mkView (lesson v) b (generating v) (toasts v)).
Definition setGenerating (b : bool) : M View unit :=
  set_view (fun v => mkView (lesson v) (loading v) b (toasts v)).
Definition toast (t : Toast) : M View unit :=
  set_view (fun v => mkView (lesson v) (loading v) (generating v) (toasts v ++ [t])).

(** [s || d] and [n || d]: the default replaces an empty string and zero,
    and [undefined]. *)
Definition str_or (s d : jsstring) : jsstring :=
  match s with [] => d | _ :: _ => s end.
Definition num_or (n d : Z) : Z := if n =? 0 then d else n.
Definition undefined_or_str (s : option jsstring) (d : jsstring) : jsstring :=
  match s with Some s => str_or s d | None => d end.
Definition undefined_or_num (n : option Z) (d : Z) : Z :=
  match n with Some n => num_or n d | None => d end.

Section WithEnv.
Context `{Env}.

(** The object [loadLesson] builds from a listed row.  The row was written
    by [generateLesson] with the keys [keyConcepts], [difficultyLevel] and
    [estimatedReadingTime]; here the keys [key_concepts], [difficulty_level]
    and [estimated_reading_time] are read. *)
Definition lesson_of_row (lessonData : LessonRow.t) : Lesson.t :=
  {| Lesson.id := LessonRow.id lessonData;
     Lesson.title := LessonRow.title lessonData;
     Lesson.content := LessonRow.content lessonData;
     Lesson.summary := str_or (LessonRow.summary lessonData) [];
     Lesson.keyConcepts :=
       undefined_or_str
         (listed camelCase snake_case (LessonRow.keyConcepts lessonData)) [];
     Lesson.difficultyLevel :=
       undefined_or_str
         (listed camelCase snake_case (LessonRow.difficultyLevel lessonData))
         (lit "beginner");
     Lesson.estimatedReadingTime :=
       undefined_or_num
         (listed camelCase snake_case (LessonRow.estimatedReadingTime lessonData)) 5;
     Lesson.status := str_or (LessonRow.status lessonData) (lit "generated") |}.

(** [lessons.list({ where: { commitId }, limit: 1 })]: no [orderBy]. *)
Definition lessons_of_commit (commitId : jsstring) (st : Store.t) : list LessonRow.t :=
  lessons_default_order
    (filter (fun l => jsstring_eqb (LessonRow.commitId l) commitId) (Store.lessons st)).

Definition list_lessons (commitId : jsstring) (limit : nat) : M View (list LessonRow.t) :=
  gateway_list (fun st => firstn limit (lessons_of_commit commitId st)).

(** [commitFiles.list({ where: { commitId } })] *)
Definition commit_files_of (commitId : jsstring) (st : Store.t) : list CommitFileRow.t :=
  commit_files_default_order
    (filter (fun f => jsstring_eqb (CommitFileRow.commit_id f) commitId)
            (Store.commit_files st)).

Definition list_commit_files (commitId : jsstring) : M View (list CommitFileRow.t) :=
  gateway_list (commit_files_of commitId).

Definition loadLesson (commit : Commit.t) : M View unit :=
  Eff.try_catch_finally
    (setLoading true ;;
     lessonsData <- list_lessons (Commit.id commit) 1 ;;
     match lessonsData with
     | lessonData :: _ => setLesson (Some (lesson_of_row lessonData))
     | [] => setLesson None
     end)
    (fun _ => toast {| toast_title := lit "Error";
                       toast_description := lit "Failed to load lesson";
                       toast_variant := Some (lit "destructive") |})
    (setLoading false).

Definition INDENT : jsstring := lit "        ".

Definition file_block (file : CommitFileRow.t) : jsstring :=
  [LF] ++ INDENT ++ lit "File: " ++ CommitFileRow.filename file
       ++ lit " (" ++ interpolate (CommitFileRow.status file) ++ lit ")" ++ [LF]
  ++ INDENT ++ lit "Changes:" ++ [LF]
  ++ INDENT ++ CommitFileRow.patch file ++ [LF]
  ++ INDENT.

Definition lesson_prompt (commit : Commit.t) (filesContext : list CommitFileRow.t) : jsstring :=
  [LF]
  ++ INDENT ++ lit "Analyze this Git commit and create a detailed educational lesson explaining the code changes:" ++ [LF]
  ++ [LF]
  ++ INDENT ++ lit "Commit: " ++ Commit.message commit ++ [LF]
  ++ INDENT ++ lit "Author: " ++ Commit.authorName commit ++ [LF]
  ++ INDENT ++ lit "Files changed: " ++ dec (Commit.filesChanged commit) ++ [LF]
  ++ INDENT ++ lit "Additions: " ++ dec (Commit.additions commit) ++ [LF]
  ++ INDENT ++ lit "Deletions: " ++ dec (Commit.deletions commit) ++ [LF]
  ++ [LF]
  ++ INDENT ++ lit "Files and changes:" ++ [LF]
  ++ INDENT ++ join [LF] (map file_block filesContext) ++ [LF]
  ++ [LF]
  ++ INDENT ++ lit "Please create a comprehensive lesson that explains:" ++ [LF]
  ++ INDENT ++ lit "1. What was changed and why" ++ [LF]
  ++ INDENT ++ lit "2. The technical concepts involved" ++ [LF]
  ++ INDENT ++ lit "3. Best practices demonstrated" ++ [LF]
  ++ INDENT ++ lit "4. Line-by-line explanation of key changes" ++ [LF]
  ++ INDENT ++ lit "5. How this fits into the overall development process" ++ [LF]
  ++ [LF]
  ++ INDENT ++ lit "Format the response as a detailed educational lesson suitable for developers learning from this codebase." ++ [LF]
  ++ lit "      ".

(** [Math.ceil(text.length / 200)] *)
Definition reading_time (text : jsstring) : Z :=
  (Z.of_nat (length text) + 199) / 200.

(** The row [generateLesson] creates for a generated text. *)
Definition lesson_row (lessonId : jsstring) (commit : Commit.t) (text : jsstring) : LessonRow.t :=
  {| LessonRow.id := lessonId;
     LessonRow.commitId := Commit.id commit;
     LessonRow.title := lit "Understanding: " ++ Commit.message commit;
     LessonRow.content := text;
     LessonRow.summary := lit "Learn about the changes made in commit "
                          ++ substring 0 8 (Commit.sha commit);
     LessonRow.keyConcepts := lit "Git, Version Control, Code Analysis";
     LessonRow.difficultyLevel := lit "intermediate";
     LessonRow.estimatedReadingTime := reading_time text;
     LessonRow.status := lit "generated" |}.

(** The object [generateLesson] passes to [setLesson]. *)
Definition generated_lesson (id : jsstring) (commit : Commit.t) (text : jsstring) : Lesson.t :=
  {| Lesson.id := id;
     Lesson.title := lit "Understanding: " ++ Commit.message commit;
     Lesson.content := text;
     Lesson.summary := lit "Learn about the changes made in commit "
                       ++ substring 0 8 (Commit.sha commit);
     Lesson.keyConcepts := lit "Git, Version Control, Code Analysis";
     Lesson.difficultyLevel := lit "intermediate";
     Lesson.estimatedReadingTime := reading_time text;
     Lesson.status := lit "generated" |}.

Definition lesson_id (t : Z) (r : Q) : jsstring :=
  lit "lesson_" ++ dec t ++ lit "_" ++ substr 2 9 (toString36 r).

Definition generated_toast : Toast :=
  {| toast_title := lit "Lesson Generated";
     toast_description := lit "AI has created a detailed lesson for this commit";
     toast_variant := None |}.

(** [await blink.db.lessons.create(row)] resolves to the created row. *)
Definition create_lesson (row : LessonRow.t) : M View LessonRow.t :=
  gateway_write (CreateLesson row) ;; Eff.ret row.

Definition generateLesson (commit : Commit.t) : M View unit :=
  Eff.try_catch_finally
    (setGenerating true ;;
     filesData <- list_commit_files (Commit.id commit) ;;
     text <- Eff.of_result (ai_generateText (lesson_prompt commit filesData)) ;;
     t <- liftG Date_now ;;
     r <- liftG Math_random ;;
     let lessonId := lesson_id t r in
     newLesson <- create_lesson (lesson_row lessonId commit text) ;;
     setLesson (Some (generated_lesson (LessonRow.id newLesson) commit text)) ;;
     toast generated_toast)
    (fun _ => toast {| toast_title := lit "Generation Failed";
                       toast_description := lit "Failed to generate lesson. Please try again.";
                       toast_variant := Some (lit "destructive") |})
    (setGenerating false).

(** The lesson of a commit that is newest by creation time: [create] appends,
    so it is the last row of the commit in the collection. *)
Definition newest_lesson (commitId : jsstring) (st : Store.t) : option LessonRow.t :=
  last (map Some (filter (fun l => jsstring_eqb (LessonRow.commitId l) commitId)
                         (Store.lessons st))) None.

End WithEnv.
End LessonPanel.

(** ** A concrete environment, to run the model *)

Module Demo.

(** Random values 0, 0.1, ..., 0.9 in turn, a clock that advances by one
    millisecond per reading (up to a bound), a gateway that resolves every
    call and lists rows in insertion order, with camelCase keys. *)
Definition env : Env :=
  {| random_values := fun k => (Z.of_nat (k mod 10) # 10)%Q;
     now_values := fun k => 1700000000000 + Z.min (Z.of_nat k) 1000000;
     toString36 := fun _ => lit "0.4fzyo82mvyr";
     toISOString := fun t => lit "T" ++ dec t;
     typeError_message := lit "TypeError";
     rangeError_message := lit "RangeError";
     gateway_rejects := fun _ => None;
     auth_me_id := Ok (lit "user_1");
     lessons_default_order := fun rows => rows;
     commit_files_default_order := fun rows => rows;
     listed_keys := fun _ => camelCase;
     ai_generateText := fun _ => Ok (lit "A lesson.") |}.

(** The same environment with a gateway that rejects its call number [k]. *)
Definition env_rejecting (k : nat) : Env :=
  {| random_values := fun k => (Z.of_nat (k mod 10) # 10)%Q;
     now_values := fun k => 1700000000000 + Z.min (Z.of_nat k) 1000000;
     toString36 := fun _ => lit "0.4fzyo82mvyr";
     toISOString := fun t => lit "T" ++ dec t;
     typeError_message := lit "TypeError";
     rangeError_message := lit "RangeError";
     gateway_rejects := fun j => if Nat.eqb j k then Some (Error (lit "Network error")) else None;
     auth_me_id := Ok (lit "user_1");
     lessons_default_order := fun rows => rows;
     commit_files_default_order := fun rows => rows;
     listed_keys := fun _ => camelCase;
     ai_generateText := fun _ => Ok (lit "A lesson.") |}.

Definition src0 : Src := {| random_calls := 0; now_calls := 0 |}.

Definition acme_widgets : jsstring := lit "https://github.com/acme/widgets".

Definition commit0 : Commit.t :=
  {| Commit.id := lit "commit_1700000000002_0";
     Commit.sha := lit "4fzyo82m";
     Commit.message := lit "Initial commit";
     Commit.authorName := lit "John Doe";
     Commit.authorEmail := lit "john.doe@example.com";
     Commit.date := lit "T1698704000001";
     Commit.filesChanged := 4;
     Commit.additions := 30;
     Commit.deletions := 16;
     Commit.commitOrder := 1 |}.

Definition state0 {V} (v : V) : State V := mkState src0 0 Store.empty [] v.

End Demo.

(** ** App: the commit list of a repository *)

(** What [list] answers to [orderBy: { commit_order: 'asc' }]: the rows it
    is given, in some order of ascending [commit_order]. *)
Class Ordering := {
  commits_order_asc : list CommitRow.t -> list CommitRow.t
}.

Record OrderingOk `{Ordering} : Prop := {
  order_asc_permutes : forall rows, Permutation (commits_order_asc rows) rows;
  order_asc_sorted : forall rows,
    StronglySorted (fun a b => CommitRow.commit_order a <= CommitRow.commit_order b)
                   (commits_order_asc rows)
}.
Arguments OrderingOk : clear implicits.

Module ListedCommit.
(** An entry of the commit list of [App], of type [Commit] there.
    [authorName], [authorEmail] and [commitOrder] are copied from the listed
    row as they are found: [None] is [undefined]. *)
Record t := mk {
  id : jsstring;
  sha : jsstring;
  message : jsstring;
  authorName : option jsstring;
  authorEmail : option jsstring;
  date : jsstring;
  filesChanged : Z;
  additions : Z;
  deletions : Z;
  commitOrder : option Z
}.
End ListedCommit.

Module App.

(** The state variables of the component that the commit list uses, and the
    values passed to [console.error]. *)
Record View := mkView {
  repository : option Repository.t;
  commits : list ListedCommit.t;
  selectedCommit : option ListedCommit.t;
  console : list Exn
}.

Definition initial_view : View := mkView None [] None [].

Definition setRepository (r : option Repository.t) : M View unit :=
  set_view (fun v => mkView r (commits v) (selectedCommit v) (console v)).
Definition setCommits (l : list ListedCommit.t) : M View unit :=
  set_view (fun v => mkView (repository v) l (selectedCommit v) (console v)).
Definition setSelectedCommit (c : option ListedCommit.t) : M View unit :=
  set_view (fun v => mkView (repository v) (commits v) c (console v)).
Definition console_error (e : Exn) : M View unit :=
  set_view (fun v => mkView (repository v) (commits v) (selectedCommit v) (console v ++ [e])).

Section WithEnv.
Context `{Env} `{Ordering}.

(** The callback of [commitsData.map] in [loadCommits].  The rows were
    written by [analyzeRepository] with the keys [author_name],
    [author_email], [files_changed] and [commit_order], and these are the
    keys read here. *)
Definition format_commit (commit : CommitRow.t) : ListedCommit.t :=
  {| ListedCommit.id := CommitRow.id commit;
     ListedCommit.sha := CommitRow.sha commit;
     ListedCommit.message := CommitRow.message commit;
     ListedCommit.authorName :=
       listed snake_case snake_case (CommitRow.author_name commit);
     ListedCommit.authorEmail :=
       listed snake_case snake_case (CommitRow.author_email commit);
     ListedCommit.date := CommitRow.date commit;
     ListedCommit.filesChanged :=
       LessonPanel.undefined_or_num
         (listed snake_case snake_case (CommitRow.files_changed commit)) 0;
     ListedCommit.additions := LessonPanel.num_or (CommitRow.additions commit) 0;
     ListedCommit.deletions := LessonPanel.num_or (CommitRow.deletions commit) 0;
     ListedCommit.commitOrder :=
       listed snake_case snake_case (CommitRow.commit_order commit) |}.

(** [commits.list({ where: { repository_id }, orderBy: { commit_order: 'asc' } })] *)
Definition commits_of_repository (repositoryId : jsstring) (st : Store.t) : list CommitRow.t :=
  commits_order_asc
    (filter (fun c => jsstring_eqb (CommitRow.repository_id c) repositoryId)
            (Store.commits st)).

(** [try { ... } catch (error) { console.error(...) }]: no [finally]. *)
Definition loadCommits (repositoryId : jsstring) : M View unit :=
  Eff.try_catch_finally
    (commitsData <- gateway_list (commits_of_repository repositoryId) ;;
     let formattedCommits := map format_commit commitsData in
     setCommits formattedCommits ;;
     match formattedCommits with
     | first :: _ => setSelectedCommit (Some first)
     | [] => Eff.ret tt
     end)
    console_error
    (Eff.ret tt).

Definition handleRepositoryAnalyzed (repo : Repository.t) : M View unit :=
  setRepository (Some repo) ;; loadCommits (Repository.id repo).

Definition handleCommitSelect (commit : ListedCommit.t) : M View unit :=
  setSelectedCommit (Some commit).

End WithEnv.

(** What the page shows below the header: the intake form while there is no
    repository; then the timeline when there are commits, and the card
    [No Commits Found] when there are none and the repository is
    [completed]. *)
Definition shows_analyzer (v : View) : bool :=
  match repository v with None => true | Some _ => false end.

Definition shows_timeline (v : View) : bool :=
  match repository v with
  | None => false
  | Some _ => (0 <? length (commits v))%nat
  end.

Definition shows_no_commits (v : View) : bool :=
  match repository v with
  | None => false
  | Some r => (length (commits v) =? 0)%nat
              && jsstring_eqb (Repository.analysisStatus r) (lit "completed")
  end.

(** The [commit] property of [CodeViewer] and [LessonPanel], when they are
    mounted. *)
Definition viewed_commit (v : View) : option ListedCommit.t :=
  if shows_timeline v then selectedCommit v else None.

(** A component takes over where another one left the clock, the random
    source, the gateway and the store. *)
Definition hand_over {V W} (s : State V) (w : W) : State W :=
  mkState (src s) (gateway_calls s) (store s) (log s) w.

End App.

(** ** CodeViewer: the files of a commit *)

Module FileEntry.
Record t := mk {
  id : jsstring;
  filename : jsstring;
  status : option jsstring;
  additions : Z;
  deletions : Z;
  patch : jsstring
}.
End FileEntry.

Module CodeViewerFiles.

Record View := mkView {
  files : list FileEntry.t;
  loading : bool;
  selectedFile : option FileEntry.t;
  toasts : list Toast
}.

Definition initial_view : View := mkView [] true None [].

Definition setFiles (l : list FileEntry.t) : M View unit :=
  set_view (fun v => mkView l (loading v) (selectedFile v) (toasts v)).
Definition setLoading (b : bool) : M View unit :=
  set_view (fun v => mkView (files v) b (selectedFile v) (toasts v)).
Definition setSelectedFile (f : option FileEntry.t) : M View unit :=
  set_view (fun v => mkView (files v) (loading v) f (toasts v)).
Definition toast (t : Toast) : M View unit :=
  set_view (fun v => mkView (files v) (loading v) (selectedFile v) (toasts v ++ [t])).

(** The callback of [filesData.map] in [loadCommitFiles]. *)
Definition format_file (file : CommitFileRow.t) : FileEntry.t :=
  {| FileEntry.id := CommitFileRow.id file;
     FileEntry.filename := CommitFileRow.filename file;
     FileEntry.status := CommitFileRow.status file;
     FileEntry.additions := LessonPanel.num_or (CommitFileRow.additions file) 0;
     FileEntry.deletions := LessonPanel.num_or (CommitFileRow.deletions file) 0;
     FileEntry.patch := LessonPanel.str_or (CommitFileRow.patch file) [] |}.

Definition load_failed_toast : Toast :=
  {| toast_title := lit "Error";
     toast_description := lit "Failed to load commit files";
     toast_variant := Some (lit "destructive") |}.

Section WithEnv.
Context `{Env}.

Definition loadCommitFiles (commit : Commit.t) : M View unit :=
  Eff.try_catch_finally
    (setLoading true ;;
     filesData <- gateway_list (LessonPanel.commit_files_of (Commit.id commit)) ;;
     let formattedFiles := map format_file filesData in
     setFiles formattedFiles ;;
     match formattedFiles with
     | first :: _ => setSelectedFile (Some first)
     | [] => Eff.ret tt
     end)
    (fun _ => toast load_failed_toast)
    (setLoading false).

End WithEnv.

(** [selectedFile?.id === file.id]: the entries of the list drawn as
    selected. *)
Definition highlighted (v : View) : list FileEntry.t :=
  match selectedFile v with
  | None => []
  | Some sel => filter (fun f => jsstring_eqb (FileEntry.id sel) (FileEntry.id f)) (files v)
  end.

End CodeViewerFiles.

(** ** CodeViewer: the language of a file *)

(** [String.prototype.toLowerCase] of the engine; on ASCII text it is
    [JS.toLowerCase]. *)
Class Engine := {
  String_toLowerCase : jsstring -> jsstring
}.

Definition is_ascii (s : jsstring) : Prop := Forall (fun c => (c < 128)%N) s.

Definition EngineOk `{Engine} : Prop :=
  forall s, is_ascii s -> String_toLowerCase s = toLowerCase s.
Arguments EngineOk : clear implicits.

Module Language.

Definition DOT : code_unit := 46%N.

(** [filename.split('.').pop()?.toLowerCase()], then [ext || 'txt'].  A
    split is never empty, so [pop] gives a string. *)
Definition getFileExtension `{Engine} (filename : jsstring) : jsstring :=
  let ext := String_toLowerCase (last (split DOT filename) []) in
  LessonPanel.str_or ext (lit "txt").

Definition languageMap : list (jsstring * jsstring) :=
  [ (lit "js", lit "javascript");
    (lit "jsx", lit "javascript");
    (lit "ts", lit "typescript");
    (lit "tsx", lit "typescript");
    (lit "py", lit "python");
    (lit "java", lit "java");
    (lit "cpp", lit "cpp");
    (lit "c", lit "c");
    (lit "css", lit "css");
    (lit "html", lit "html");
    (lit "json", lit "json");
    (lit "md", lit "markdown");
    (lit "yml", lit "yaml");
    (lit "yaml", lit "yaml");
    (lit "xml", lit "xml");
    (lit "sql", lit "sql");
    (lit "sh", lit "bash");
    (lit "php", lit "php");
    (lit "rb", lit "ruby");
    (lit "go", lit "go");
    (lit "rs", lit "rust") ].

(** The properties every object literal inherits from [Object.prototype]:
    [languageMap[ext]] finds them too. *)
Definition object_prototype_keys : list jsstring :=
  [ lit "constructor"; lit "__proto__"; lit "hasOwnProperty"; lit "isPrototypeOf";
    lit "propertyIsEnumerable"; lit "toLocaleString"; lit "toString"; lit "valueOf";
    lit "__defineGetter__"; lit "__defineSetter__";
    lit "__lookupGetter__"; lit "__lookupSetter__" ].

(** What [getLanguageFromExtension] returns: a string, or a member of
    [Object.prototype], which is an object or a function and not a string. *)
Inductive Looked :=
| Name (language : jsstring)
| Inherited (key : jsstring).

Fixpoint own_property (key : jsstring) (m : list (jsstring * jsstring)) : option jsstring :=
  match m with
  | [] => None
  | (k, v) :: m' => if jsstring_eqb k key then Some v else own_property key m'
  end.

(** [languageMap[ext] || 'text']: every language name is a non-empty
    string, and an inherited member is an object or a function, so the
    default is for the keys that are not found. *)
Definition getLanguageFromExtension (ext : jsstring) : Looked :=
  match own_property ext languageMap with
  | Some language => Name (LessonPanel.str_or language (lit "text"))
  | None =>
      if existsb (jsstring_eqb ext) object_prototype_keys then Inherited ext
      else Name (lit "text")
  end.

End Language.

(** ** CommitTimeline *)

Module CommitTimeline.

(** [String.prototype.includes] *)
Fixpoint includes (s sub : jsstring) : bool :=
  match strip_prefix sub s with
  | Some _ => true
  | None =>
      match s with
      | [] => false
      | _ :: s' => includes s' sub
      end
  end.

Definition COLOR_FIX : jsstring := lit "bg-red-100 text-red-800 border-red-200".
Definition COLOR_ADD : jsstring := lit "bg-green-100 text-green-800 border-green-200".
Definition COLOR_UPDATE : jsstring := lit "bg-blue-100 text-blue-800 border-blue-200".
Definition COLOR_INITIAL : jsstring := lit "bg-purple-100 text-purple-800 border-purple-200".
Definition COLOR_OTHER : jsstring := lit "bg-slate-100 text-slate-800 border-slate-200".

Definition getCommitTypeColor `{Engine} (message : jsstring) : jsstring :=
  let lowerMessage := String_toLowerCase message in
  if includes lowerMessage (lit "fix") || includes lowerMessage (lit "bug") then COLOR_FIX
  else if includes lowerMessage (lit "add") || includes lowerMessage (lit "implement")
  then COLOR_ADD
  else if includes lowerMessage (lit "update") || includes lowerMessage (lit "improve")
  then COLOR_UPDATE
  else if includes lowerMessage (lit "initial") || includes lowerMessage (lit "first")
  then COLOR_INITIAL
  else COLOR_OTHER.

(** [selectedCommit?.id === commit.id]: the entries drawn as selected. *)
Definition highlighted (commits : list Commit.t) (selectedCommit : option Commit.t)
    : list Commit.t :=
  match selectedCommit with
  | None => []
  | Some sel => filter (fun c => jsstring_eqb (Commit.id sel) (Commit.id c)) commits
  end.

(** [commit.sha.substring(0, 8)], the hash shown under an entry. *)
Definition shown_sha (commit : Commit.t) : jsstring := substring 0 8 (Commit.sha commit).

End CommitTimeline.

(** ** LessonPanel: the lesson text as blocks *)

Module Pattern.

(** The pattern language of [formatContent]: classes and alternatives
    besides what [Regex] has, run by the same backtracking matcher. *)
Inductive t :=
| Bol                             (* ^ *)
| Lit (s : jsstring)              (* pattern characters, escaped or not *)
| Class (P : code_unit -> bool)   (* a class of one unit *)
| Seq (r1 r2 : t)
| Alt (r1 r2 : t)                 (* r1|r2 *)
| Star (r : t)                    (* r* *)
| Plus (r : t).                   (* r+ *)

Fixpoint run (r : t) : Regex.mstate -> Regex.cont -> option Regex.mstate :=
  match r with
  | Bol => fun st k => if (Regex.pos st =? 0)%nat then k st else None
  | Lit s => fun st k =>
      match strip_prefix s (Regex.rest st) with
      | Some r' => k (Regex.mk (Regex.pos st + length s) r' (Regex.caps st))
      | None => None
      end
  | Class P => Regex.unit_step P
  | Seq r1 r2 => fun st k => run r1 st (fun st' => run r2 st' k)
  | Alt r1 r2 => fun st k =>
      match run r1 st k with
      | Some res => Some res
      | None => run r2 st k
      end
  | Star r => fun st k => Regex.loop (run r) (S (length (Regex.rest st))) st k
  | Plus r => fun st k =>
      run r st (fun st' => Regex.loop (run r) (S (length (Regex.rest st'))) st' k)
  end.

(** The search of [exec] without the [g] and [y] flags: the first index,
    from [i] on, at which the pattern matches, and the state after the
    match. *)
Fixpoint exec_from (r : t) (i : nat) (s : jsstring) : option (nat * Regex.mstate) :=
  match run r (Regex.mk i s []) Some with
  | Some res => Some (i, res)
  | None =>
      match s with
      | [] => None
      | _ :: s' => exec_from r (S i) s'
      end
  end.

Definition exec (r : t) (s : jsstring) : option (nat * Regex.mstate) := exec_from r 0 s.

(** [s.match(r)] as a condition: whether there is a match. *)
Definition test (r : t) (s : jsstring) : bool :=
  match exec r s with Some _ => true | None => false end.

(** [s.match(r)?.[0]]: the text matched, [None] for [undefined]. *)
Definition matched (r : t) (s : jsstring) : option jsstring :=
  match exec r s with
  | Some (start, res) => Some (firstn (Regex.pos res - start) (skipn start s))
  | None => None
  end.

(** [s.replace(r, replacement)], the replacement without a dollar sign. *)
Definition replace (r : t) (replacement : jsstring) (s : jsstring) : jsstring :=
  match exec r s with
  | Some (start, res) => firstn start s ++ replacement ++ Regex.rest res
  | None => s
  end.

End Pattern.

Module LessonContent.

(** The elements [formatContent] returns: [h3] with its class, [li] and
    [p], each with its key and its text. *)
Inductive Block :=
| Heading (key : nat) (className : jsstring) (text : jsstring)
| ListItem (key : nat) (text : jsstring)
| Paragraph (key : nat) (text : jsstring).

Definition HASH : code_unit := 35%N.

(** The classes [\s] and [\d], and the class of a hyphen and a star. *)
Definition is_space (c : code_unit) : bool := is_white_space c || is_line_terminator c.
Definition is_digit (c : code_unit) : bool := ((48 <=? c) && (c <=? 57))%N.
Definition is_bullet (c : code_unit) : bool := ((c =? 45) || (c =? 42))%N.

(** The four patterns of [formatContent]: the run of hashes at the start;
    that run with the white space after it; digits, a dot and one white
    space at the start; and that, or a bullet and one white space at the
    start. *)
Definition heading_run : Pattern.t :=
  Pattern.Seq Pattern.Bol (Pattern.Plus (Pattern.Lit (lit "#"))).

Definition heading_mark : Pattern.t :=
  Pattern.Seq Pattern.Bol
    (Pattern.Seq (Pattern.Plus (Pattern.Lit (lit "#")))
                 (Pattern.Star (Pattern.Class is_space))).

Definition numbered_item : Pattern.t :=
  Pattern.Seq Pattern.Bol
    (Pattern.Seq (Pattern.Plus (Pattern.Class is_digit))
       (Pattern.Seq (Pattern.Lit (lit ".")) (Pattern.Class is_space))).

Definition item_mark : Pattern.t :=
  Pattern.Alt numbered_item
    (Pattern.Seq Pattern.Bol
       (Pattern.Seq (Pattern.Class is_bullet) (Pattern.Class is_space))).

Definition CLASS_H1 : jsstring := lit "text-lg font-bold text-slate-900 mt-4 mb-2".
Definition CLASS_H2 : jsstring := lit "text-base font-semibold text-slate-800 mt-3 mb-2".
Definition CLASS_H3 : jsstring := lit "text-sm font-medium text-slate-700 mt-2 mb-1".

(** The callback of [content.split('\n').map]: [None] is [null]. *)
Definition formatParagraph (paragraph : jsstring) (index : nat) : option Block :=
  match trim paragraph with
  | [] => None
  | _ :: _ =>
      if startsWith paragraph (lit "#") then
        let level := match Pattern.matched heading_run paragraph with
                     | Some hashes => match length hashes with O => 1%nat | n => n end
                     | None => 1%nat
                     end in
        let text := Pattern.replace heading_mark [] paragraph in
        let className := if (level =? 1)%nat then CLASS_H1
                         else if (level =? 2)%nat then CLASS_H2
                         else CLASS_H3 in
        Some (Heading index className text)
      else if startsWith paragraph (lit "```") then None
      else if Pattern.test numbered_item paragraph
              || startsWith paragraph (lit "- ") || startsWith paragraph (lit "* ")
      then Some (ListItem index (Pattern.replace item_mark [] paragraph))
      else Some (Paragraph index paragraph)
  end.

(** [.filter(Boolean)] *)
Definition present {A} (l : list (option A)) : list A :=
  flat_map (fun o => match o with Some x => [x] | None => [] end) l.

Definition formatContent (content : jsstring) : list Block :=
  present (CodeViewer.map_indexed formatParagraph (split LF content) 0).

Definition key_of (b : Block) : nat :=
  match b with
  | Heading key _ _ | ListItem key _ | Paragraph key _ => key
  end.

(** The same block under another key. *)
Definition with_key (f : nat -> nat) (b : Block) : Block :=
  match b with
  | Heading key className text => Heading (f key) className text
  | ListItem key text => ListItem (f key) text
  | Paragraph key text => Paragraph (f key) text
  end.

End LessonContent.

(** ** More of the demonstration: an ordering, an engine, nobody signed in *)

Module Scenario.

(** Insertion sort on [commit_order], rows of equal order kept in the order
    given. *)
Fixpoint insert_row (c : CommitRow.t) (l : list CommitRow.t) : list CommitRow.t :=
  match l with
  | [] => [c]
  | x :: l' =>
      if CommitRow.commit_order c <=? CommitRow.commit_order x then c :: l
      else x :: insert_row c l'
  end.

Definition sort_rows (l : list CommitRow.t) : list CommitRow.t :=
  fold_right insert_row [] l.

Definition ordering : Ordering := {| commits_order_asc := sort_rows |}.

Definition engine : Engine := {| String_toLowerCase := toLowerCase |}.

(** The demonstration environment with nobody signed in. *)
Definition env_signed_out : Env :=
  {| random_values := fun k => (Z.of_nat (k mod 10) # 10)%Q;
     now_values := fun k => 1700000000000 + Z.min (Z.of_nat k) 1000000;
     toString36 := fun _ => lit "0.4fzyo82mvyr";
     toISOString := fun t => lit "T" ++ dec t;
     typeError_message := lit "TypeError";
     rangeError_message := lit "RangeError";
     gateway_rejects := fun _ => None;
     auth_me_id := Throw (Error (lit "Not authenticated"));
     lessons_default_order := fun rows => rows;
     commit_files_default_order := fun rows => rows;
     listed_keys := fun _ => camelCase;
     ai_generateText := fun _ => Ok (lit "A lesson.") |}.

End Scenario.

(* ================================================================== *)
(** * Part II: properties                                              *)
(* ================================================================== *)

Module JSFacts.

Lemma strip_prefix_app p s : strip_prefix p (p ++ s) = Some s.
Proof.
  induction p as [|a p IH]; simpl; [reflexivity|].
  now rewrite N.eqb_refl.
Qed.

Lemma strip_prefix_Some p : forall s r, strip_prefix p s = Some r -> s = p ++ r.
Proof.
  induction p as [|a p IH]; intros s r H; simpl in *.
  - now inversion H.
  - destruct s as [|b s]; [discriminate|].
    destruct (N.eqb_spec a b) as [->|]; [|discriminate].
    now rewrite (IH _ _ H).
Qed.

Lemma startsWith_true line p : startsWith line p = true <-> exists rest, line = p ++ rest.
Proof.
  unfold startsWith. split.
  - destruct (strip_prefix p line) as [r|] eqn:E; [|discriminate].
    intros _. exists r. now apply strip_prefix_Some.
  - intros [rest ->]. now rewrite strip_prefix_app.
Qed.

Lemma startsWith_false line p : startsWith line p = false <-> ~ exists rest, line = p ++ rest.
Proof.
  rewrite <- startsWith_true. destruct (startsWith line p); split; congruence.
Qed.

End JSFacts.

(** ** The regular expressions *)

Module RegexFacts.
Import Regex JSFacts.

Lemma span_app P s : fst (span P s) ++ snd (span P s) = s.
Proof.
  induction s as [|c s IH]; simpl; [reflexivity|].
  destruct (P c); [|reflexivity].
  destruct (span P s) as [a b]. simpl in *. now rewrite IH.
Qed.

Lemma skip_empty P st : fst (span P (rest st)) = [] -> skip P st = st.
Proof.
  intros E. unfold skip. pose proof (span_app P (rest st)) as Ha.
  rewrite E in *. simpl in Ha. rewrite Ha, Nat.add_0_r. now destruct st.
Qed.

(** Greedy repetition of a class before such a continuation takes the
    longest run: no shorter one lets the continuation succeed. *)
Lemma loop_class P k : stops_at P k ->
  forall fuel st, (length (rest st) < fuel)%nat ->
    loop (unit_step P) fuel st k = k (skip P st).
Proof.
  intros Hk. induction fuel as [|fuel IH]; intros st Hf; [lia|].
  cbn [loop]. unfold unit_step at 1.
  destruct (rest st) as [|c r] eqn:Er.
  - rewrite skip_empty; [reflexivity|]. now rewrite Er.
  - destruct (P c) eqn:Pc.
    + cbn [rest length]. rewrite (proj2 (Nat.ltb_lt _ _)) by lia.
      rewrite IH by (cbn [rest]; simpl in Hf; lia).
      assert (Es : skip P (mk (S (pos st)) r (caps st)) = skip P st).
      { unfold skip. cbn [rest pos caps]. rewrite Er. simpl. rewrite Pc.
        destruct (span P r) as [a b]. simpl. f_equal. lia. }
      rewrite Es. destruct (k (skip P st)) eqn:Ek; [reflexivity|].
      exact (Hk st c r Er Pc).
    + rewrite skip_empty; [reflexivity|]. rewrite Er. simpl. now rewrite Pc.
Qed.

Lemma star_class P k st : stops_at P k ->
  loop (unit_step P) (S (length (rest st))) st k = k (skip P st).
Proof. intros Hk. apply loop_class; [exact Hk|lia]. Qed.

Lemma plus_class P k st : stops_at P k ->
  unit_step P st (fun st' => loop (unit_step P) (S (length (rest st'))) st' k)
  = match fst (span P (rest st)) with
    | [] => None
    | _ :: _ => k (skip P st)
    end.
Proof.
  intros Hk. unfold unit_step at 1. destruct (rest st) as [|c r] eqn:Er; [reflexivity|].
  cbn [span]. destruct (P c) eqn:Pc; [|reflexivity].
  rewrite star_class by exact Hk.
  assert (Es : skip P (mk (S (pos st)) r (caps st)) = skip P st).
  { unfold skip. cbn [rest pos caps]. rewrite Er. simpl. rewrite Pc.
    destruct (span P r) as [a b]. simpl. f_equal. lia. }
  rewrite Es. now destruct (span P r).
Qed.

(** An expression that begins with [^] matches at index 0 or nowhere. *)
Lemma exec_from_Bol r s : forall i,
  exec_from (Seq Bol r) (S i) s = None.
Proof.
  induction s as [|c s IH]; intros i; simpl; [reflexivity|apply IH].
Qed.

Lemma exec_Bol r s :
  exec (Seq Bol r) s
  = match run r (mk 0 s []) Some with
    | Some res => Some (0%nat, res)
    | None => None
    end.
Proof.
  unfold exec. destruct s as [|c s]; simpl.
  - now destruct (run r (mk 0 [] []) Some).
  - destruct (run r (mk 0 (c :: s) []) Some); [reflexivity|apply exec_from_Bol].
Qed.

End RegexFacts.

Module UrlParserFacts.
Import UrlParser JSFacts RegexFacts.

Example parse_react :
  parseGitHubUrl (lit "https://github.com/facebook/react")
  = Ok {| owner := lit "facebook"; repo := lit "react" |}.
Proof. reflexivity. Qed.

Example parse_dot_git :
  parseGitHubUrl (lit "https://github.com/acme/widgets.git/tree/main")
  = Ok {| owner := lit "acme"; repo := lit "widgets" |}.
Proof. reflexivity. Qed.

Example parse_http :
  parseGitHubUrl (lit "http://github.com/a/b")
  = Ok {| owner := lit "a"; repo := lit "b" |}.
Proof. reflexivity. Qed.

Example parse_bad :
  parseGitHubUrl (lit "https://gitlab.com/a/b") = Throw (Error invalid_url_message).
Proof. reflexivity. Qed.

Lemma span_not_slash_app o rest :
  no_slash o -> (rest = [] \/ exists p, rest = SLASH :: p) ->
  span_not_slash (o ++ rest) = (o, rest).
Proof.
  unfold no_slash. induction o as [|c o IH]; intros Ho Hrest; simpl.
  - destruct Hrest as [->|[p ->]]; reflexivity.
  - destruct (N.eqb_spec c SLASH) as [->|_].
    + exfalso. apply Ho. now left.
    + rewrite IH; [reflexivity| |assumption].
      intro Hin. apply Ho. now right.
Qed.

Lemma span_not_slash_inv s : forall run rest,
  span_not_slash s = (run, rest) ->
  s = run ++ rest /\ no_slash run /\ (rest = [] \/ exists p, rest = SLASH :: p).
Proof.
  unfold no_slash. induction s as [|c s IH]; intros run rest H; simpl in H.
  - inversion H; subst. repeat split; auto.
  - destruct (N.eqb_spec c SLASH) as [->|Hc].
    + inversion H; subst. repeat split; eauto.
    + destruct (span_not_slash s) as [run' rest'] eqn:E.
      inversion H; subst. destruct (IH _ _ eq_refl) as (-> & Hns & Hr).
      repeat split; auto.
      intros [Heq|Hin]; [now apply Hc|now apply Hns].
Qed.

Lemma after_scheme_accepts o r tail :
  o <> [] -> r <> [] -> no_slash o -> no_slash r -> accepted_tail tail ->
  after_scheme (lit "://github.com/" ++ o ++ [SLASH] ++ r ++ tail) = Some (o, r).
Proof.
  intros Ho Hr Hso Hsr Ht. unfold after_scheme.
  rewrite strip_prefix_app.
  rewrite span_not_slash_app; [|assumption|right; eexists; reflexivity].
  destruct o as [|c o]; [congruence|].
  change ([SLASH] ++ r ++ tail) with (SLASH :: r ++ tail). cbv iota beta.
  rewrite span_not_slash_app; [|assumption|].
  - destruct r as [|d r]; [congruence|].
    destruct Ht as [->|(p & -> & Hp)]; [reflexivity|].
    now rewrite Hp.
  - destruct Ht as [->|(p & -> & _)]; eauto.
Qed.

Lemma after_scheme_inv r1 g1 g2 :
  after_scheme r1 = Some (g1, g2) ->
  exists tail,
    g1 <> [] /\ g2 <> [] /\ no_slash g1 /\ no_slash g2 /\ accepted_tail tail /\
    r1 = lit "://github.com/" ++ g1 ++ [SLASH] ++ g2 ++ tail.
Proof.
  unfold after_scheme. intros H.
  destruct (strip_prefix (lit "://github.com/") r1) as [r2|] eqn:E2; [|discriminate].
  apply strip_prefix_Some in E2. subst r1.
  destruct (span_not_slash r2) as [a b] eqn:Ea.
  apply span_not_slash_inv in Ea. destruct Ea as (-> & Hna & Hb).
  destruct a as [|c a]; [discriminate|].
  destruct b as [|x r3]; [discriminate|].
  assert (x = SLASH) as -> by (destruct Hb as [Hb|[p Hb]]; congruence).
  destruct (span_not_slash r3) as [a2 b2] eqn:Eb.
  apply span_not_slash_inv in Eb. destruct Eb as (-> & Hnb & Hb2).
  destruct a2 as [|d a2]; [discriminate|].
  destruct b2 as [|y tail].
  - inversion H; subst. exists []. repeat split; try assumption; try discriminate.
    now left.
  - assert (y = SLASH) as -> by (destruct Hb2 as [Hb2|[p Hb2]]; congruence).
    destruct (dot_star_to_end tail) eqn:Hd; [|discriminate].
    inversion H; subst. exists (SLASH :: tail).
    repeat split; try assumption; try discriminate.
    right. eauto.
Qed.

(** *** The expressions compute what the scan computes *)

Local Abbreviation not_slash_unit := (fun x : code_unit => negb (x =? SLASH)%N).
Local Abbreviation dot_unit := (fun x : code_unit => negb (is_line_terminator x)).

Lemma span_not_slash_span s : span_not_slash s = Regex.span not_slash_unit s.
Proof.
  induction s as [|c s IH]; simpl; [reflexivity|].
  rewrite IH. now destruct (c =? SLASH)%N.
Qed.

Lemma span_dot_all s :
  snd (Regex.span dot_unit s) = [] <-> dot_star_to_end s = true.
Proof.
  unfold dot_star_to_end. induction s as [|c s IH]; simpl; [tauto|].
  destruct (is_line_terminator c); simpl.
  - split; discriminate.
  - destruct (Regex.span dot_unit s) as [a b]. exact IH.
Qed.

Lemma option_map_None {A B} (f : A -> B) x : option_map f x = None -> x = None.
Proof. now destruct x. Qed.

Lemma strip_slash c s :
  strip_prefix (lit "/") (c :: s) = if (c =? SLASH)%N then Some s else None.
Proof.
  change (lit "/") with [SLASH]. simpl. rewrite N.eqb_sym. now destruct (c =? SLASH)%N.
Qed.

Lemma tail_run st :
  option_map Regex.caps (Regex.run tail_regex st Some)
  = match Regex.rest st with
    | [] => Some (Regex.caps st)
    | c :: tail =>
        if (c =? SLASH)%N && dot_star_to_end tail then Some (Regex.caps st) else None
    end.
Proof.
  unfold tail_regex. cbn [Regex.run].
  destruct (Regex.rest st) as [|c tail] eqn:Er; [reflexivity|].
  rewrite strip_slash. destruct (c =? SLASH)%N; [|reflexivity].
  rewrite star_class.
  - unfold Regex.skip. cbn [Regex.rest Regex.caps Regex.pos].
    destruct (dot_star_to_end tail) eqn:Ed.
    + apply span_dot_all in Ed. rewrite Ed. reflexivity.
    + destruct (snd (Regex.span dot_unit tail)) eqn:Es; [|reflexivity].
      apply span_dot_all in Es. congruence.
  - intros st' c' r' Er' _. now rewrite Er'.
Qed.

Lemma firstn_span P (st : Regex.mstate) :
  firstn (Regex.pos (Regex.skip P st) - Regex.pos st) (Regex.rest st)
  = fst (Regex.span P (Regex.rest st)).
Proof.
  unfold Regex.skip. cbn [Regex.pos].
  replace (Regex.pos st + length (fst (Regex.span P (Regex.rest st))) - Regex.pos st)%nat
    with (length (fst (Regex.span P (Regex.rest st))) + 0)%nat by lia.
  rewrite <- (span_app P (Regex.rest st)) at 2.
  rewrite firstn_app_2. cbn [firstn]. apply app_nil_r.
Qed.

Lemma span_stops s c r :
  snd (Regex.span not_slash_unit s) = c :: r -> c = SLASH.
Proof.
  induction s as [|x s IH]; simpl; [discriminate|].
  destruct (N.eqb_spec x SLASH) as [->|Hx]; simpl.
  - congruence.
  - destruct (Regex.span not_slash_unit s) as [a b]. exact IH.
Qed.

(** The end of the expression after group 1 and the slash: what the scan
    does with what follows the slash. *)
Lemma group2_run st :
  option_map Regex.caps (Regex.run (Regex.Seq group2_regex tail_regex) st Some)
  = match span_not_slash (Regex.rest st) with
    | ([], _) => None
    | (g2, []) => Some ((2%nat, g2) :: Regex.caps st)
    | (g2, _ :: tail) =>
        if dot_star_to_end tail then Some ((2%nat, g2) :: Regex.caps st) else None
    end.
Proof.
  unfold group2_regex. cbn [Regex.run]. rewrite plus_class.
  - rewrite span_not_slash_span.
    pose proof (firstn_span not_slash_unit st) as Hf.
    pose proof (span_stops (Regex.rest st)) as Hs.
    destruct (Regex.span not_slash_unit (Regex.rest st)) as [g2 after] eqn:Es.
    cbn [fst snd] in *. destruct g2 as [|x g2]; [reflexivity|].
    rewrite tail_run. cbn [Regex.rest Regex.caps]. rewrite Hf.
    unfold Regex.skip. rewrite Es. cbn [snd Regex.rest].
    destruct after as [|c tail]; [reflexivity|].
    rewrite (Hs c tail eq_refl). now rewrite N.eqb_refl.
  - intros st' c r Er Pc. apply (option_map_None Regex.caps).
    rewrite tail_run. cbn [Regex.rest]. rewrite Er.
    destruct (c =? SLASH)%N; [discriminate Pc|reflexivity].
Qed.

(** The expression after the scheme. *)
Lemma path_run st :
  option_map Regex.caps (Regex.run path_regex st Some)
  = match after_scheme (Regex.rest st) with
    | Some (g1, g2) => Some ((2%nat, g2) :: (1%nat, g1) :: Regex.caps st)
    | None => None
    end.
Proof.
  unfold path_regex, after_scheme. cbn [Regex.run].
  destruct (strip_prefix (lit "://github.com/") (Regex.rest st)) as [r2|]; [|reflexivity].
  change (Regex.run (Regex.Group 1 (Regex.Plus (Regex.NotUnit SLASH))) ?s ?k)
    with (Regex.run (Regex.Plus (Regex.NotUnit SLASH)) s
            (fun st' => k (Regex.mk (Regex.pos st') (Regex.rest st')
               ((1%nat, firstn (Regex.pos st' - Regex.pos s) (Regex.rest s)) :: Regex.caps st')))).
  cbn [Regex.run]. rewrite plus_class.
  - rewrite span_not_slash_span. cbn [Regex.rest].
    match goal with |- context [Regex.skip _ ?s0] =>
      pose proof (firstn_span not_slash_unit s0) as Hf;
      pose proof (span_stops (Regex.rest s0)) as Hs end.
    cbn [Regex.rest] in Hf, Hs.
    destruct (Regex.span not_slash_unit r2) as [g1 after] eqn:Es.
    cbn [fst snd] in *. destruct g1 as [|x g1]; [reflexivity|].
    cbn [Regex.rest Regex.pos Regex.caps]. cbn [Regex.pos] in Hf. rewrite Hf.
    unfold Regex.skip. cbn [Regex.rest Regex.pos Regex.caps]. rewrite Es. cbn [snd fst].
    destruct after as [|c r3]; [reflexivity|].
    rewrite strip_slash, (Hs c r3 eq_refl), N.eqb_refl.
    change (Regex.run group2_regex ?s1 (fun st' => Regex.run tail_regex st' Some))
      with (Regex.run (Regex.Seq group2_regex tail_regex) s1 Some).
    rewrite group2_run. cbn [Regex.rest Regex.caps].
    destruct (span_not_slash r3) as [g2 after2]. destruct g2; [reflexivity|].
    destruct after2; [reflexivity|]. now destruct (dot_star_to_end after2).
  - intros st' c r Er Pc. cbn [Regex.rest Regex.pos Regex.caps]. rewrite Er.
    rewrite strip_slash. destruct (c =? SLASH)%N; [discriminate Pc|reflexivity].
Qed.

Lemma exec_githubRegex url :
  match Regex.exec githubRegex url with
  | Some (_, m) => Some (Regex.capture 1 (Regex.caps m), Regex.capture 2 (Regex.caps m))
  | None => None
  end = scan_url url.
Proof.
  unfold githubRegex. rewrite exec_Bol. unfold scan_url.
  change (Regex.run (Regex.Seq (Regex.Lit (lit "http")) ?r) ?s ?k)
    with (match strip_prefix (lit "http") (Regex.rest s) with
          | Some r' => Regex.run r (Regex.mk (Regex.pos s + length (lit "http")) r' (Regex.caps s)) k
          | None => None
          end).
  cbn [Regex.rest Regex.pos Regex.caps].
  destruct (strip_prefix (lit "http") url) as [r0|]; [|reflexivity].
  change (Regex.run (Regex.Seq (Regex.Opt (Regex.Lit (lit "s"))) ?r) ?s ?k)
    with (match (match strip_prefix (lit "s") (Regex.rest s) with
                 | Some r' => Regex.run r (Regex.mk (Regex.pos s + length (lit "s")) r' (Regex.caps s)) k
                 | None => None
                 end) with
          | Some res => Some res
          | None => Regex.run r s k
          end).
  cbn [Regex.rest Regex.pos Regex.caps].
  assert (Hcaps : forall st, Regex.caps st = [] ->
            match Regex.run path_regex st Some with
            | Some m => Some (Regex.capture 1 (Regex.caps m), Regex.capture 2 (Regex.caps m))
            | None => None
            end = after_scheme (Regex.rest st)).
  { intros st Hc. pose proof (path_run st) as Hp. rewrite Hc in Hp.
    destruct (Regex.run path_regex st Some) as [m|]; simpl in Hp.
    - destruct (after_scheme (Regex.rest st)) as [[g1 g2]|]; [|discriminate].
      inversion Hp as [Hm]. now rewrite Hm.
    - now destruct (after_scheme (Regex.rest st)) as [[g1 g2]|]. }
  change (Regex.Seq (Regex.Lit (lit "://github.com/")) ?a) with path_regex.
  destruct (strip_prefix (lit "s") r0) as [r|] eqn:Es.
  - pose proof (Hcaps (Regex.mk (0 + length (lit "http") + length (lit "s")) r []) eq_refl) as H1.
    pose proof (Hcaps (Regex.mk (0 + length (lit "http")) r0 []) eq_refl) as H2.
    cbn [Regex.rest] in H1, H2.
    destruct (Regex.run path_regex (Regex.mk (0 + length (lit "http") + length (lit "s")) r []) Some)
      as [m|]; [exact H1|].
    rewrite <- H1.
    assert (Hn : after_scheme r0 = None)
      by (apply strip_prefix_Some in Es; subst r0; reflexivity).
    rewrite Hn in H2.
    destruct (Regex.run path_regex (Regex.mk (0 + length (lit "http")) r0 []) Some);
      [discriminate H2|reflexivity].
  - pose proof (Hcaps (Regex.mk (0 + length (lit "http")) r0 []) eq_refl) as H2.
    cbn [Regex.rest] in H2.
    destruct (Regex.run path_regex (Regex.mk (0 + length (lit "http")) r0 []) Some);
      exact H2.
Qed.

Lemma run_dotGit i s :
  Regex.run dotGitRegex (Regex.mk i s []) Some
  = match strip_prefix (lit ".git") s with
    | Some [] => Some (Regex.mk (i + length (lit ".git")) [] [])
    | _ => None
    end.
Proof.
  unfold dotGitRegex. cbn [Regex.run Regex.rest Regex.pos Regex.caps].
  destruct (strip_prefix (lit ".git") s) as [[|c r]|]; reflexivity.
Qed.

Lemma exec_from_dotGit s : forall i,
  match Regex.exec_from dotGitRegex i s with
  | Some (j, m) =>
      exists p, s = p ++ lit ".git" /\ j = (i + length p)%nat /\ Regex.rest m = []
  | None => forall p, s <> p ++ lit ".git"
  end.
Proof.
  induction s as [|c s IH]; intros i.
  - cbn [Regex.exec_from]. rewrite run_dotGit. cbn.
    intros p Hp. apply (f_equal (@length _)) in Hp. rewrite length_app in Hp.
    cbn in Hp. lia.
  - cbn [Regex.exec_from]. rewrite run_dotGit.
    destruct (strip_prefix (lit ".git") (c :: s)) as [[|d r]|] eqn:Es.
    + apply strip_prefix_Some in Es. rewrite app_nil_r in Es.
      exists []. rewrite Es. cbn [app length Regex.rest]. repeat split. lia.
    + apply strip_prefix_Some in Es. specialize (IH (S i)).
      destruct (Regex.exec_from dotGitRegex (S i) s) as [[j m]|].
      * destruct IH as (p & -> & -> & Hm). exists (c :: p).
        cbn [app length]. repeat split; [lia|exact Hm].
      * intros [|x p] Hp.
        -- rewrite Hp in Es. apply (f_equal (@length _)) in Es.
           rewrite length_app in Es. cbn in Es. lia.
        -- cbn [app] in Hp. inversion Hp; subst. now apply (IH p).
    + specialize (IH (S i)).
      destruct (Regex.exec_from dotGitRegex (S i) s) as [[j m]|].
      * destruct IH as (p & -> & -> & Hm). exists (c :: p).
        cbn [app length]. repeat split; [lia|exact Hm].
      * intros [|x p] Hp.
        -- cbn [app] in Hp. rewrite Hp in Es.
           rewrite <- (app_nil_r (lit ".git")) in Es at 2.
           rewrite strip_prefix_app in Es. discriminate Es.
        -- cbn [app] in Hp. inversion Hp; subst. now apply (IH p).
Qed.

Lemma strip_dot_git_app p : strip_dot_git (p ++ lit ".git") = p.
Proof.
  unfold strip_dot_git. now rewrite rev_app_distr, strip_prefix_app, rev_involutive.
Qed.

Lemma strip_dot_git_other s : (forall p, s <> p ++ lit ".git") -> strip_dot_git s = s.
Proof.
  intros Hs. unfold strip_dot_git.
  destruct (strip_prefix (rev (lit ".git")) (rev s)) as [r|] eqn:E; [|reflexivity].
  apply strip_prefix_Some in E. exfalso. apply (Hs (rev r)).
  rewrite <- (rev_involutive s), E, rev_app_distr. now rewrite rev_involutive.
Qed.

Lemma replace_dotGit s : Regex.replace dotGitRegex [] s = strip_dot_git s.
Proof.
  unfold Regex.replace, Regex.exec. pose proof (exec_from_dotGit s 0) as He.
  destruct (Regex.exec_from dotGitRegex 0 s) as [[j m]|].
  - destruct He as (p & -> & -> & ->). rewrite strip_dot_git_app.
    cbn [Nat.add app]. rewrite app_nil_r.
    rewrite firstn_app, Nat.sub_diag, firstn_all. cbn [firstn]. apply app_nil_r.
  - symmetry. now apply strip_dot_git_other.
Qed.

(** The parser, in terms of the scan. *)
Lemma parseGitHubUrl_scan url :
  parseGitHubUrl url
  = match scan_url url with
    | Some (g1, g2) => Ok {| owner := g1; repo := strip_dot_git g2 |}
    | None => Throw (Error invalid_url_message)
    end.
Proof.
  unfold parseGitHubUrl. rewrite <- exec_githubRegex.
  destruct (Regex.exec githubRegex url) as [[j m]|]; [|reflexivity].
  now rewrite replace_dotGit.
Qed.

Lemma scan_url_accepts secure o r tail :
  o <> [] -> r <> [] -> no_slash o -> no_slash r -> accepted_tail tail ->
  scan_url (accepted_url secure o r tail) = Some (o, r).
Proof.
  intros Ho Hr Hso Hsr Ht.
  rewrite <- (after_scheme_accepts o r tail Ho Hr Hso Hsr Ht).
  destruct secure; reflexivity.
Qed.

Lemma scan_url_inv url g1 g2 :
  scan_url url = Some (g1, g2) ->
  exists secure tail,
    g1 <> [] /\ g2 <> [] /\ no_slash g1 /\ no_slash g2 /\ accepted_tail tail /\
    url = accepted_url secure g1 g2 tail.
Proof.
  unfold scan_url. intros H.
  destruct (strip_prefix (lit "http") url) as [r0|] eqn:E0; [|discriminate].
  apply strip_prefix_Some in E0. subst url.
  destruct (strip_prefix (lit "s") r0) as [r|] eqn:Es.
  - apply strip_prefix_Some in Es. subst r0.
    destruct (after_scheme_inv _ _ _ H) as (tail & ? & ? & ? & ? & ? & ->).
    exists true, tail. repeat split; assumption.
  - destruct (after_scheme_inv _ _ _ H) as (tail & ? & ? & ? & ? & ? & ->).
    exists false, tail. repeat split; assumption.
Qed.

(** C1, as stated, fails: an [http://] URL is not of the
    [https://github.com/<owner>/<repo>] form, and the parser returns a
    result for it instead of the invalid-URL error. *)
Lemma parseGitHubUrl_accepts_plain_http :
  ~ spec_url_form (lit "http://github.com/a/b") /\
  parseGitHubUrl (lit "http://github.com/a/b")
  = Ok {| owner := lit "a"; repo := lit "b" |}.
Proof.
  split; [|reflexivity].
  intros (o & r & tail & _ & _ & _ & _ & _ & H).
  unfold spec_url in H. discriminate H.
Qed.

(** A further path with a line break in it is rejected, although the URL is
    of the form of the specification. *)
Example parseGitHubUrl_rejects_line_break :
  spec_url_form (lit "https://github.com/a/b/" ++ [LF] ++ lit "c") /\
  parseGitHubUrl (lit "https://github.com/a/b/" ++ [LF] ++ lit "c")
  = Throw (Error invalid_url_message).
Proof.
  split; [|reflexivity].
  exists (lit "a"), (lit "b"), (SLASH :: LF :: lit "c").
  repeat split; try discriminate.
  - intros [Hc|[]]. discriminate Hc.
  - intros [Hc|[]]. discriminate Hc.
  - right. eexists. reflexivity.
Qed.

(** C1 (amended): the parser returns [(owner, repo)] with one trailing
    [.git] removed from the repo exactly for the strings
    [http://github.com/<owner>/<repo>] and [https://github.com/<owner>/<repo>]
    (owner and repo non-empty and free of slashes), optionally followed by a
    slash and any text without a line terminator; every other string fails
    with the invalid-URL error.  Removing the trailing [.git] gives back
    what stands before it, and changes nothing when there is none. *)
Theorem parseGitHubUrl_spec :
  (forall secure o r tail,
      o <> [] -> r <> [] -> no_slash o -> no_slash r -> accepted_tail tail ->
      parseGitHubUrl (accepted_url secure o r tail)
      = Ok {| owner := o; repo := strip_dot_git r |}) /\
  (forall url,
      ~ accepted_form url ->
      parseGitHubUrl url = Throw (Error invalid_url_message)) /\
  (forall p, strip_dot_git (p ++ lit ".git") = p) /\
  (forall r, (forall p, r <> p ++ lit ".git") -> strip_dot_git r = r).
Proof.
  split; [|split; [|split; [exact strip_dot_git_app|exact strip_dot_git_other]]].
  - intros secure o r tail Ho Hr Hso Hsr Ht. rewrite parseGitHubUrl_scan.
    now rewrite scan_url_accepts.
  - intros url Hn. rewrite parseGitHubUrl_scan.
    destruct (scan_url url) as [[g1 g2]|] eqn:E; [|reflexivity].
    exfalso. apply Hn.
    destruct (scan_url_inv _ _ _ E) as (secure & tail & ? & ? & ? & ? & ? & ->).
    exists secure, g1, g2, tail. repeat split; assumption.
Qed.

Lemma parseGitHubUrl_spec_witness :
  no_slash (lit "acme") /\ no_slash (lit "widgets.git") /\
  accepted_tail (lit "/tree/main") /\
  parseGitHubUrl (accepted_url true (lit "acme") (lit "widgets.git") (lit "/tree/main"))
  = Ok {| owner := lit "acme"; repo := lit "widgets" |} /\
  parseGitHubUrl (lit "github.com/acme/widgets") = Throw (Error invalid_url_message).
Proof.
  assert (Ho : no_slash (lit "acme")) by (vm_compute; intuition discriminate).
  assert (Hr : no_slash (lit "widgets.git")) by (vm_compute; intuition discriminate).
  assert (Ht : accepted_tail (lit "/tree/main")) by (right; eexists; split; reflexivity).
  split; [exact Ho|]. split; [exact Hr|]. split; [exact Ht|]. split.
  - apply (proj1 parseGitHubUrl_spec true (lit "acme") (lit "widgets.git") (lit "/tree/main"));
      try assumption; discriminate.
  - apply (proj1 (proj2 parseGitHubUrl_spec)).
    intros (secure & o & r & tail & _ & _ & _ & _ & _ & Hu).
    destruct secure; discriminate Hu.
Defined.

End UrlParserFacts.

(** ** The generators *)

Module EffFacts.

Lemma bind_Ok {St A B} (m : Eff.t St A) (k : A -> Eff.t St B) s a s' :
  m s = (Ok a, s') -> Eff.bind m k s = k a s'.
Proof. unfold Eff.bind. now intros ->. Qed.

Lemma bind_runs {St A B} (m : Eff.t St A) (k : A -> Eff.t St B) s a s1 r s2 :
  m s = (Ok a, s1) -> k a s1 = (r, s2) -> Eff.bind m k s = (r, s2).
Proof. unfold Eff.bind. now intros -> ->. Qed.

Lemma bind_assoc {St A B C} (m : Eff.t St A) (f : A -> Eff.t St B) (g : B -> Eff.t St C) s :
  Eff.bind (Eff.bind m f) g s = Eff.bind m (fun x => Eff.bind (f x) g) s.
Proof. unfold Eff.bind. destruct (m s) as [[a|e] s']; reflexivity. Qed.

(** A loop whose every turn returns, returns: it pushes one element per
    turn, and the element of turn [i0 + k] is at index [k] of what is pushed. *)
Lemma for_push_Ok {St A} (body : nat -> Eff.t St A) (I : St -> Prop) (P : nat -> A -> Prop) hi :
  (forall i s, (i < hi)%nat -> I s ->
     exists a s', body i s = (Ok a, s') /\ P i a /\ I s') ->
  forall n i0 acc s, (i0 + n <= hi)%nat -> I s ->
    exists l s', Eff.for_push n i0 body acc s = (Ok (acc ++ l), s') /\
      length l = n /\
      (forall k a, nth_error l k = Some a -> P (i0 + k)%nat a) /\ I s'.
Proof.
  intros Hbody. induction n as [|n IH]; intros i0 acc s Hhi Hs; simpl.
  - exists [], s. rewrite app_nil_r. repeat split; auto.
    intros k a Hk. destruct k; discriminate.
  - destruct (Hbody i0 s) as (a & s1 & E & Pa & Hs1); [lia|assumption|].
    destruct (IH (S i0) (acc ++ [a]) s1) as (l & s2 & E2 & Hlen & Hl & Hs2); [lia|assumption|].
    exists (a :: l), s2. rewrite (bind_Ok _ _ _ _ _ E), E2, <- app_assoc.
    repeat split; simpl; auto.
    intros k b Hk. destruct k as [|k]; simpl in Hk.
    + inversion Hk; subst. now rewrite Nat.add_0_r.
    + replace (i0 + S k)%nat with (S i0 + k)%nat by lia. now apply Hl.
Qed.

End EffFacts.

Module GeneratorFacts.
Import Generator EffFacts.

Lemma floor_in_range (r : Q) (n : Z) :
  (0 <= r)%Q -> (r < 1)%Q -> 0 < n -> 0 <= Qfloor (r * inject_Z n) < n.
Proof.
  intros H0 H1 Hn.
  assert (Hq : (inject_Z 0 < inject_Z n)%Q) by (rewrite <- Zlt_Qlt; exact Hn).
  split.
  - change 0 with (Qfloor 0). apply Qfloor_resp_le.
    apply Qmult_le_0_compat; [assumption|now apply Qlt_le_weak].
  - rewrite (Zlt_Qlt (Qfloor (r * inject_Z n)) n).
    apply Qle_lt_trans with (r * inject_Z n)%Q; [apply Qfloor_le|].
    rewrite <- (Qmult_1_l (inject_Z n)) at 2.
    now apply Qmult_lt_compat_r.
Qed.

Lemma item_in_range {A} (l : list A) (i : Z) :
  0 <= i < Z.of_nat (length l) -> exists x, item l i = Some x /\ In x l.
Proof.
  intros Hi. unfold item.
  destruct (Z.ltb_spec i 0) as [|_]; [lia|].
  destruct (nth_error l (Z.to_nat i)) as [x|] eqn:E.
  - exists x. split; [reflexivity|]. eapply nth_error_In; eassumption.
  - apply nth_error_None in E. lia.
Qed.

Section WithEnv.
Context `{Env} (HE : EnvOk _).

Lemma floor_random_values n k :
  0 < n -> 0 <= Qfloor (random_values k * inject_Z n) < n.
Proof.
  intros Hn. destruct (random_range HE k) as [H0 H1]. now apply floor_in_range.
Qed.

Lemma floor_random_Ok n s :
  0 < n -> exists v, floor_random n s = (Ok v, next_random s) /\ 0 <= v < n.
Proof.
  intros Hn. eexists. split; [reflexivity|]. now apply floor_random_values.
Qed.

Lemma Date_now_Ok s :
  exists t, Date_now s = (Ok t, next_now s) /\ 0 <= t <= MAX_TIME.
Proof. eexists. split; [reflexivity|]. apply (now_range HE). Qed.

Lemma Math_random_Ok s :
  exists r, Math_random s = (Ok r, next_random s).
Proof. eexists. reflexivity. Qed.

Lemma Date_toISOString_Ok time s :
  - MAX_TIME <= time <= MAX_TIME ->
  Date_toISOString time s = (Ok (toISOString time), s).
Proof.
  intros Ht. unfold Date_toISOString.
  destruct (Z.leb_spec (Z.abs time) MAX_TIME) as [_|Hn]; [reflexivity|lia].
Qed.

Lemma Array_fill_map_join_Ok n line s :
  0 <= n < 2 ^ 32 ->
  Array_fill_map_join n line s = (Ok (join [LF] (repeat line (Z.to_nat n))), s).
Proof.
  intros Hn. unfold Array_fill_map_join.
  destruct (Z.ltb_spec n 0) as [|_]; [lia|].
  destruct (Z.leb_spec (2 ^ 32) n) as [|_]; [lia|]. reflexivity.
Qed.

Ltac step_with L :=
  let v := fresh "v" in let E := fresh "E" in let Hv := fresh "Hv" in
  destruct L as (v & E & Hv); rewrite (bind_Ok _ _ _ _ _ E); clear E;
  cbv beta zeta.

Ltac step_floor :=
  match goal with
  | |- context [Eff.bind (floor_random ?n) _ ?s0] =>
      step_with (floor_random_Ok n s0 ltac:(reflexivity))
  end.

Ltac step_now :=
  match goal with
  | |- context [Eff.bind Date_now _ ?s0] => step_with (Date_now_Ok s0)
  end.

Ltac step_random :=
  match goal with
  | |- context [Eff.bind Math_random ?k ?s0] =>
      rewrite (bind_Ok Math_random k s0 _ _ eq_refl); cbv beta zeta
  end.

Ltac step_ret :=
  match goal with
  | |- context [Eff.bind (Eff.ret ?a) ?k ?s0] =>
      rewrite (bind_Ok (Eff.ret a) k s0 a s0 eq_refl); cbv beta zeta
  end.

Lemma simulateCommit_Ok i s :
  (i < 10)%nat ->
  exists c s', simulateCommit i s = (Ok c, s') /\
    Commit.message c = nth i commitMessages [] /\
    Commit.commitOrder c = Z.of_nat i + 1 /\
    In (Commit.authorName c) authors /\
    1 <= Commit.filesChanged c <= 10 /\
    10 <= Commit.additions c <= 109 /\
    1 <= Commit.deletions c <= 50.
Proof.
  intros Hi. unfold simulateCommit.
  step_floor. destruct (item_in_range authors v Hv) as (au & Eau & Hau).
  step_now. step_now. step_random. rewrite Eau. step_ret.
  erewrite bind_Ok; cycle 1.
  { apply Date_toISOString_Ok. unfold MAX_TIME, DAY_MS in *.
    change (Z.of_nat (length commitMessages)) with 15. lia. }
  cbv beta. step_floor. step_floor. step_floor.
  eexists. eexists. split; [reflexivity|]. cbn [Commit.message Commit.commitOrder
    Commit.authorName Commit.filesChanged Commit.additions Commit.deletions].
  repeat split; try assumption; lia.
Qed.

Lemma simulateCommitData_Ok repoName owner s :
  exists commits s', simulateCommitData repoName owner s = (Ok commits, s') /\
    length commits = 10%nat /\
    forall k c, nth_error commits k = Some c ->
      Commit.message c = nth k commitMessages [] /\
      Commit.commitOrder c = Z.of_nat k + 1 /\
      In (Commit.authorName c) authors /\
      1 <= Commit.filesChanged c <= 10 /\
      10 <= Commit.additions c <= 109 /\
      1 <= Commit.deletions c <= 50.
Proof.
  unfold simulateCommitData.
  destruct (for_push_Ok simulateCommit (fun _ => True)
              (fun i c => Commit.message c = nth i commitMessages [] /\
                 Commit.commitOrder c = Z.of_nat i + 1 /\
                 In (Commit.authorName c) authors /\
                 1 <= Commit.filesChanged c <= 10 /\
                 10 <= Commit.additions c <= 109 /\
                 1 <= Commit.deletions c <= 50) 10%nat) with
    (n := Nat.min (length commitMessages) COMMIT_CAP) (i0 := 0%nat)
    (acc := @nil Commit.t) (s := s) as (l & s' & E & Hlen & Hl & _).
  - intros i s0 Hi _. destruct (simulateCommit_Ok i s0 Hi) as (c & s1 & E & Hc).
    exists c, s1. repeat split; try apply Hc; assumption.
  - cbn. lia.
  - exact I.
  - exists l, s'. split; [exact E|]. split; [exact Hlen|].
    intros k c Hk. exact (Hl k c Hk).
Qed.

Lemma patch_added_Ok file s : exists p s', patch_added file s = (Ok p, s').
Proof.
  unfold patch_added. step_floor. step_floor.
  erewrite bind_Ok; [|apply Array_fill_map_join_Ok; lia].
  eexists. eexists. reflexivity.
Qed.

Lemma patch_deleted_Ok file s : exists p s', patch_deleted file s = (Ok p, s').
Proof.
  unfold patch_deleted. step_floor. step_floor.
  erewrite bind_Ok; [|apply Array_fill_map_join_Ok; lia].
  eexists. eexists. reflexivity.
Qed.

Lemma patch_modified_Ok file s : exists p s', patch_modified file s = (Ok p, s').
Proof.
  unfold patch_modified. do 4 step_floor.
  eexists. eexists. reflexivity.
Qed.

Lemma simulateCommitFile_Ok commitId i s :
  exists f s', simulateCommitFile commitId i s = (Ok f, s') /\
    CommitFile.commitId f = commitId /\
    In (CommitFile.status f) (map Some statuses) /\
    (CommitFile.status f = Some (lit "added") -> CommitFile.deletions f = 0) /\
    (CommitFile.status f = Some (lit "deleted") -> CommitFile.additions f = 0) /\
    0 <= CommitFile.additions f <= 20 /\
    0 <= CommitFile.deletions f <= 10.
Proof.
  unfold simulateCommitFile. do 3 step_floor.
  change (Z.of_nat (length statuses)) with 3 in Hv1.
  assert (Hs : v1 = 0 \/ v1 = 1 \/ v1 = 2) by lia.
  destruct Hs as [-> | [-> | ->]].
  - change (item statuses 0) with (Some (lit "added")).
    change (status_is (Some (lit "added")) (lit "added")) with true.
    change (status_is (Some (lit "added")) (lit "deleted")) with false.
    cbv iota.
    match goal with |- context [Eff.bind (patch_added ?f) _ ?s0] =>
      destruct (patch_added_Ok f s0) as (p & s1 & Ep) end.
    rewrite (bind_Ok _ _ _ _ _ Ep). cbv beta. step_now.
    rewrite bind_assoc. step_floor. step_ret. step_ret.
    eexists. eexists. split; [reflexivity|]. cbn [CommitFile.commitId CommitFile.status
      CommitFile.additions CommitFile.deletions].
    repeat split; try lia; try discriminate. now left.
  - change (item statuses 1) with (Some (lit "modified")).
    change (status_is (Some (lit "modified")) (lit "added")) with false.
    change (status_is (Some (lit "modified")) (lit "deleted")) with false.
    cbv iota.
    match goal with |- context [Eff.bind (patch_modified ?f) _ ?s0] =>
      destruct (patch_modified_Ok f s0) as (p & s1 & Ep) end.
    rewrite (bind_Ok _ _ _ _ _ Ep). cbv beta. step_now.
    rewrite bind_assoc. step_floor. step_ret.
    rewrite bind_assoc. step_floor. step_ret.
    eexists. eexists. split; [reflexivity|]. cbn [CommitFile.commitId CommitFile.status
      CommitFile.additions CommitFile.deletions].
    repeat split; try lia; try discriminate. right. now left.
  - change (item statuses 2) with (Some (lit "deleted")).
    change (status_is (Some (lit "deleted")) (lit "added")) with false.
    change (status_is (Some (lit "deleted")) (lit "deleted")) with true.
    cbv iota.
    match goal with |- context [Eff.bind (patch_deleted ?f) _ ?s0] =>
      destruct (patch_deleted_Ok f s0) as (p & s1 & Ep) end.
    rewrite (bind_Ok _ _ _ _ _ Ep). cbv beta. step_now. step_ret.
    rewrite bind_assoc. step_floor. step_ret.
    eexists. eexists. split; [reflexivity|]. cbn [CommitFile.commitId CommitFile.status
      CommitFile.additions CommitFile.deletions].
    repeat split; try lia; try discriminate. right. right. now left.
Qed.

Lemma simulateCommitFiles_Ok commitId filesChanged s :
  exists files s', simulateCommitFiles commitId filesChanged s = (Ok files, s') /\
    length files = Z.to_nat filesChanged /\
    forall f, In f files ->
      CommitFile.commitId f = commitId /\
      In (CommitFile.status f) (map Some statuses) /\
      (CommitFile.status f = Some (lit "added") -> CommitFile.deletions f = 0) /\
      (CommitFile.status f = Some (lit "deleted") -> CommitFile.additions f = 0) /\
      0 <= CommitFile.additions f <= 20 /\
      0 <= CommitFile.deletions f <= 10.
Proof.
  unfold simulateCommitFiles.
  destruct (for_push_Ok (simulateCommitFile commitId) (fun _ => True)
              (fun _ f => CommitFile.commitId f = commitId /\
                In (CommitFile.status f) (map Some statuses) /\
                (CommitFile.status f = Some (lit "added") -> CommitFile.deletions f = 0) /\
                (CommitFile.status f = Some (lit "deleted") -> CommitFile.additions f = 0) /\
                0 <= CommitFile.additions f <= 20 /\
                0 <= CommitFile.deletions f <= 10) (Z.to_nat filesChanged))
    with (n := Z.to_nat filesChanged) (i0 := 0%nat) (acc := @nil CommitFile.t) (s := s)
    as (l & s' & E & Hlen & Hl & _).
  - intros i s0 _ _. destruct (simulateCommitFile_Ok commitId i s0) as (f & s1 & E & Hf).
    exists f, s1. repeat split; try apply Hf; assumption.
  - lia.
  - exact I.
  - exists l, s'. split; [exact E|]. split; [exact Hlen|].
    intros f Hin. apply In_nth_error in Hin. destruct Hin as [k Hk]. exact (Hl k f Hk).
Qed.

Lemma map_by_index {A B} (f : A -> B) (g : nat -> B) (l : list A) :
  forall i0, (forall k a, nth_error l k = Some a -> f a = g (i0 + k)%nat) ->
    map f l = map g (seq i0 (length l)).
Proof.
  induction l as [|a l IH]; intros i0 Hl; simpl; [reflexivity|].
  f_equal.
  - rewrite (Hl 0%nat a eq_refl). now rewrite Nat.add_0_r.
  - apply IH. intros k b Hk. rewrite (Hl (S k) b Hk). f_equal. lia.
Qed.

(** C5: the commit generator returns at most 10 commits, and their
    [commitOrder] values are 1, 2, ..., N in this order, N the number of
    commits returned: they start at 1, without a gap and without a repeat. *)
Theorem simulateCommitData_order repoName owner s :
  exists commits s', simulateCommitData repoName owner s = (Ok commits, s') /\
    (length commits <= 10)%nat /\
    map Commit.commitOrder commits = map Z.of_nat (seq 1 (length commits)) /\
    NoDup (map Commit.commitOrder commits).
Proof.
  destruct (simulateCommitData_Ok repoName owner s) as (commits & s' & E & Hlen & Hc).
  exists commits, s'. split; [exact E|]. split; [lia|].
  assert (Ho : map Commit.commitOrder commits = map Z.of_nat (seq 1 (length commits))).
  { apply map_by_index. intros k c Hk.
    destruct (Hc k c Hk) as (_ & Ho & _). rewrite Ho. lia. }
  split; [exact Ho|]. rewrite Ho.
  apply NoDup_map_NoDup_ForallPairs; [|apply seq_NoDup].
  intros a b _ _ Hab. lia.
Qed.

(** C3 (amended): the messages of the commits returned are the first 10
    messages of the pool of 15, in pool order; the last five pool entries
    are the ones left out. *)
Theorem simulateCommitData_messages repoName owner s :
  exists commits s', simulateCommitData repoName owner s = (Ok commits, s') /\
    map Commit.message commits = firstn 10 commitMessages /\
    commitMessages = map Commit.message commits ++ skipn 10 commitMessages /\
    length (skipn 10 commitMessages) = 5%nat.
Proof.
  destruct (simulateCommitData_Ok repoName owner s) as (commits & s' & E & Hlen & Hc).
  exists commits, s'. split; [exact E|].
  assert (Hm : map Commit.message commits = firstn 10 commitMessages).
  { rewrite (map_by_index Commit.message (fun k => nth k commitMessages []) commits 0).
    - rewrite Hlen. reflexivity.
    - intros k c Hk. now destruct (Hc k c Hk) as (Hmsg & _). }
  split; [exact Hm|]. split; [|reflexivity].
  rewrite Hm. symmetry. apply firstn_skipn.
Qed.

(** C10: every commit the generator returns has [filesChanged] in 1..10,
    [additions] in 10..109 and [deletions] in 1..50; so the file generator,
    called on a generated commit, never returns the empty list. *)
Theorem simulateCommitData_bounds repoName owner s :
  exists commits s', simulateCommitData repoName owner s = (Ok commits, s') /\
    Forall (fun c =>
      1 <= Commit.filesChanged c <= 10 /\
      10 <= Commit.additions c <= 109 /\
      1 <= Commit.deletions c <= 50 /\
      forall s1, exists files s2,
        simulateCommitFiles (Commit.id c) (Commit.filesChanged c) s1 = (Ok files, s2) /\
        files <> []) commits.
Proof.
  destruct (simulateCommitData_Ok repoName owner s) as (commits & s' & E & Hlen & Hc).
  exists commits, s'. split; [exact E|].
  apply Forall_forall. intros c Hin. apply In_nth_error in Hin. destruct Hin as [k Hk].
  destruct (Hc k c Hk) as (_ & _ & _ & Hf & Ha & Hd).
  repeat split; try lia.
  intros s1.
  destruct (simulateCommitFiles_Ok (Commit.id c) (Commit.filesChanged c) s1)
    as (files & s2 & Ef & Hl & _).
  exists files, s2. split; [exact Ef|].
  intros ->. simpl in Hl. lia.
Qed.

(** C6: the file generator always returns, never throws; the list it
    returns has [filesChanged] elements, and is empty for zero files (and
    for a negative number, which the loop treats as zero). *)
Theorem simulateCommitFiles_length commitId filesChanged s :
  exists files s', simulateCommitFiles commitId filesChanged s = (Ok files, s') /\
    (0 <= filesChanged -> Z.of_nat (length files) = filesChanged) /\
    (filesChanged <= 0 -> files = []).
Proof.
  destruct (simulateCommitFiles_Ok commitId filesChanged s) as (files & s' & E & Hl & _).
  exists files, s'. split; [exact E|]. split.
  - intros Hn. rewrite Hl. lia.
  - intros Hn. destruct files; [reflexivity|]. simpl in Hl. lia.
Qed.

(** C7: in every file record the file generator returns, status [added]
    comes with zero deletions, status [deleted] with zero additions, and
    both counts are non-negative. *)
Theorem simulateCommitFiles_status_counts commitId filesChanged s :
  exists files s', simulateCommitFiles commitId filesChanged s = (Ok files, s') /\
    Forall (fun f =>
      (CommitFile.status f = Some (lit "added") -> CommitFile.deletions f = 0) /\
      (CommitFile.status f = Some (lit "deleted") -> CommitFile.additions f = 0) /\
      0 <= CommitFile.additions f /\ 0 <= CommitFile.deletions f) files.
Proof.
  destruct (simulateCommitFiles_Ok commitId filesChanged s) as (files & s' & E & _ & Hf).
  exists files, s'. split; [exact E|].
  apply Forall_forall. intros f Hin.
  destruct (Hf f Hin) as (_ & _ & Hadd & Hdel & Ha & Hd).
  repeat split; try assumption; lia.
Qed.

End WithEnv.

Lemma demo_env_ok : EnvOk Demo.env.
Proof.
  split; intros k.
  - pose proof (Nat.mod_upper_bound k 10 ltac:(discriminate)) as Hk.
    change (random_values k) with (Z.of_nat (k mod 10) # 10)%Q.
    unfold Qle, Qlt. cbn [Qnum Qden]. lia.
  - change (now_values k) with (1700000000000 + Z.min (Z.of_nat k) 1000000).
    unfold MAX_TIME. lia.
Qed.

Lemma demo_env_rejecting_ok k : EnvOk (Demo.env_rejecting k).
Proof.
  split; intros j.
  - pose proof (Nat.mod_upper_bound j 10 ltac:(discriminate)) as Hj.
    change (random_values j) with (Z.of_nat (j mod 10) # 10)%Q.
    unfold Qle, Qlt. cbn [Qnum Qden]. lia.
  - change (now_values j) with (1700000000000 + Z.min (Z.of_nat j) 1000000).
    unfold MAX_TIME. lia.
Qed.

Lemma simulateCommitData_order_witness :
  EnvOk Demo.env /\
  exists commits s',
    @simulateCommitData Demo.env (lit "widgets") (lit "acme") Demo.src0 = (Ok commits, s') /\
    (length commits <= 10)%nat /\
    map Commit.commitOrder commits = map Z.of_nat (seq 1 (length commits)) /\
    NoDup (map Commit.commitOrder commits).
Proof.
  split; [exact demo_env_ok|].
  exact (simulateCommitData_order demo_env_ok (lit "widgets") (lit "acme") Demo.src0).
Defined.

Lemma simulateCommitData_messages_witness :
  EnvOk Demo.env /\
  exists commits s',
    @simulateCommitData Demo.env (lit "widgets") (lit "acme") Demo.src0 = (Ok commits, s') /\
    map Commit.message commits = firstn 10 commitMessages /\
    commitMessages = map Commit.message commits ++ skipn 10 commitMessages /\
    length (skipn 10 commitMessages) = 5%nat.
Proof.
  split; [exact demo_env_ok|].
  exact (simulateCommitData_messages demo_env_ok (lit "widgets") (lit "acme") Demo.src0).
Defined.

(** C3, as stated, fails: the messages produced are not the last 10 of the
    pool; the first one produced is the first of the pool, which is not
    among the last 10. *)
Lemma simulateCommitData_not_last_messages :
  exists commits s',
    @simulateCommitData Demo.env (lit "widgets") (lit "acme") Demo.src0 = (Ok commits, s') /\
    map Commit.message commits <> skipn (length commitMessages - 10) commitMessages /\
    hd_error (map Commit.message commits) = Some (lit "Initial commit") /\
    ~ In (lit "Initial commit") (skipn (length commitMessages - 10) commitMessages).
Proof.
  eexists. eexists. split; [vm_compute; reflexivity|].
  split; [vm_compute; discriminate|]. split; [reflexivity|].
  vm_compute. intuition discriminate.
Qed.

Lemma simulateCommitData_bounds_witness :
  EnvOk Demo.env /\
  exists commits s',
    @simulateCommitData Demo.env (lit "widgets") (lit "acme") Demo.src0 = (Ok commits, s') /\
    Forall (fun c =>
      1 <= Commit.filesChanged c <= 10 /\
      10 <= Commit.additions c <= 109 /\
      1 <= Commit.deletions c <= 50 /\
      forall s1, exists files s2,
        @simulateCommitFiles Demo.env (Commit.id c) (Commit.filesChanged c) s1 = (Ok files, s2) /\
        files <> []) commits.
Proof.
  split; [exact demo_env_ok|].
  exact (simulateCommitData_bounds demo_env_ok (lit "widgets") (lit "acme") Demo.src0).
Defined.

Lemma simulateCommitFiles_length_witness :
  EnvOk Demo.env /\
  exists files s',
    @simulateCommitFiles Demo.env (lit "commit_1_0") 3 Demo.src0 = (Ok files, s') /\
    (0 <= 3 -> Z.of_nat (length files) = 3) /\
    (3 <= 0 -> files = []).
Proof.
  split; [exact demo_env_ok|].
  exact (simulateCommitFiles_length demo_env_ok (lit "commit_1_0") 3 Demo.src0).
Defined.

Lemma simulateCommitFiles_status_counts_witness :
  EnvOk Demo.env /\
  exists files s',
    @simulateCommitFiles Demo.env (lit "commit_1_0") 3 Demo.src0 = (Ok files, s') /\
    Forall (fun f =>
      (CommitFile.status f = Some (lit "added") -> CommitFile.deletions f = 0) /\
      (CommitFile.status f = Some (lit "deleted") -> CommitFile.additions f = 0) /\
      0 <= CommitFile.additions f /\ 0 <= CommitFile.deletions f) files.
Proof.
  split; [exact demo_env_ok|].
  exact (simulateCommitFiles_status_counts demo_env_ok (lit "commit_1_0") 3 Demo.src0).
Defined.

(** The three statuses and both zero counts occur: a run of the file
    generator on the demonstration environment. *)
Example simulateCommitFiles_demo :
  option_map (map (fun f => (CommitFile.status f, CommitFile.additions f, CommitFile.deletions f)))
    (match @simulateCommitFiles Demo.env (lit "c") 3 Demo.src0 with
     | (Ok files, _) => Some files
     | (Throw _, _) => None
     end)
  = Some [ (Some (lit "added"), 11, 0);
           (Some (lit "deleted"), 0, 2);
           (Some (lit "modified"), 19, 1) ].
Proof. vm_compute. reflexivity. Qed.

End GeneratorFacts.

(** ** The diff line classifier *)

Module CodeViewerFacts.
Import CodeViewer JSFacts.

Lemma map_indexed_originalLine lines : forall i,
  map originalLine (map_indexed formatLine lines i) = lines.
Proof.
  induction lines as [|l lines IH]; intros i; simpl; [reflexivity|].
  rewrite IH. f_equal. unfold formatLine.
  now destruct (if _ : bool then _ else _).
Qed.

Lemma map_indexed_id lines : forall i,
  map id (map_indexed formatLine lines i) = seq i (length lines).
Proof.
  induction lines as [|l lines IH]; intros i; simpl; [reflexivity|].
  rewrite IH. f_equal. unfold formatLine.
  now destruct (if _ : bool then _ else _).
Qed.

Lemma map_indexed_Forall {A B} (f : A -> nat -> B) (P : B -> Prop) l :
  (forall x i, P (f x i)) -> forall i, Forall P (map_indexed f l i).
Proof.
  intros Hf. induction l as [|x l IH]; intros i; simpl; constructor; auto.
Qed.

Lemma formatLine_className line i k :
  line_has_kind line k -> className (formatLine line i) = class_of k.
Proof.
  unfold formatLine, line_has_kind, is_file_header, begins_with.
  destruct (startsWith line (lit "+++")) eqn:E1;
  destruct (startsWith line (lit "---")) eqn:E2;
  destruct (startsWith line (lit "@@")) eqn:E3;
  destruct (startsWith line (lit "+")) eqn:E4;
  destruct (startsWith line (lit "-")) eqn:E5;
  destruct (startsWith line (lit " ")) eqn:E6;
  rewrite ?startsWith_true, ?startsWith_false in *;
  destruct k; cbv iota; intros Hk; try reflexivity; exfalso; tauto.
Qed.

Lemma line_has_some_kind line : exists k, line_has_kind line k.
Proof.
  destruct (startsWith line (lit "+++")) eqn:E1;
  destruct (startsWith line (lit "---")) eqn:E2;
  destruct (startsWith line (lit "@@")) eqn:E3;
  destruct (startsWith line (lit "+")) eqn:E4;
  destruct (startsWith line (lit "-")) eqn:E5;
  rewrite ?startsWith_true, ?startsWith_false in *;
  first
    [ exists FileHeader; unfold line_has_kind, is_file_header, begins_with; tauto
    | exists HunkHeader; unfold line_has_kind, is_file_header, begins_with; tauto
    | exists Addition; unfold line_has_kind, is_file_header, begins_with; tauto
    | exists Deletion; unfold line_has_kind, is_file_header, begins_with; tauto
    | exists Context; unfold line_has_kind, is_file_header, begins_with; tauto ].
Qed.

(** C4: [formatPatch] keeps the lines of the patch in their order, one
    output per line, and the class of each output depends on its line
    alone: file header for [+++] or [---], else hunk header for [@@], else
    addition for [+], else deletion for [-], else context.  The five kinds
    have five distinct classes, and the sample lines come out as header,
    hunk, addition, deletion, context. *)
Theorem formatPatch_classifies :
  formatPatch [] = [] /\
  (forall c rest,
     let patch := c :: rest in
     map originalLine (formatPatch patch) = split LF patch /\
     map id (formatPatch patch) = seq 0 (length (split LF patch)) /\
     Forall (fun out =>
       (exists k, line_has_kind (originalLine out) k) /\
       (forall k, line_has_kind (originalLine out) k -> className out = class_of k))
       (formatPatch patch)) /\
  (forall k k', class_of k = class_of k' -> k = k') /\
  map className (formatPatch sample_patch)
  = map class_of [FileHeader; HunkHeader; Addition; Deletion; Context].
Proof.
  split; [reflexivity|]. split; [|split].
  - intros c rest patch. unfold formatPatch, patch.
    split; [apply map_indexed_originalLine|].
    split; [apply map_indexed_id|].
    apply map_indexed_Forall. intros line i.
    assert (Ho : originalLine (formatLine line i) = line)
      by (unfold formatLine; now destruct (if _ : bool then _ else _)).
    rewrite Ho. split; [apply line_has_some_kind|].
    intros k. apply formatLine_className.
  - intros k k'. destruct k, k'; intros Hk; try reflexivity; discriminate Hk.
  - reflexivity.
Qed.

End CodeViewerFacts.

(** ** The intake flow *)

Module FlowFacts.
Import Trace RepositoryAnalyzer Generator GeneratorFacts EffFacts UrlParser.

Lemma replay_app ws1 ws2 st : replay (ws1 ++ ws2) st = replay ws2 (replay ws1 st).
Proof. apply fold_left_app. Qed.

Lemma after_writes_nil {V} (s : State V) : after_writes [] (src s) (view s) s = s.
Proof.
  destruct s as [g n st l v]. unfold after_writes; cbn.
  now rewrite Nat.add_0_r, app_nil_r.
Qed.

Lemma after_writes_compose {V} ws1 ws2 g1 g2 (v1 v2 : V) s :
  after_writes ws2 g2 v2 (after_writes ws1 g1 v1 s) = after_writes (ws1 ++ ws2) g2 v2 s.
Proof.
  unfold after_writes; cbn [gateway_calls store log].
  now rewrite length_app, Nat.add_assoc, replay_app, app_assoc.
Qed.

Lemma src_after_writes {V} ws g (v : V) s : src (after_writes ws g v s) = g.
Proof. reflexivity. Qed.

Lemma view_after_writes {V} ws g (v : V) s : view (after_writes ws g v s) = v.
Proof. reflexivity. Qed.

Lemma gateway_calls_after_writes {V} ws g (v : V) s :
  gateway_calls (after_writes ws g v s) = (gateway_calls s + length ws)%nat.
Proof. reflexivity. Qed.

Lemma store_after_writes {V} ws g (v : V) s :
  store (after_writes ws g v s) = replay ws (store s).
Proof. reflexivity. Qed.

Lemma after_writes_after_nil {V} ws g1 g2 (v1 v2 : V) s :
  after_writes ws g2 v2 (after_writes [] g1 v1 s) = after_writes ws g2 v2 s.
Proof. now rewrite after_writes_compose. Qed.

Lemma after_nil_after_writes {V} ws g1 g2 (v1 v2 : V) s :
  after_writes [] g2 v2 (after_writes ws g1 v1 s) = after_writes ws g2 v2 s.
Proof. now rewrite after_writes_compose, app_nil_r. Qed.

Create Rewrite HintDb flow.
#[local] Hint Rewrite @after_writes_after_nil @after_nil_after_writes
  @after_writes_compose @src_after_writes @view_after_writes
  @gateway_calls_after_writes : flow.

Lemma set_view_run {V} (f : V -> V) s :
  set_view f s = (Ok tt, after_writes [] (src s) (f (view s)) s).
Proof.
  destruct s as [g n st l v]. unfold set_view, Eff.modify, after_writes; cbn.
  now rewrite Nat.add_0_r, app_nil_r.
Qed.

Lemma liftG_Ok {V A} (m : G A) (s : State V) a g :
  m (src s) = (Ok a, g) -> liftG m s = (Ok a, after_writes [] g (view s) s).
Proof.
  intros E. destruct s as [g0 n st l v]. unfold liftG, after_writes; cbn in *.
  now rewrite E, Nat.add_0_r, app_nil_r.
Qed.

Section WithEnv.
Context `{Env} (HE : EnvOk _).

Lemma gateway_write_Ok {V} w (s : State V) :
  gateway_rejects (gateway_calls s) = None ->
  gateway_write w s = (Ok tt, after_writes [w] (src s) (view s) s).
Proof.
  intros E. unfold gateway_write, after_writes. rewrite E. cbn.
  now rewrite Nat.add_1_r.
Qed.

Lemma persist_files_Ok (files : list CommitFile.t) : forall (s : State View) i,
  (forall j, (gateway_calls s <= j)%nat -> gateway_rejects j = None) ->
  Eff.for_each files i
    (fun _ file => gateway_write (CreateCommitFile (commit_file_row file))) s
  = (Ok tt, after_writes (map (fun f => CreateCommitFile (commit_file_row f)) files)
                         (src s) (view s) s).
Proof.
  induction files as [|f files IH]; intros s i Hres; simpl.
  - unfold Eff.ret. now rewrite after_writes_nil.
  - rewrite (bind_Ok _ _ _ _ _ (gateway_write_Ok _ s (Hres _ (Nat.le_refl _)))).
    rewrite IH.
    + now rewrite after_writes_compose.
    + intros j Hj. apply Hres. cbn in Hj. lia.
Qed.

Lemma with_progress_same v : with_progress (progress v) v = v.
Proof. now destruct v. Qed.

Lemma persist_commit_Ok repositoryId total i commit (s : State View) :
  (forall j, (gateway_calls s <= j)%nat -> gateway_rejects j = None) ->
  exists files g p,
    simulateCommitFiles (Commit.id commit) (Commit.filesChanged commit) (src s) = (Ok files, g) /\
    persist_commit repositoryId total i commit s
    = (Ok tt, after_writes (commit_writes repositoryId (commit, files)) g
                           (with_progress p (view s)) s) /\
    length files = Z.to_nat (Commit.filesChanged commit) /\
    (forall f, In f files -> CommitFile.commitId f = Commit.id commit).
Proof.
  intros Hres. unfold persist_commit.
  rewrite (bind_Ok _ _ _ _ _ (gateway_write_Ok _ s (Hres _ (Nat.le_refl _)))).
  destruct (simulateCommitFiles_Ok HE (Commit.id commit) (Commit.filesChanged commit) (src s))
    as (files & g & E & Hlen & Hf).
  exists files, g. eexists. split; [exact E|].
  erewrite bind_Ok; [|apply liftG_Ok; exact E].
  erewrite bind_Ok; [|apply persist_files_Ok; intros j Hj; apply Hres; cbn in Hj; lia].
  unfold setProgress. rewrite set_view_run. autorewrite with flow.
  cbn [app]. rewrite app_nil_r.
  split; [|split; [exact Hlen|intros f Hin; now destruct (Hf f Hin)]].
  reflexivity.
Qed.

Lemma persist_loop_Ok repositoryId total commits : forall (s : State View) i,
  (forall j, (gateway_calls s <= j)%nat -> gateway_rejects j = None) ->
  exists filess g p,
    generate_files commits (src s) = (Ok filess, g) /\
    Eff.for_each commits i (persist_commit repositoryId total) s
    = (Ok tt, after_writes (flat_map (commit_writes repositoryId) (combine commits filess)) g
                           (with_progress p (view s)) s) /\
    Forall2 files_fit commits filess.
Proof.
  induction commits as [|c commits IH]; intros s i Hres.
  - exists [], (src s), (progress (view s)). split; [reflexivity|]. split; [|constructor].
    simpl. unfold Eff.ret. now rewrite with_progress_same, after_writes_nil.
  - destruct (persist_commit_Ok repositoryId total i c s Hres)
      as (files & g1 & p1 & Ef & E1 & Hfit).
    destruct (IH (after_writes (commit_writes repositoryId (c, files)) g1
                               (with_progress p1 (view s)) s) (S i))
      as (filess & g2 & p2 & Eg & E2 & Hfits).
    { intros j Hj. apply Hres. rewrite gateway_calls_after_writes in Hj. lia. }
    rewrite src_after_writes in Eg.
    exists (files :: filess), g2, p2. split; [|split; [|constructor; assumption]].
    + cbn [generate_files].
      eapply bind_runs; [exact Ef|cbv beta].
      eapply bind_runs; [exact Eg|reflexivity].
    + simpl Eff.for_each. rewrite (bind_Ok _ _ _ _ _ E1), E2.
      autorewrite with flow. reflexivity.
Qed.

Lemma set_view_on (f : View -> View) ws g v (s : State View) :
  set_view f (after_writes ws g v s) = (Ok tt, after_writes ws g (f v) s).
Proof. reflexivity. Qed.

Lemma liftG_on {A} (m : G A) ws g v (s : State View) a g' :
  m g = (Ok a, g') ->
  liftG m (after_writes ws g v s) = (Ok a, after_writes ws g' v s).
Proof. intros E. unfold liftG. cbn [src after_writes]. now rewrite E. Qed.

Lemma gateway_write_on w ws g v (s : State View) :
  gateway_rejects (gateway_calls s + length ws) = None ->
  gateway_write w (after_writes ws g v s) = (Ok tt, after_writes (ws ++ [w]) g v s).
Proof.
  intros E. rewrite gateway_write_Ok by exact E.
  now rewrite after_writes_compose.
Qed.

Lemma persist_loop_on repositoryId total commits ws g v (s : State View) :
  (forall j, (gateway_calls s <= j)%nat -> gateway_rejects j = None) ->
  exists filess g' p,
    generate_files commits g = (Ok filess, g') /\
    Eff.for_each commits 0 (persist_commit repositoryId total) (after_writes ws g v s)
    = (Ok tt, after_writes (ws ++ flat_map (commit_writes repositoryId) (combine commits filess))
                           g' (with_progress p v) s) /\
    Forall2 files_fit commits filess.
Proof.
  intros Hres.
  destruct (persist_loop_Ok repositoryId total commits (after_writes ws g v s) 0)
    as (filess & g' & p & Eg & E & Hfit).
  { intros j Hj. apply Hres. rewrite gateway_calls_after_writes in Hj. lia. }
  exists filess, g', p. split; [exact Eg|]. split; [|exact Hfit].
  rewrite E. now rewrite after_writes_compose.
Qed.

Ltac run_set := eapply bind_runs; [apply set_view_on|cbv beta].

Lemma analyze_Ok url (s : State View) p uid :
  parseGitHubUrl (trim url) = Ok p ->
  auth_me_id = Ok uid ->
  (forall j, (gateway_calls s <= j)%nat -> gateway_rejects j = None) ->
  let repositoryId := lit "repo_" ++ dec (now_values (now_calls (src s))) ++ lit "_"
                      ++ substr 2 9 (toString36 (random_values (random_calls (src s)))) in
  exists commits g1 filess g2,
    let total := Z.of_nat (length commits) in
    simulateCommitData (repo p) (owner p) (next_random (next_now (src s))) = (Ok commits, g1) /\
    generate_files commits g1 = (Ok filess, g2) /\
    analyze url s
    = (Ok tt,
       after_writes
         (intake_writes (new_repository_row repositoryId uid p (trim url)) commits filess) g2
         (mkView true 100 (lit "Analysis complete!") []
            (toasts (view s) ++ [complete_toast p total])
            (analyzed (view s) ++ [final_repository repositoryId p (trim url) total])) s) /\
    Forall2 files_fit commits filess /\
    length commits = 10%nat /\
    Forall (fun c => 1 <= Commit.filesChanged c <= 10) commits.
Proof.
  intros Hp Hu Hres repositoryId.
  assert (Et : Date_now (src s) = (Ok (now_values (now_calls (src s))), next_now (src s)))
    by reflexivity.
  assert (Er : Math_random (next_now (src s))
               = (Ok (random_values (random_calls (src s))), next_random (next_now (src s))))
    by reflexivity.
  destruct (simulateCommitData_Ok HE (repo p) (owner p) (next_random (next_now (src s))))
    as (commits & g1 & Ec & Hlen & Hc).
  destruct (persist_loop_on repositoryId (length commits) commits
              ([] ++ [CreateRepository (new_repository_row repositoryId uid p (trim url))])
              g1
              (with_progress 60
                 (mkView true 40 (lit "Processing commits and generating diffs...") []
                    (toasts (view s)) (analyzed (view s))))
              s Hres)
    as (filess & g2 & p2 & Eg & El & Hfit).
  exists commits, g1, filess, g2. cbv zeta.
  split; [exact Ec|]. split; [exact Eg|].
  split; [|split; [exact Hfit|split; [exact Hlen|]]].
  - rewrite <- (after_writes_nil s) at 1.
    unfold analyze, setAnalyzing, setError, setProgress, setCurrentStep,
      onRepositoryAnalyzed, toast.
    do 4 run_set.
    eapply bind_runs; [rewrite Hp; reflexivity|cbv beta].
    do 2 run_set.
    eapply bind_runs; [apply liftG_on; exact Et|cbv beta].
    eapply bind_runs; [apply liftG_on; exact Er|cbv beta zeta].
    eapply bind_runs; [unfold auth_me; rewrite Hu; reflexivity|cbv beta].
    eapply bind_runs; [apply gateway_write_on; apply Hres; lia|cbv beta].
    do 2 run_set.
    eapply bind_runs; [apply liftG_on; exact Ec|cbv beta].
    do 2 run_set.
    eapply bind_runs; [exact El|cbv beta].
    do 2 run_set.
    eapply bind_runs; [apply gateway_write_on; apply Hres; lia|cbv beta].
    do 3 run_set.
    rewrite set_view_on. unfold intake_writes.
    rewrite <- app_assoc. reflexivity.
  - apply Forall_forall. intros c Hin. apply In_nth_error in Hin. destruct Hin as [k Hk].
    now destruct (Hc k c Hk) as (_ & _ & _ & Hf & _).
Qed.

Lemma replay_files files st :
  replay (map (fun f => CreateCommitFile (commit_file_row f)) files) st
  = Store.mk (Store.repositories st) (Store.commits st)
             (Store.commit_files st ++ map commit_file_row files) (Store.lessons st).
Proof.
  revert st. induction files as [|f files IH]; intros st; simpl.
  - rewrite app_nil_r. now destruct st.
  - unfold replay in IH. rewrite IH. simpl. now rewrite <- app_assoc.
Qed.

Lemma replay_commits repositoryId commits : forall filess st,
  length filess = length commits ->
  replay (flat_map (commit_writes repositoryId) (combine commits filess)) st
  = Store.mk (Store.repositories st)
             (Store.commits st ++ map (commit_row repositoryId) commits)
             (Store.commit_files st ++ map commit_file_row (concat filess))
             (Store.lessons st).
Proof.
  induction commits as [|c commits IH]; intros filess st Hlen;
    destruct filess as [|files filess]; try discriminate.
  - simpl. rewrite !app_nil_r. now destruct st.
  - cbn [combine flat_map]. rewrite replay_app.
    change (replay (commit_writes repositoryId (c, files)) st)
      with (replay (map (fun f => CreateCommitFile (commit_file_row f)) files)
                   (apply_write (CreateCommit (commit_row repositoryId c)) st)).
    rewrite replay_files, IH by (simpl in Hlen; lia).
    simpl. rewrite map_app, <- !app_assoc. reflexivity.
Qed.

Lemma jsstring_eqb_refl a : jsstring_eqb a a = true.
Proof. unfold jsstring_eqb. now destruct (list_eq_dec N.eq_dec a a). Qed.

(** A complete run of the intake, with where its commits and files come
    from and the rows it adds. *)
Lemma intake_run url (s : State View) p uid :
  parseGitHubUrl (trim url) = Ok p ->
  auth_me_id = Ok uid ->
  (forall j, (gateway_calls s <= j)%nat -> gateway_rejects j = None) ->
  let repositoryId := lit "repo_" ++ dec (now_values (now_calls (src s))) ++ lit "_"
                      ++ substr 2 9 (toString36 (random_values (random_calls (src s)))) in
  exists commits g1 filess s',
    simulateCommitData (repo p) (owner p) (next_random (next_now (src s))) = (Ok commits, g1) /\
    generate_files commits g1 = (Ok filess, src s') /\
    analyzeRepository url s = (Ok tt, s') /\
    view s' = mkView false 0 [] []
                (toasts (view s) ++ [complete_toast p 10])
                (analyzed (view s) ++ [final_repository repositoryId p (trim url) 10]) /\
    (gateway_calls s <= gateway_calls s')%nat /\
    Store.commits (store s')
    = Store.commits (store s) ++ map (commit_row repositoryId) commits /\
    Store.commit_files (store s')
    = Store.commit_files (store s) ++ map commit_file_row (concat filess) /\
    Forall2 files_fit commits filess.
Proof.
  intros Hp Hu Hres repositoryId.
  destruct (analyze_Ok url s p uid Hp Hu Hres)
    as (commits & g1 & filess & g2 & Ec & Eg & E & Hfit & Hlen & _).
  fold repositoryId in E. cbv zeta in E. rewrite Hlen in E.
  assert (Hl : length filess = length commits)
    by (symmetry; eapply Forall2_length; eassumption).
  exists commits, g1, filess,
    (after_writes
       (intake_writes (new_repository_row repositoryId uid p (trim url)) commits filess) g2
       (mkView false 0 [] []
          (toasts (view s) ++ [complete_toast p 10])
          (analyzed (view s) ++ [final_repository repositoryId p (trim url) 10])) s).
  split; [exact Ec|]. split; [exact Eg|]. split.
  { unfold analyzeRepository. destruct (trim url) as [|c u] eqn:Eu.
    - discriminate Hp.
    - unfold Eff.try_catch_finally. rewrite E. reflexivity. }
  split; [reflexivity|]. split; [rewrite gateway_calls_after_writes; lia|].
  rewrite store_after_writes. unfold intake_writes.
  rewrite !replay_app. cbn [RepositoryRow.id new_repository_row].
  rewrite replay_commits by exact Hl.
  cbn [replay fold_left apply_write Store.repositories Store.commits Store.commit_files
       Store.lessons].
  repeat split; try assumption.
Qed.

Lemma filter_rows_of (P : CommitRow.t -> bool) : forall old added,
  (forall row, In row old -> P row = false) ->
  (forall row, In row added -> P row = true) ->
  filter P (old ++ added) = added.
Proof.
  intros old added Hold Hadded. rewrite filter_app.
  replace (filter P old) with (@nil CommitRow.t).
  - cbn [app]. induction added as [|x l IH]; [reflexivity|].
    cbn [filter]. rewrite (Hadded x (or_introl eq_refl)). f_equal.
    apply IH. intros row Hrow. apply Hadded. now right.
  - symmetry. induction old as [|x l IH]; [reflexivity|].
    cbn [filter]. rewrite (Hold x (or_introl eq_refl)).
    apply IH. intros row Hrow. apply Hold. now right.
Qed.

(** C8: when the URL parses, the user is known and every gateway call
    resolves, the intake flow returns, having handed over the completed
    repository and announced it.  Its commits are those that
    [simulateCommitData] gives after the clock and the random source were
    read for the id of the repository, and the files of each commit are
    those that [simulateCommitFiles] gives for it, in turn.  The writes are,
    in this order: the repository row, in status [analyzing] with no commit
    counted; then for each generated commit a row with its fields and the
    id of the repository, followed by a row with its fields for each of its
    files; and last the update of the repository.  The repository row ends
    in status [completed], with [total_commits] the number of commit rows
    the flow added, which are the commit rows of this repository when no
    row carried its id before. *)
Theorem analyzeRepository_completes url (s : State View) p uid :
  parseGitHubUrl (trim url) = Ok p ->
  auth_me_id = Ok uid ->
  (forall j, (gateway_calls s <= j)%nat -> gateway_rejects j = None) ->
  let repositoryId := lit "repo_" ++ dec (now_values (now_calls (src s))) ++ lit "_"
                      ++ substr 2 9 (toString36 (random_values (random_calls (src s)))) in
  let repository total status :=
    {| RepositoryRow.id := repositoryId;
       RepositoryRow.user_id := uid;
       RepositoryRow.name := repo p;
       RepositoryRow.full_name := owner p ++ lit "/" ++ repo p;
       RepositoryRow.url := trim url;
       RepositoryRow.description := lit "Repository " ++ repo p ++ lit " by " ++ owner p;
       RepositoryRow.default_branch := lit "main";
       RepositoryRow.total_commits := total;
       RepositoryRow.analysis_status := status |} in
  let row_of c :=
    {| CommitRow.id := Commit.id c;
       CommitRow.repository_id := repositoryId;
       CommitRow.sha := Commit.sha c;
       CommitRow.message := Commit.message c;
       CommitRow.author_name := Commit.authorName c;
       CommitRow.author_email := Commit.authorEmail c;
       CommitRow.date := Commit.date c;
       CommitRow.files_changed := Commit.filesChanged c;
       CommitRow.additions := Commit.additions c;
       CommitRow.deletions := Commit.deletions c;
       CommitRow.commit_order := Commit.commitOrder c |} in
  let file_row_of f :=
    {| CommitFileRow.id := CommitFile.id f;
       CommitFileRow.commit_id := CommitFile.commitId f;
       CommitFileRow.filename := CommitFile.filename f;
       CommitFileRow.status := CommitFile.status f;
       CommitFileRow.additions := CommitFile.additions f;
       CommitFileRow.deletions := CommitFile.deletions f;
       CommitFileRow.patch := CommitFile.patch f |} in
  let handed total :=
    {| Repository.id := repositoryId;
       Repository.name := repo p;
       Repository.fullName := owner p ++ lit "/" ++ repo p;
       Repository.url := trim url;
       Repository.description := lit "Repository " ++ repo p ++ lit " by " ++ owner p;
       Repository.defaultBranch := lit "main";
       Repository.totalCommits := total;
       Repository.analysisStatus := lit "completed" |} in
  let announced total :=
    {| toast_title := lit "Analysis Complete";
       toast_description := lit "Successfully analyzed " ++ dec total
                            ++ lit " commits from " ++ repo p;
       toast_variant := None |} in
  exists commits g1 filess s',
    let total := Z.of_nat (length commits) in
    let writes :=
      [CreateRepository (repository 0 (lit "analyzing"))]
      ++ flat_map (fun cf => CreateCommit (row_of (fst cf))
                             :: map (fun f => CreateCommitFile (file_row_of f)) (snd cf))
                  (combine commits filess)
      ++ [UpdateRepository repositoryId total (lit "completed")] in
    simulateCommitData (repo p) (owner p) (next_random (next_now (src s))) = (Ok commits, g1) /\
    generate_files commits g1 = (Ok filess, src s') /\
    analyzeRepository url s = (Ok tt, s') /\
    log s' = log s ++ writes /\
    store s' = replay writes (store s) /\
    gateway_calls s' = (gateway_calls s + length writes)%nat /\
    length filess = length commits /\
    Forall2 (fun c files =>
               Z.of_nat (length files) = Commit.filesChanged c /\
               forall f, In f files -> CommitFile.commitId f = Commit.id c)
            commits filess /\
    Store.repositories (store s')
    = map (patch_repository repositoryId total (lit "completed"))
          (Store.repositories (store s)) ++ [repository total (lit "completed")] /\
    Store.commits (store s') = Store.commits (store s) ++ map row_of commits /\
    Store.commit_files (store s')
    = Store.commit_files (store s) ++ map file_row_of (concat filess) /\
    Store.lessons (store s') = Store.lessons (store s) /\
    ((forall row, In row (Store.commits (store s)) ->
                  CommitRow.repository_id row <> repositoryId) ->
     filter (fun row => jsstring_eqb (CommitRow.repository_id row) repositoryId)
            (Store.commits (store s'))
     = map row_of commits) /\
    view s' = mkView false 0 [] []
                (toasts (view s) ++ [announced total])
                (analyzed (view s) ++ [handed total]).
Proof.
  intros Hp Hu Hres repositoryId repository row_of file_row_of handed announced.
  destruct (analyze_Ok url s p uid Hp Hu Hres)
    as (commits & g1 & filess & g2 & Ec & Eg & E & Hfit & Hlen & Hfc).
  fold repositoryId in E. cbv zeta in E.
  assert (Hl : length filess = length commits)
    by (symmetry; eapply Forall2_length; eassumption).
  exists commits, g1, filess,
    (after_writes
       (intake_writes (new_repository_row repositoryId uid p (trim url)) commits filess) g2
       (mkView false 0 [] []
          (toasts (view s) ++ [complete_toast p (Z.of_nat (length commits))])
          (analyzed (view s)
           ++ [final_repository repositoryId p (trim url) (Z.of_nat (length commits))])) s).
  cbv zeta. split; [exact Ec|]. split; [exact Eg|]. split.
  { unfold analyzeRepository. destruct (trim url) as [|c u] eqn:Eu.
    - discriminate Hp.
    - unfold Eff.try_catch_finally. rewrite E. reflexivity. }
  split; [reflexivity|]. split; [reflexivity|]. split; [reflexivity|].
  split; [exact Hl|]. split.
  { clear E Ec Eg Hl Hlen. induction Hfit as [|c files commits0 filess0 [Hn Hf] _ IH]; constructor.
    - inversion Hfc; subst. split; [lia|exact Hf].
    - apply IH. now inversion Hfc. }
  assert (Hst : store (after_writes
             (intake_writes (new_repository_row repositoryId uid p (trim url)) commits filess) g2
             (mkView false 0 [] []
                (toasts (view s) ++ [complete_toast p (Z.of_nat (length commits))])
                (analyzed (view s)
                 ++ [final_repository repositoryId p (trim url) (Z.of_nat (length commits))])) s)
           = Store.mk
               (map (patch_repository repositoryId (Z.of_nat (length commits)) COMPLETED)
                    (Store.repositories (store s))
                ++ [repository (Z.of_nat (length commits)) COMPLETED])
               (Store.commits (store s) ++ map (commit_row repositoryId) commits)
               (Store.commit_files (store s) ++ map commit_file_row (concat filess))
               (Store.lessons (store s))).
  { rewrite store_after_writes. unfold intake_writes.
    rewrite !replay_app. cbn [RepositoryRow.id new_repository_row].
    rewrite replay_commits by exact Hl.
    cbn [replay fold_left apply_write Store.repositories Store.commits Store.commit_files
         Store.lessons].
    rewrite map_app. cbn [map]. unfold patch_repository at 2.
    cbn [RepositoryRow.id RepositoryRow.user_id RepositoryRow.name RepositoryRow.full_name
         RepositoryRow.url RepositoryRow.description RepositoryRow.default_branch
         new_repository_row].
    rewrite jsstring_eqb_refl. reflexivity. }
  rewrite Hst. cbn [Store.repositories Store.commits Store.commit_files Store.lessons].
  split; [reflexivity|]. split; [reflexivity|]. split; [reflexivity|].
  split; [reflexivity|]. split; [|reflexivity].
  intros Hfresh. apply filter_rows_of.
  - intros row Hrow. unfold jsstring_eqb.
    destruct (list_eq_dec N.eq_dec (CommitRow.repository_id row) repositoryId) as [Heq|];
      [now apply Hfresh in Hrow|reflexivity].
  - intros row Hrow. apply in_map_iff in Hrow. destruct Hrow as (c & <- & _).
    apply jsstring_eqb_refl.
Qed.


(** *** Runs in which the gateway rejects a call *)

Lemma account_nil {V A} (s : State V) (r : Result A) s' :
  log s' = log s -> store s' = store s -> gateway_calls s' = gateway_calls s ->
  account s r s' [].
Proof.
  intros Hl Hs Hc. unfold account. rewrite app_nil_r. cbn [length replay fold_left].
  repeat split; auto.
  - intros j Hj. lia.
  - left. lia.
Qed.

Lemma account_retype {V A B} (s s' : State V) e ws :
  account s (Throw e : Result A) s' ws -> account s (Throw e : Result B) s' ws.
Proof.
  intros (Hl & Hs & Hj & Hc). repeat split; auto.
  destruct Hc as [Hc|(Hc & e' & He & Hr)]; [now left|right].
  split; [exact Hc|]. exists e'. split; [congruence|exact Hr].
Qed.

Lemma account_seq {V A B} (s s1 s2 : State V) (a : A) (r : Result B) ws1 ws2 :
  account s (Ok a) s1 ws1 -> account s1 r s2 ws2 -> account s r s2 (ws1 ++ ws2).
Proof.
  intros (Hl1 & Hs1 & Hj1 & Hc1) (Hl2 & Hs2 & Hj2 & Hc2).
  assert (Hc : gateway_calls s1 = (gateway_calls s + length ws1)%nat).
  { destruct Hc1 as [Hc1|(_ & e & He & _)]; [exact Hc1|discriminate He]. }
  unfold account. rewrite length_app, replay_app, Hl2, Hl1, Hs2, Hs1, app_assoc.
  repeat split; auto.
  - intros j Hj. destruct (Nat.lt_ge_cases j (length ws1)) as [Hlt|Hge].
    + now apply Hj1.
    + replace (gateway_calls s + j)%nat
        with (gateway_calls s1 + (j - length ws1))%nat by lia.
      apply Hj2. lia.
  - destruct Hc2 as [Hc2|(Hc2 & e & He & Hr)]; [left; lia|right].
    split; [lia|]. exists e. split; [exact He|].
    now rewrite Nat.add_assoc, <- Hc.
Qed.

Section Judgements.
Context {V : Type} (Q : Write -> Prop) (R : V -> V -> Prop).
Hypothesis R_refl : forall v, R v v.
Hypothesis R_trans : forall v1 v2 v3, R v1 v2 -> R v2 v3 -> R v1 v3.

Lemma steady_ret {A} (a : A) : steady Q R (Eff.ret a : M V A).
Proof.
  intros s r s' E. inversion E; subst. exists [].
  split; [now apply account_nil|]. split; [constructor|apply R_refl].
Qed.

Lemma steady_of_result {A} (x : Result A) : steady Q R (Eff.of_result x : M V A).
Proof.
  intros s r s' E. inversion E; subst. exists [].
  split; [now apply account_nil|]. split; [constructor|apply R_refl].
Qed.

Lemma steady_liftG {A} (m : G A) : steady Q R (liftG m : M V A).
Proof.
  intros s r s' E. unfold liftG in E. destruct (m (src s)) as [r0 g].
  inversion E; subst. exists [].
  split; [now apply account_nil|]. split; [constructor|apply R_refl].
Qed.

Lemma steady_set_view (f : V -> V) :
  (forall v, R v (f v)) -> steady Q R (set_view f).
Proof.
  intros Hf s r s' E. inversion E; subst. exists [].
  split; [now apply account_nil|]. split; [constructor|apply Hf].
Qed.

Lemma steady_gateway_write w : Q w -> steady Q R (gateway_write w : M V unit).
Proof.
  intros Hw s r s' E. unfold gateway_write in E.
  destruct (gateway_rejects (gateway_calls s)) as [e|] eqn:Er; inversion E; subst.
  - exists []. split; [|split; [constructor|apply R_refl]].
    unfold account. cbn. rewrite app_nil_r, !Nat.add_0_r.
    repeat split; auto; [intros j Hj; lia|].
    right. split; [lia|]. exists e. now split.
  - exists [w]. split; [|split; [now repeat constructor|apply R_refl]].
    unfold account. cbn. repeat split; auto; [|left; lia].
    intros j Hj. replace j with 0%nat by lia. now rewrite Nat.add_0_r.
Qed.

Lemma steady_bind {A B} (m : M V A) (k : A -> M V B) :
  steady Q R m -> (forall a, steady Q R (k a)) -> steady Q R (Eff.bind m k).
Proof.
  intros Hm Hk s r s' E. unfold Eff.bind in E.
  destruct (m s) as [[a|e] s1] eqn:Em.
  - destruct (Hm _ _ _ Em) as (ws1 & Ha1 & Hq1 & Hr1).
    destruct (Hk a _ _ _ E) as (ws2 & Ha2 & Hq2 & Hr2).
    exists (ws1 ++ ws2). split; [eapply account_seq; eassumption|].
    split; [now apply Forall_app|eapply R_trans; eassumption].
  - inversion E; subst. destruct (Hm _ _ _ Em) as (ws1 & Ha1 & Hq1 & Hr1).
    exists ws1. split; [exact (account_retype _ _ _ _ Ha1)|]. now split.
Qed.

Lemma steady_for_each {A} (body : nat -> A -> M V unit) l :
  (forall i x, steady Q R (body i x)) -> forall i, steady Q R (Eff.for_each l i body).
Proof.
  intros Hb. induction l as [|x l IH]; intros i; simpl.
  - apply steady_ret.
  - apply steady_bind; [apply Hb|intros _; apply IH].
Qed.

Lemma tracks_bind {A B} (m : M V A) (k : A -> M V B) :
  steady Q R m -> (forall a, tracks Q R (k a)) -> tracks Q R (Eff.bind m k).
Proof.
  intros Hm Hk s r s' E. unfold Eff.bind in E.
  destruct (m s) as [[a|e] s1] eqn:Em.
  - destruct (Hm _ _ _ Em) as (ws1 & Ha1 & Hq1 & Hr1).
    destruct (Hk a _ _ _ E) as (ws2 & Ha2 & Ht).
    exists (ws1 ++ ws2). split; [eapply account_seq; eassumption|].
    intros Hthrow. destruct (Ht Hthrow) as [Hq2 Hr2].
    split; [now apply Forall_app|eapply R_trans; eassumption].
  - inversion E; subst. destruct (Hm _ _ _ Em) as (ws1 & Ha1 & Hq1 & Hr1).
    exists ws1. split; [exact (account_retype _ _ _ _ Ha1)|]. now split.
Qed.

End Judgements.

Lemma unannounced_refl v : unannounced v v.
Proof. now split. Qed.

Lemma unannounced_trans v1 v2 v3 :
  unannounced v1 v2 -> unannounced v2 v3 -> unannounced v1 v3.
Proof. intros [H1 H2] [H3 H4]. split; congruence. Qed.

Lemma persist_commit_steady repositoryId total i commit :
  steady intake_create unannounced (persist_commit repositoryId total i commit).
Proof.
  unfold persist_commit.
  apply steady_bind; [apply unannounced_trans| |intros _].
  { apply steady_gateway_write; [apply unannounced_refl|exact I]. }
  apply steady_bind; [apply unannounced_trans| |intros files].
  { apply steady_liftG, unannounced_refl. }
  apply steady_bind; [apply unannounced_trans| |intros _].
  { apply steady_for_each; [apply unannounced_refl|apply unannounced_trans|].
    intros _ f. apply steady_gateway_write; [apply unannounced_refl|exact I]. }
  apply steady_set_view. intros v. now split.
Qed.

(** The last part of the [try] block: once the update resolved, nothing
    throws any more. *)
Lemma finish_tracks repositoryId total (f1 f2 f3 f4 : View -> View) :
  tracks intake_create unannounced
    (gateway_write (UpdateRepository repositoryId total COMPLETED) ;;
     set_view f1 ;; set_view f2 ;; set_view f3 ;; set_view f4).
Proof.
  intros s r s' E. unfold Eff.bind, gateway_write in E.
  destruct (gateway_rejects (gateway_calls s)) as [e|] eqn:Er.
  - inversion E; subst. exists []. split.
    + unfold account. cbn. rewrite app_nil_r, !Nat.add_0_r.
      repeat split; auto; [intros j Hj; lia|].
      right. split; [lia|]. exists e. now split.
    + intros _. split; [constructor|apply unannounced_refl].
  - cbn in E. inversion E; subst.
    exists [UpdateRepository repositoryId total COMPLETED]. split.
    + unfold account. cbn. repeat split; auto; [|left; lia].
      intros j Hj. replace j with 0%nat by lia. now rewrite Nat.add_0_r.
    + intros [].
Qed.

Ltac steady_step :=
  apply tracks_bind;
  [ apply unannounced_trans
  | first [ apply steady_set_view; intros v; now split
          | apply steady_of_result, unannounced_refl
          | apply steady_liftG, unannounced_refl ]
  | intro ].

Lemma analyze_tracks url : tracks intake_create unannounced (analyze url).
Proof.
  unfold analyze, setAnalyzing, setError, setProgress, setCurrentStep,
    onRepositoryAnalyzed, toast, auth_me.
  do 10 steady_step.
  apply tracks_bind; [apply unannounced_trans| |intros _].
  { apply steady_gateway_write; [apply unannounced_refl|now split]. }
  do 5 steady_step.
  apply tracks_bind; [apply unannounced_trans| |intros _].
  { apply steady_for_each; [apply unannounced_refl|apply unannounced_trans|].
    intros i c. apply persist_commit_steady. }
  do 2 steady_step.
  apply finish_tracks.
Qed.

Lemma replay_creates ws : forall st,
  Forall intake_create ws ->
  replay ws st
  = Store.mk (Store.repositories st ++ created_repositories ws)
             (Store.commits st ++ created_commits ws)
             (Store.commit_files st ++ created_commit_files ws)
             (Store.lessons st).
Proof.
  induction ws as [|w ws IH]; intros st Hq.
  - cbn. rewrite !app_nil_r. now destruct st.
  - inversion Hq as [|w0 ws0 Hw Hws]; subst.
    change (replay (w :: ws) st) with (replay ws (apply_write w st)).
    rewrite IH by exact Hws.
    destruct w; try contradiction; cbn; now rewrite <- ?app_assoc.
Qed.

Lemma created_repositories_analyzing ws :
  Forall intake_create ws ->
  Forall (fun row => RepositoryRow.analysis_status row = ANALYZING /\
                     RepositoryRow.total_commits row = 0) (created_repositories ws).
Proof.
  induction 1 as [|w ws Hw _ IH]; [constructor|].
  destruct w; try contradiction; cbn; auto.
Qed.

(** C9: if the gateway rejects a call the intake flow issued, that call is
    the last one the flow issues; the writes that resolved before it are all
    in the log and in the store, and nothing else was written: they are
    creates only, no update and nothing undone.  Every repository row the
    flow created is still in status [analyzing] with no commits counted,
    and the commit and file rows written so far stay.  The flow reports the
    failure in the view and hands nothing to [onRepositoryAnalyzed]. *)
Theorem analyzeRepository_aborts url (s : State View) r s' k e :
  analyzeRepository url s = (r, s') ->
  (gateway_calls s <= k < gateway_calls s')%nat ->
  gateway_rejects k = Some e ->
  exists ws,
    gateway_calls s' = S k /\
    length ws = (k - gateway_calls s)%nat /\
    log s' = log s ++ ws /\
    store s' = replay ws (store s) /\
    Forall intake_create ws /\
    Store.repositories (store s') = Store.repositories (store s) ++ created_repositories ws /\
    Forall (fun row => RepositoryRow.analysis_status row = ANALYZING /\
                       RepositoryRow.total_commits row = 0) (created_repositories ws) /\
    Store.commits (store s') = Store.commits (store s) ++ created_commits ws /\
    Store.commit_files (store s')
    = Store.commit_files (store s) ++ created_commit_files ws /\
    r = Ok tt /\
    view s' = mkView false 0 [] (error_message e)
                (toasts (view s) ++ [failed_toast]) (analyzed (view s)).
Proof.
  intros E Hk He. unfold analyzeRepository in E.
  destruct (trim url) as [|c u] eqn:Eu.
  { inversion E; subst. cbn in Hk. lia. }
  unfold Eff.try_catch_finally in E.
  destruct (analyze url s) as [rb s1] eqn:Eb.
  destruct (analyze_tracks url _ _ _ Eb) as (ws & (Hl & Hs & Hj & Hc) & Ht).
  assert (Hs1 : gateway_calls s' = gateway_calls s1 /\ log s' = log s1 /\ store s' = store s1).
  { destruct rb as [[]|e0]; inversion E; subst; now repeat split. }
  destruct Hs1 as (Hc' & Hl' & Hs').
  destruct Hc as [Hc|(Hc & e' & Hr & Hrej)].
  { exfalso.
    assert (Hn : gateway_rejects k = None).
    { replace k with (gateway_calls s + (k - gateway_calls s))%nat by lia.
      apply Hj. lia. }
    congruence. }
  assert (Hlen : length ws = (k - gateway_calls s)%nat).
  { destruct (Nat.lt_ge_cases (k - gateway_calls s) (length ws)) as [Hlt|Hge]; [|lia].
    assert (Hn : gateway_rejects k = None).
    { replace k with (gateway_calls s + (k - gateway_calls s))%nat by lia.
      now apply Hj. }
    congruence. }
  assert (e' = e).
  { replace (gateway_calls s + length ws)%nat with k in Hrej by lia. congruence. }
  subst e' rb.
  destruct (Ht I) as [Hq [Han Hto]].
  exists ws.
  split; [lia|]. split; [exact Hlen|]. split; [congruence|]. split; [congruence|].
  split; [exact Hq|].
  rewrite Hs', Hs, replay_creates by exact Hq.
  cbn [Store.repositories Store.commits Store.commit_files].
  split; [reflexivity|]. split; [now apply created_repositories_analyzing|].
  split; [reflexivity|]. split; [reflexivity|].
  inversion E; subst. split; [reflexivity|].
  cbn [view]. now rewrite Han, Hto.
Qed.

End WithEnv.

(** The end-to-end scenario on the demonstration environment: one
    repository row, completed, counting the 10 commit rows; 65 file rows,
    as many as the commits declare; 77 gateway calls. *)
Example intake_acme_widgets :
  let '(r, s') := @analyzeRepository Demo.env Demo.acme_widgets (Demo.state0 initial_view) in
  r = Ok tt /\
  map (fun row => (RepositoryRow.full_name row, RepositoryRow.analysis_status row,
                   RepositoryRow.total_commits row))
      (Store.repositories (store s'))
  = [(lit "acme/widgets", COMPLETED, 10)] /\
  map CommitRow.commit_order (Store.commits (store s')) = [1; 2; 3; 4; 5; 6; 7; 8; 9; 10] /\
  map CommitRow.files_changed (Store.commits (store s')) = [4; 9; 4; 9; 4; 9; 4; 9; 4; 9] /\
  length (Store.commit_files (store s')) = 65%nat /\
  gateway_calls s' = 77%nat.
Proof. vm_compute. repeat split. Qed.

(** The same intake when the gateway rejects its call number 3: the
    repository row stays in status [analyzing], with one commit row and one
    of its four file rows. *)
Example intake_rejected :
  let '(r, s') := @analyzeRepository (Demo.env_rejecting 3) Demo.acme_widgets
                    (Demo.state0 initial_view) in
  r = Ok tt /\
  map (fun row => (RepositoryRow.full_name row, RepositoryRow.analysis_status row,
                   RepositoryRow.total_commits row))
      (Store.repositories (store s'))
  = [(lit "acme/widgets", ANALYZING, 0)] /\
  map CommitRow.commit_order (Store.commits (store s')) = [1] /\
  map CommitRow.files_changed (Store.commits (store s')) = [4] /\
  length (Store.commit_files (store s')) = 1%nat /\
  gateway_calls s' = 4%nat /\
  error (view s') = lit "Network error".
Proof. vm_compute. repeat split. Qed.

Lemma analyzeRepository_completes_witness :
  EnvOk Demo.env /\
  parseGitHubUrl (trim Demo.acme_widgets) = Ok {| owner := lit "acme"; repo := lit "widgets" |} /\
  @auth_me_id Demo.env = Ok (lit "user_1") /\
  (forall j, (0 <= j)%nat -> @gateway_rejects Demo.env j = None) /\
  exists commits g1 filess s',
    @simulateCommitData Demo.env (lit "widgets") (lit "acme")
      {| random_calls := 1; now_calls := 1 |} = (Ok commits, g1) /\
    @generate_files Demo.env commits g1 = (Ok filess, src s') /\
    @analyzeRepository Demo.env Demo.acme_widgets (Demo.state0 initial_view) = (Ok tt, s') /\
    (exists done,
       Store.repositories (store s') = [done] /\
       RepositoryRow.id done = lit "repo_1700000000000_4fzyo82mv" /\
       RepositoryRow.analysis_status done = lit "completed" /\
       RepositoryRow.total_commits done = Z.of_nat (length (Store.commits (store s')))) /\
    map CommitRow.id (Store.commits (store s')) = map Commit.id commits /\
    map CommitFileRow.id (Store.commit_files (store s')) = map CommitFile.id (concat filess) /\
    exists ws, log s' = ws ++ [UpdateRepository (lit "repo_1700000000000_4fzyo82mv")
                                 (Z.of_nat (length commits)) (lit "completed")].
Proof.
  split; [exact demo_env_ok|]. split; [reflexivity|]. split; [reflexivity|].
  split; [intros j _; reflexivity|].
  pose proof (@analyzeRepository_completes Demo.env demo_env_ok Demo.acme_widgets
                (Demo.state0 initial_view)
                {| owner := lit "acme"; repo := lit "widgets" |} (lit "user_1")
                eq_refl eq_refl (fun j _ => eq_refl)) as Hrun.
  cbv zeta in Hrun.
  destruct Hrun as (commits & g1 & filess & s' & Ec & Eg & E & Hl & _ & _ & _ & _
                    & Hr & Hc & Hf & _).
  change (Store.repositories (store (Demo.state0 initial_view)))
    with (@nil RepositoryRow.t) in Hr.
  change (Store.commits (store (Demo.state0 initial_view))) with (@nil CommitRow.t) in Hc.
  change (Store.commit_files (store (Demo.state0 initial_view)))
    with (@nil CommitFileRow.t) in Hf.
  change (log (Demo.state0 initial_view)) with (@nil Write) in Hl.
  cbn [map app] in Hr, Hc, Hf, Hl.
  exists commits, g1, filess, s'.
  split; [exact Ec|]. split; [exact Eg|]. split; [exact E|].
  split; [|split; [|split]].
  - eexists. split; [exact Hr|]. split; [reflexivity|]. split; [reflexivity|].
    rewrite Hc. cbn [RepositoryRow.total_commits]. now rewrite length_map.
  - rewrite Hc. now rewrite map_map.
  - rewrite Hf. now rewrite map_map.
  - eexists. rewrite Hl. rewrite app_comm_cons. reflexivity.
Defined.

Lemma analyzeRepository_aborts_witness :
  exists r s',
    @analyzeRepository (Demo.env_rejecting 3) Demo.acme_widgets (Demo.state0 initial_view)
    = (r, s') /\
    (0 <= 3 < gateway_calls s')%nat /\
    @gateway_rejects (Demo.env_rejecting 3) 3 = Some (Error (lit "Network error")) /\
    exists ws,
      gateway_calls s' = 4%nat /\
      length ws = 3%nat /\
      log s' = ws /\
      Forall intake_create ws /\
      Store.repositories (store s') = created_repositories ws /\
      Forall (fun row => RepositoryRow.analysis_status row = ANALYZING /\
                         RepositoryRow.total_commits row = 0) (created_repositories ws) /\
      r = Ok tt.
Proof.
  pose (run := @analyzeRepository (Demo.env_rejecting 3) Demo.acme_widgets
                 (Demo.state0 initial_view)).
  assert (Hk : (0 <= 3 < gateway_calls (snd run))%nat) by (vm_compute; lia).
  exists (fst run), (snd run).
  split; [apply surjective_pairing|]. split; [exact Hk|]. split; [reflexivity|].
  destruct (@analyzeRepository_aborts (Demo.env_rejecting 3) Demo.acme_widgets
              (Demo.state0 initial_view) (fst run) (snd run) 3%nat
              (Error (lit "Network error")) (surjective_pairing run) Hk eq_refl)
    as (ws & Hc & Hlen & Hl & _ & Hq & Hr & Ha & _ & _ & Hres & _).
  exists ws. repeat split; assumption.
Defined.

End FlowFacts.

(** ** The lesson panel *)

Module LessonPanelFacts.
Import LessonPanel EffFacts.

(** C2, as stated, fails: with a gateway that lists rows in insertion
    order, after a lesson is generated twice for one commit the store holds
    two lessons of that commit, and [loadLesson] displays the first one, not
    the newest. *)
Lemma loadLesson_displays_older_lesson :
  let s1 := snd (@generateLesson Demo.env Demo.commit0 (Demo.state0 initial_view)) in
  let s2 := snd (@generateLesson Demo.env Demo.commit0 s1) in
  let s3 := snd (@loadLesson Demo.env Demo.commit0 s2) in
  map LessonRow.id (Store.lessons (store s2))
  = [lit "lesson_1700000000000_4fzyo82mv"; lit "lesson_1700000000001_4fzyo82mv"] /\
  option_map LessonRow.id (newest_lesson (Commit.id Demo.commit0) (store s2))
  = Some (lit "lesson_1700000000001_4fzyo82mv") /\
  option_map Lesson.id (lesson (view s3)) = Some (lit "lesson_1700000000000_4fzyo82mv").
Proof. vm_compute. repeat split. Qed.

Section WithEnv.
Context `{Env}.

Lemma newest_lesson_after_create commitId row st :
  LessonRow.commitId row = commitId ->
  newest_lesson commitId
    (Store.mk (Store.repositories st) (Store.commits st) (Store.commit_files st)
              (Store.lessons st ++ [row]))
  = Some row.
Proof.
  intros Hc. unfold newest_lesson. cbn [Store.lessons].
  rewrite filter_app. cbn [filter]. rewrite Hc.
  unfold jsstring_eqb at 2. destruct (list_eq_dec N.eq_dec commitId commitId); [|congruence].
  rewrite map_app. cbn [map]. apply last_last.
Qed.

(** *** Runs in which the gateway resolves every call *)

Lemma gateway_list_resolves {V A} (query : Store.t -> list A) (s : State V) :
  gateway_rejects (gateway_calls s) = None ->
  gateway_list query s
  = (Ok (query (store s)),
     mkState (src s) (S (gateway_calls s)) (store s) (log s) (view s)).
Proof. intros E. unfold gateway_list. now rewrite E. Qed.

Lemma gateway_write_resolves {V} w (s : State V) :
  gateway_rejects (gateway_calls s) = None ->
  gateway_write w s
  = (Ok tt, mkState (src s) (S (gateway_calls s)) (apply_write w (store s))
                    (log s ++ [w]) (view s)).
Proof. intros E. unfold gateway_write. now rewrite E. Qed.

Lemma generate_body_runs commit (s : State View) text :
  gateway_rejects (gateway_calls s) = None ->
  gateway_rejects (S (gateway_calls s)) = None ->
  ai_generateText (lesson_prompt commit (commit_files_of (Commit.id commit) (store s)))
  = Ok text ->
  let row := lesson_row (lesson_id (now_values (now_calls (src s)))
                                   (random_values (random_calls (src s)))) commit text in
  generateLesson commit s
  = (Ok tt,
     mkState (next_random (next_now (src s))) (S (S (gateway_calls s)))
             (apply_write (CreateLesson row) (store s)) (log s ++ [CreateLesson row])
             (mkView (Some (generated_lesson (LessonRow.id row) commit text))
                     (loading (view s)) false (toasts (view s) ++ [generated_toast]))).
Proof.
  intros H0 H1 Hai row. unfold generateLesson, Eff.try_catch_finally.
  match goal with
  | |- (let '(r1, s1) := match ?body with _ => _ end in _) = _ =>
      assert (Eb : body
                   = (Ok tt,
                      mkState (next_random (next_now (src s))) (S (S (gateway_calls s)))
                        (apply_write (CreateLesson row) (store s))
                        (log s ++ [CreateLesson row])
                        (mkView (Some (generated_lesson (LessonRow.id row) commit text))
                           (loading (view s)) true (toasts (view s) ++ [generated_toast]))))
  end.
  { eapply bind_runs; [reflexivity|cbv beta].
    eapply bind_runs; [apply gateway_list_resolves; exact H0|cbv beta].
    eapply bind_runs; [cbn [store]; rewrite Hai; reflexivity|cbv beta].
    eapply bind_runs; [reflexivity|cbv beta].
    eapply bind_runs; [reflexivity|cbv beta zeta].
    eapply bind_runs.
    { unfold create_lesson. eapply bind_runs; [|reflexivity].
      apply gateway_write_resolves. exact H1. }
    cbv beta. eapply bind_runs; [reflexivity|cbv beta]. reflexivity. }
  rewrite Eb. reflexivity.
Qed.

Lemma load_runs commit (s : State View) :
  gateway_rejects (gateway_calls s) = None ->
  loadLesson commit s
  = (Ok tt,
     mkState (src s) (S (gateway_calls s)) (store s) (log s)
             (mkView (option_map lesson_of_row
                        (hd_error (lessons_of_commit (Commit.id commit) (store s))))
                     false (generating (view s)) (toasts (view s)))).
Proof.
  intros H0. unfold loadLesson, Eff.try_catch_finally.
  match goal with
  | |- (let '(r1, s1) := match ?body with _ => _ end in _) = _ =>
      assert (Eb : body
                   = (Ok tt,
                      mkState (src s) (S (gateway_calls s)) (store s) (log s)
                        (mkView (option_map lesson_of_row
                                   (hd_error (lessons_of_commit (Commit.id commit) (store s))))
                           true (generating (view s)) (toasts (view s)))))
  end.
  { eapply bind_runs; [reflexivity|cbv beta].
    eapply bind_runs; [apply gateway_list_resolves; exact H0|cbv beta].
    cbn [store]. destruct (lessons_of_commit (Commit.id commit) (store s)); reflexivity. }
  rewrite Eb. reflexivity.
Qed.

(** C2 (amended): generating a lesson for a commit adds one lesson row
    for that commit and leaves the rows already there as they are, and the
    panel then displays the generated lesson.  [loadLesson] asks the gateway
    for one row of the commit without an ordering and displays the first row
    of the gateway's default order: this is the newest lesson when that
    order puts the newest row first. *)
Theorem regenerate_then_load commit (s : State View) text :
  gateway_rejects (gateway_calls s) = None ->
  gateway_rejects (S (gateway_calls s)) = None ->
  gateway_rejects (S (S (gateway_calls s))) = None ->
  ai_generateText (lesson_prompt commit (commit_files_of (Commit.id commit) (store s)))
  = Ok text ->
  exists row s1 s2,
    generateLesson commit s = (Ok tt, s1) /\
    Store.lessons (store s1) = Store.lessons (store s) ++ [row] /\
    LessonRow.commitId row = Commit.id commit /\
    LessonRow.content row = text /\
    newest_lesson (Commit.id commit) (store s1) = Some row /\
    lesson (view s1) = Some (generated_lesson (LessonRow.id row) commit text) /\
    loadLesson commit s1 = (Ok tt, s2) /\
    store s2 = store s1 /\
    lesson (view s2)
    = option_map lesson_of_row (hd_error (lessons_of_commit (Commit.id commit) (store s1))) /\
    ((forall rows, hd_error (lessons_default_order rows) = last (map Some rows) None) ->
     lesson (view s2) = Some (lesson_of_row row)).
Proof.
  intros H0 H1 H2 Hai.
  pose proof (generate_body_runs commit s text H0 H1 Hai) as Eg. cbv zeta in Eg.
  set (row := lesson_row _ commit text) in Eg.
  set (s1 := mkState _ _ _ _ _) in Eg.
  pose proof (load_runs commit s1 H2) as El.
  set (s2 := mkState _ _ _ _ _) in El.
  exists row, s1, s2.
  assert (Hn : newest_lesson (Commit.id commit) (store s1) = Some row)
    by (now apply newest_lesson_after_create).
  split; [exact Eg|]. split; [reflexivity|]. split; [reflexivity|].
  split; [reflexivity|]. split; [exact Hn|]. split; [reflexivity|].
  split; [exact El|]. split; [reflexivity|]. split; [reflexivity|].
  intros Horder. cbn [view s2 lesson].
  unfold lessons_of_commit. rewrite Horder.
  unfold newest_lesson in Hn. now rewrite Hn.
Qed.

End WithEnv.

Lemma regenerate_then_load_witness :
  @gateway_rejects Demo.env 2 = None /\
  @gateway_rejects Demo.env 3 = None /\
  @gateway_rejects Demo.env 4 = None /\
  exists row s2,
    let s := snd (@generateLesson Demo.env Demo.commit0 (Demo.state0 initial_view)) in
    let s1 := snd (@generateLesson Demo.env Demo.commit0 s) in
    length (Store.lessons (store s)) = 1%nat /\
    Store.lessons (store s1) = Store.lessons (store s) ++ [row] /\
    LessonRow.commitId row = Commit.id Demo.commit0 /\
    @loadLesson Demo.env Demo.commit0 s1 = (Ok tt, s2) /\
    lesson (view s2)
    = option_map (@lesson_of_row Demo.env)
        (hd_error (@lessons_of_commit Demo.env (Commit.id Demo.commit0) (store s1))).
Proof.
  split; [reflexivity|]. split; [reflexivity|]. split; [reflexivity|].
  pose (s := snd (@generateLesson Demo.env Demo.commit0 (Demo.state0 initial_view))).
  destruct (@regenerate_then_load Demo.env Demo.commit0 s (lit "A lesson.")
              eq_refl eq_refl eq_refl eq_refl)
    as (row & s1 & s2 & Eg & Hl & Hc & _ & _ & _ & El & _ & Hv & _).
  exists row, s2. cbv zeta. fold s. rewrite Eg. cbn [snd].
  split; [reflexivity|]. split; [exact Hl|]. split; [exact Hc|].
  split; [exact El|exact Hv].
Defined.

End LessonPanelFacts.

(* ================================================================== *)
(** * Part III: further properties of the code                        *)
(* ================================================================== *)

(** ** Decimal renderings *)

Module DecFacts.

Lemma lit_inj a b : lit a = lit b -> a = b.
Proof.
  unfold lit. intros H.
  rewrite <- (String.string_of_list_ascii_of_string a),
          <- (String.string_of_list_ascii_of_string b).
  f_equal. revert H.
  generalize (String.list_ascii_of_string a) (String.list_ascii_of_string b).
  induction l as [|x l IH]; intros [|y l'] H; try discriminate; [reflexivity|].
  simpl in H. inversion H as [[Hx Hl]]. f_equal; [|now apply IH].
  rewrite <- (ascii_N_embedding x), <- (ascii_N_embedding y). now rewrite Hx.
Qed.

Lemma to_int_proper z : Z.to_int z <> Decimal.Pos Decimal.Nil /\ Z.to_int z <> Decimal.Neg Decimal.Nil.
Proof.
  destruct z as [|p|p]; simpl; split; try discriminate;
    intros [= Hp]; now apply (DecimalPos.Unsigned.to_uint_nonnil p).
Qed.

(** Different integers have different decimal renderings. *)
Lemma dec_inj z z' : dec z = dec z' -> z = z'.
Proof.
  unfold dec. intros H. apply lit_inj in H.
  apply (f_equal NilZero.int_of_string) in H.
  destruct (to_int_proper z) as [H1 H2]. destruct (to_int_proper z') as [H3 H4].
  rewrite !NilZero.isi in H by assumption.
  inversion H as [Hi]. rewrite <- (DecimalZ.of_to z), <- (DecimalZ.of_to z'). now rewrite Hi.
Qed.

Lemma uint_units d c :
  In c (lit (NilEmpty.string_of_uint d)) -> (48 <= c <= 57)%N.
Proof.
  induction d; cbn; intros Hc; try contradiction;
    (destruct Hc as [<-|Hc]; [lia|now apply IHd]).
Qed.

(** A decimal rendering is made of digits and maybe a minus sign. *)
Lemma dec_units z c : In c (dec z) -> c = 45%N \/ (48 <= c <= 57)%N.
Proof.
  unfold dec. destruct (Z.to_int z) as [d|d]; cbn [NilZero.string_of_int].
  - unfold NilZero.string_of_uint. destruct d; intros Hc; right;
      try (now apply (uint_units _ _ Hc)).
    cbn in Hc. destruct Hc as [<-|[]]. lia.
  - intros Hc. cbn in Hc. destruct Hc as [<-|Hc]; [now left|right].
    unfold NilZero.string_of_uint in Hc. destruct d;
      try (now apply (uint_units _ _ Hc)).
    cbn in Hc. destruct Hc as [<-|[]]. lia.
Qed.

Lemma dec_without z c : c <> 45%N -> (c < 48 \/ 57 < c)%N -> ~ In c (dec z).
Proof. intros H1 H2 Hc. destruct (dec_units z c Hc); [congruence|lia]. Qed.

(** Cutting at the first occurrence of a unit. *)
Lemma cut_unique (c : code_unit) a a' b b' :
  ~ In c a -> ~ In c a' -> a ++ c :: b = a' ++ c :: b' -> a = a' /\ b = b'.
Proof.
  revert a'. induction a as [|x a IH]; intros [|y a'] Ha Ha' H; simpl in *.
  - inversion H. now split.
  - inversion H; subst. exfalso. apply Ha'. now left.
  - inversion H; subst. exfalso. apply Ha. now left.
  - inversion H; subst. destruct (IH a') as [-> ->]; auto.
Qed.

End DecFacts.

(** ** The generators: identifiers, dates and patches *)

Module GeneratorShape.
Import Generator EffFacts GeneratorFacts DecFacts.

(** A loop whose turn [i] takes a state of stage [i] to one of stage
    [i + 1]. *)
Lemma for_push_staged {St A} (body : nat -> Eff.t St A)
    (I : nat -> St -> Prop) (P : nat -> A -> Prop) hi :
  (forall i s, (i < hi)%nat -> I i s ->
     exists a s', body i s = (Ok a, s') /\ P i a /\ I (S i) s') ->
  forall n i0 acc s, (i0 + n <= hi)%nat -> I i0 s ->
    exists l s', Eff.for_push n i0 body acc s = (Ok (acc ++ l), s') /\
      length l = n /\
      (forall k a, nth_error l k = Some a -> P (i0 + k)%nat a) /\ I (i0 + n)%nat s'.
Proof.
  intros Hbody. induction n as [|n IH]; intros i0 acc s Hhi Hs; simpl.
  - exists [], s. rewrite app_nil_r, Nat.add_0_r. repeat split; auto.
    intros k a Hk. destruct k; discriminate.
  - destruct (Hbody i0 s) as (a & s1 & E & Pa & Hs1); [lia|assumption|].
    destruct (IH (S i0) (acc ++ [a]) s1) as (l & s2 & E2 & Hlen & Hl & Hs2); [lia|assumption|].
    exists (a :: l), s2. rewrite (bind_Ok _ _ _ _ _ E), E2, <- app_assoc.
    replace (i0 + S n)%nat with (S i0 + n)%nat by lia.
    repeat split; simpl; auto.
    intros k b Hk. destruct k as [|k]; simpl in Hk.
    + inversion Hk; subst. now rewrite Nat.add_0_r.
    + replace (i0 + S k)%nat with (S i0 + k)%nat by lia. now apply Hl.
Qed.

(** Elements told apart by their index have no duplicate. *)
Lemma NoDup_by_index {A B} (f : A -> B) (l : list A) :
  (forall k k' a a', nth_error l k = Some a -> nth_error l k' = Some a' ->
     f a = f a' -> k = k') ->
  NoDup (map f l).
Proof.
  intros Hl. apply NoDup_nth_error. intros i j Hi E.
  rewrite length_map in Hi.
  rewrite !nth_error_map in E.
  destruct (nth_error l i) as [a|] eqn:Ea; [|apply nth_error_None in Ea; lia].
  destruct (nth_error l j) as [a'|] eqn:Ea'; [|discriminate].
  simpl in E. inversion E. eapply Hl; eassumption.
Qed.

Lemma separator_not_in_dec z : ~ In 95%N (dec z).
Proof. apply dec_without; [discriminate|right; reflexivity]. Qed.

Lemma LF_not_in_dec z : ~ In LF (dec z).
Proof. apply dec_without; [discriminate|left; reflexivity]. Qed.

(** An identifier [<prefix><time>_<index>] tells the index. *)
Lemma stamped_id_inj (p : jsstring) t t' (i i' : nat) :
  p ++ dec t ++ lit "_" ++ dec (Z.of_nat i) = p ++ dec t' ++ lit "_" ++ dec (Z.of_nat i') ->
  t = t' /\ i = i'.
Proof.
  intros E. apply app_inv_head in E.
  change (lit "_") with [95%N] in E. cbn [app] in E.
  apply cut_unique in E; try apply separator_not_in_dec.
  destruct E as [Et Ei]. apply dec_inj in Et, Ei. split; [assumption|lia].
Qed.

Section WithEnv.
Context `{Env} (HE : EnvOk _).

Lemma simulateCommit_shape i s :
  (i < 10)%nat ->
  exists c,
    simulateCommit i s
    = (Ok c, {| random_calls := 5 + random_calls s; now_calls := 2 + now_calls s |}) /\
    Commit.id c = lit "commit_" ++ dec (now_values (S (now_calls s)))
                  ++ lit "_" ++ dec (Z.of_nat i) /\
    Commit.date c = toISOString (now_values (now_calls s) - (15 - Z.of_nat i) * DAY_MS) /\
    In (Commit.authorName c) authors /\
    Commit.authorEmail c
    = replace_first SPACE (lit ".") (toLowerCase (Commit.authorName c)) ++ lit "@example.com" /\
    (exists x, Commit.sha c = substring 2 10 x).
Proof.
  intros Hi. unfold simulateCommit.
  pose proof (floor_random_values HE 4 (random_calls s) eq_refl) as Hv.
  rewrite (bind_Ok (floor_random _) _ s _ _ eq_refl). cbv beta zeta.
  destruct (item_in_range authors _ Hv) as (au & Eau & Hau).
  rewrite (bind_Ok Date_now _ _ _ _ eq_refl). cbv beta zeta.
  rewrite (bind_Ok Date_now _ _ _ _ eq_refl). cbv beta zeta.
  rewrite (bind_Ok Math_random _ _ _ _ eq_refl). cbv beta zeta.
  change (Z.of_nat (length authors)) with 4. rewrite Eau.
  rewrite (bind_Ok (Eff.ret au) _ _ _ _ eq_refl). cbv beta.
  erewrite bind_Ok; cycle 1.
  { apply Date_toISOString_Ok.
    pose proof (now_range HE (now_calls s)) as Hn.
    cbn [next_random next_now now_calls random_calls].
    unfold MAX_TIME, DAY_MS in *.
    change (Z.of_nat (length commitMessages)) with 15. lia. }
  cbv beta.
  rewrite (bind_Ok (floor_random _) _ _ _ _ eq_refl). cbv beta zeta.
  rewrite (bind_Ok (floor_random _) _ _ _ _ eq_refl). cbv beta zeta.
  rewrite (bind_Ok (floor_random _) _ _ _ _ eq_refl). cbv beta zeta.
  eexists. split; [reflexivity|].
  cbn [Commit.id Commit.date Commit.authorName Commit.authorEmail Commit.sha].
  repeat split; try assumption; try reflexivity.
  eexists. reflexivity.
Qed.

Lemma simulateCommitData_shape repoName owner s :
  exists commits,
    simulateCommitData repoName owner s
    = (Ok commits, {| random_calls := 50 + random_calls s; now_calls := 20 + now_calls s |}) /\
    length commits = 10%nat /\
    forall k c, nth_error commits k = Some c ->
      Commit.id c = lit "commit_" ++ dec (now_values (S (2 * k + now_calls s)))
                    ++ lit "_" ++ dec (Z.of_nat k) /\
      Commit.date c
      = toISOString (now_values (2 * k + now_calls s) - (15 - Z.of_nat k) * DAY_MS) /\
      In (Commit.authorName c) authors /\
      Commit.authorEmail c
      = replace_first SPACE (lit ".") (toLowerCase (Commit.authorName c)) ++ lit "@example.com" /\
      (exists x, Commit.sha c = substring 2 10 x).
Proof.
  unfold simulateCommitData.
  destruct (for_push_staged simulateCommit
              (fun i st => random_calls st = (5 * i + random_calls s)%nat /\
                           now_calls st = (2 * i + now_calls s)%nat)
              (fun i c =>
                 Commit.id c = lit "commit_" ++ dec (now_values (S (2 * i + now_calls s)))
                               ++ lit "_" ++ dec (Z.of_nat i) /\
                 Commit.date c
                 = toISOString (now_values (2 * i + now_calls s) - (15 - Z.of_nat i) * DAY_MS) /\
                 In (Commit.authorName c) authors /\
                 Commit.authorEmail c
                 = replace_first SPACE (lit ".") (toLowerCase (Commit.authorName c))
                   ++ lit "@example.com" /\
                 (exists x, Commit.sha c = substring 2 10 x)) 10%nat)
    with (n := Nat.min (length commitMessages) COMMIT_CAP) (i0 := 0%nat)
         (acc := @nil Commit.t) (s := s) as (l & s' & E & Hlen & Hl & Hr & Hn).
  - intros i st Hi [Hr Hn].
    destruct (simulateCommit_shape i st Hi) as (c & E & Hid & Hdate & Hau & Hmail & Hsha).
    exists c. eexists. split; [exact E|]. rewrite Hn in Hid, Hdate.
    split; [repeat split; assumption|].
    cbn [random_calls now_calls]. lia.
  - cbn. lia.
  - split; reflexivity.
  - exists l. split; [|split; [exact Hlen|exact Hl]].
    rewrite E. f_equal. destruct s' as [r n]. cbn [random_calls now_calls] in Hr, Hn.
    change (0 + Nat.min (length commitMessages) COMMIT_CAP)%nat with 10%nat in Hr, Hn.
    f_equal; lia.
Qed.

Lemma clock_monotone :
  (forall k, now_values k <= now_values (S k)) ->
  forall a b, (a <= b)%nat -> now_values a <= now_values b.
Proof.
  intros Hm a b Hab. induction Hab as [|b Hab IH]; [lia|].
  specialize (Hm b). lia.
Qed.

(** X1: No two commits of one run of the commit generator have the same [id],
    even when the clock does not advance between them. *)
Theorem simulateCommitData_ids_distinct repoName owner s :
  exists commits s', simulateCommitData repoName owner s = (Ok commits, s') /\
    NoDup (map Commit.id commits).
Proof.
  destruct (simulateCommitData_shape repoName owner s) as (commits & E & _ & Hc).
  exists commits. eexists. split; [exact E|].
  apply NoDup_by_index. intros k k' c c' Hk Hk' Hid.
  destruct (Hc k c Hk) as (Ec & _). destruct (Hc k' c' Hk') as (Ec' & _).
  rewrite Ec, Ec' in Hid. now apply stamped_id_inj in Hid.
Qed.

(** X2: The dates of the commits are the ISO renderings of time values: the one
    of the commit at index [k] is [15 - k] days before the clock reading of
    its turn.  With a clock that never runs backwards, each commit is dated
    at least one day after the one before it, and all of them at least six
    days before the next clock reading. *)
Theorem simulateCommitData_dates repoName owner s :
  (forall k, now_values k <= now_values (S k)) ->
  exists commits s' times,
    simulateCommitData repoName owner s = (Ok commits, s') /\
    map Commit.date commits = map toISOString times /\
    length times = length commits /\
    (forall k t, nth_error times k = Some t ->
       t = now_values (2 * k + now_calls s) - (15 - Z.of_nat k) * DAY_MS) /\
    (forall k t t', nth_error times k = Some t -> nth_error times (S k) = Some t' ->
       t + DAY_MS <= t') /\
    Forall (fun t => t + 6 * DAY_MS <= now_values (now_calls s')) times.
Proof.
  intros Hm.
  destruct (simulateCommitData_shape repoName owner s) as (commits & E & Hlen & Hc).
  set (time := fun k : nat => now_values (2 * k + now_calls s) - (15 - Z.of_nat k) * DAY_MS).
  assert (Ht : forall k t, nth_error (map time (seq 0 10)) k = Some t ->
                 (k < 10)%nat /\ t = time k).
  { intros k t Hk. rewrite nth_error_map in Hk.
    destruct (nth_error (seq 0 10) k) as [j|] eqn:Ej; [|discriminate].
    assert (Hlt : (k < 10)%nat).
    { change 10%nat with (length (seq 0 10)). apply nth_error_Some. congruence. }
    rewrite (nth_error_nth' _ 0%nat) in Ej by (rewrite length_seq; exact Hlt).
    rewrite seq_nth in Ej by exact Hlt. inversion Ej; subst. inversion Hk. auto. }
  exists commits. eexists. exists (map time (seq 0 10)).
  split; [exact E|]. split; [|split; [|split; [|split]]].
  - rewrite map_map. rewrite <- Hlen. apply map_by_index.
    intros k c Hk. destruct (Hc k c Hk) as (_ & Hd & _). exact Hd.
  - rewrite length_map, length_seq. now rewrite Hlen.
  - intros k t Hk. now destruct (Ht k t Hk).
  - intros k t t' Hk Hk'.
    destruct (Ht k t Hk) as [_ ->]. destruct (Ht (S k) t' Hk') as [_ ->]. unfold time.
    pose proof (clock_monotone Hm (2 * k + now_calls s) (2 * S k + now_calls s) ltac:(lia)).
    unfold DAY_MS. lia.
  - apply Forall_forall. intros t Hin. apply In_nth_error in Hin. destruct Hin as [k Hk].
    destruct (Ht k t Hk) as [Hlt ->]. unfold time. cbn [now_calls].
    pose proof (clock_monotone Hm (2 * k + now_calls s) (20 + now_calls s) ltac:(lia)).
    unfold DAY_MS. lia.
Qed.

(** X3: The e-mail address of every commit is the one of its author: the name in
    lower case with its space replaced by a dot, at [example.com]. *)
Theorem simulateCommitData_emails repoName owner s :
  exists commits s', simulateCommitData repoName owner s = (Ok commits, s') /\
    Forall (fun c =>
      In (Commit.authorName c, Commit.authorEmail c)
         [ (lit "John Doe", lit "john.doe@example.com");
           (lit "Jane Smith", lit "jane.smith@example.com");
           (lit "Mike Johnson", lit "mike.johnson@example.com");
           (lit "Sarah Wilson", lit "sarah.wilson@example.com") ]) commits.
Proof.
  destruct (simulateCommitData_shape repoName owner s) as (commits & E & _ & Hc).
  exists commits. eexists. split; [exact E|].
  apply Forall_forall. intros c Hin. apply In_nth_error in Hin. destruct Hin as [k Hk].
  destruct (Hc k c Hk) as (_ & _ & Hau & Hmail & _). rewrite Hmail.
  destruct Hau as [<- | [<- | [<- | [<- | []]]]].
  - left. reflexivity.
  - right. left. reflexivity.
  - right. right. left. reflexivity.
  - right. right. right. left. reflexivity.
Qed.

End WithEnv.

Lemma demo_clock_monotone k : @now_values Demo.env k <= @now_values Demo.env (S k).
Proof.
  change (1700000000000 + Z.min (Z.of_nat k) 1000000
          <= 1700000000000 + Z.min (Z.of_nat (S k)) 1000000).
  lia.
Qed.

Lemma simulateCommitData_ids_distinct_witness :
  EnvOk Demo.env /\
  exists commits s',
    @simulateCommitData Demo.env (lit "widgets") (lit "acme") Demo.src0 = (Ok commits, s') /\
    NoDup (map Commit.id commits).
Proof.
  split; [exact demo_env_ok|].
  exact (simulateCommitData_ids_distinct demo_env_ok (lit "widgets") (lit "acme") Demo.src0).
Defined.

Lemma simulateCommitData_dates_witness :
  EnvOk Demo.env /\
  (forall k, @now_values Demo.env k <= @now_values Demo.env (S k)) /\
  exists commits s' times,
    @simulateCommitData Demo.env (lit "widgets") (lit "acme") Demo.src0 = (Ok commits, s') /\
    map Commit.date commits = map (@toISOString Demo.env) times /\
    length times = length commits /\
    (forall k t, nth_error times k = Some t ->
       t = @now_values Demo.env (2 * k + now_calls Demo.src0) - (15 - Z.of_nat k) * DAY_MS) /\
    (forall k t t', nth_error times k = Some t -> nth_error times (S k) = Some t' ->
       t + DAY_MS <= t') /\
    Forall (fun t => t + 6 * DAY_MS <= @now_values Demo.env (now_calls s')) times.
Proof.
  split; [exact demo_env_ok|]. split; [exact demo_clock_monotone|].
  exact (simulateCommitData_dates demo_env_ok (lit "widgets") (lit "acme") Demo.src0
           demo_clock_monotone).
Defined.

Lemma simulateCommitData_emails_witness :
  EnvOk Demo.env /\
  exists commits s',
    @simulateCommitData Demo.env (lit "widgets") (lit "acme") Demo.src0 = (Ok commits, s') /\
    Forall (fun c =>
      In (Commit.authorName c, Commit.authorEmail c)
         [ (lit "John Doe", lit "john.doe@example.com");
           (lit "Jane Smith", lit "jane.smith@example.com");
           (lit "Mike Johnson", lit "mike.johnson@example.com");
           (lit "Sarah Wilson", lit "sarah.wilson@example.com") ]) commits.
Proof.
  split; [exact demo_env_ok|].
  exact (simulateCommitData_emails demo_env_ok (lit "widgets") (lit "acme") Demo.src0).
Defined.

End GeneratorShape.

(** ** Lines of a text *)

Module LineFacts.

Lemma split_not_nil sep s : split sep s <> [].
Proof.
  destruct s as [|c s]; simpl; [discriminate|].
  destruct (c =? sep)%N; [discriminate|]. destruct (split sep s); discriminate.
Qed.

Lemma join_cons sep p parts :
  parts <> [] -> join sep (p :: parts) = p ++ sep ++ join sep parts.
Proof. destruct parts; [congruence|reflexivity]. Qed.

(** Joining the pieces of a split gives the text back. *)
Lemma join_split sep s : join [sep] (split sep s) = s.
Proof.
  induction s as [|c s IH]; [reflexivity|]. simpl.
  pose proof (split_not_nil sep s) as Hn.
  destruct (N.eqb_spec c sep) as [->|Hc].
  - rewrite join_cons by assumption. now rewrite IH.
  - destruct (split sep s) as [|l ls] eqn:E; [congruence|].
    destruct ls as [|l' ls].
    + simpl in *. now rewrite IH.
    + rewrite join_cons by discriminate. rewrite join_cons in IH by discriminate.
      rewrite <- IH. reflexivity.
Qed.

Lemma split_without sep s : ~ In sep s -> split sep s = [s].
Proof.
  induction s as [|c s IH]; intros Hs; [reflexivity|]. simpl.
  destruct (N.eqb_spec c sep) as [->|Hc]; [exfalso; apply Hs; now left|].
  rewrite IH; [reflexivity|]. intros Hin. apply Hs. now right.
Qed.

Lemma split_app sep a b :
  ~ In sep a -> split sep (a ++ sep :: b) = a :: split sep b.
Proof.
  induction a as [|c a IH]; intros Ha; simpl.
  - now rewrite N.eqb_refl.
  - destruct (N.eqb_spec c sep) as [->|Hc]; [exfalso; apply Ha; now left|].
    rewrite IH; [reflexivity|]. intros Hin. apply Ha. now right.
Qed.

(** Splitting the join of lines without the separator gives the lines. *)
Lemma split_join sep l lines :
  Forall (fun x => ~ In sep x) (l :: lines) ->
  split sep (join [sep] (l :: lines)) = l :: lines.
Proof.
  revert l. induction lines as [|l' lines IH]; intros l Hl.
  - apply split_without. now inversion Hl.
  - inversion Hl as [|? ? H1 H2]; subst.
    change (join [sep] (l :: l' :: lines)) with (l ++ sep :: join [sep] (l' :: lines)).
    rewrite split_app by assumption. now rewrite IH.
Qed.

Lemma not_in_app {A} (x : A) a b : ~ In x a -> ~ In x b -> ~ In x (a ++ b).
Proof. intros Ha Hb Hin. apply in_app_or in Hin. tauto. Qed.

End LineFacts.

(** ** The generated files and their patches *)

Module FileShape.
Import Generator EffFacts GeneratorFacts DecFacts GeneratorShape LineFacts.

Lemma absent (c : code_unit) l : existsb (N.eqb c) l = false -> ~ In c l.
Proof.
  intros Hx Hin. assert (Ht : existsb (N.eqb c) l = true).
  { apply existsb_exists. exists c. split; [assumption|apply N.eqb_refl]. }
  congruence.
Qed.

Lemma name_without_LF name ext :
  In name fileNames -> In ext fileExtensions -> ~ In LF (name ++ ext).
Proof.
  intros Hn Hx. apply not_in_app.
  - revert name Hn. apply Forall_forall.
    repeat constructor; apply absent; reflexivity.
  - revert ext Hx. apply Forall_forall.
    repeat constructor; apply absent; reflexivity.
Qed.

Section WithEnv.
Context `{Env} (HE : EnvOk _).

Local Ltac step_with L :=
  let v := fresh "v" in let E := fresh "E" in let Hv := fresh "Hv" in
  destruct L as (v & E & Hv); rewrite (bind_Ok _ _ _ _ _ E); clear E;
  cbv beta zeta.

Local Ltac step_floor :=
  match goal with
  | |- context [Eff.bind (floor_random ?n) _ ?s0] =>
      step_with (floor_random_Ok HE n s0 ltac:(reflexivity))
  end.

Local Ltac step_now :=
  match goal with
  | |- context [Eff.bind Date_now _ ?s0] => step_with (Date_now_Ok HE s0)
  end.

Local Ltac step_ret :=
  match goal with
  | |- context [Eff.bind (Eff.ret ?a) ?k ?s0] =>
      rewrite (bind_Ok (Eff.ret a) k s0 a s0 eq_refl); cbv beta zeta
  end.

Lemma patch_added_shape file s :
  exists n k s', patch_added file s
    = (Ok (join [LF] ((lit "+++ b/" ++ file)
                      :: (lit "@@ -0,0 +1," ++ dec n ++ lit " @@")
                      :: repeat (lit "+  // New line of code") k)), s') /\
    (3 <= k <= 12)%nat.
Proof.
  unfold patch_added. step_floor. step_floor.
  erewrite bind_Ok; [|apply Array_fill_map_join_Ok; lia].
  exists (v + 5), (Z.to_nat (v0 + 3)). eexists. split; [|lia].
  unfold Eff.ret. f_equal. f_equal.
  assert (Hk : repeat (lit "+  // New line of code") (Z.to_nat (v0 + 3)) <> []).
  { destruct (Z.to_nat (v0 + 3)) eqn:Ek; [lia|discriminate]. }
  rewrite !join_cons by (assumption || discriminate).
  rewrite <- !app_assoc. reflexivity.
Qed.

Lemma patch_deleted_shape file s :
  exists n k s', patch_deleted file s
    = (Ok (join [LF] ((lit "--- a/" ++ file)
                      :: (lit "@@ -1," ++ dec n ++ lit " +0,0 @@")
                      :: repeat (lit "-  // Removed line of code") k)), s') /\
    (3 <= k <= 12)%nat.
Proof.
  unfold patch_deleted. step_floor. step_floor.
  erewrite bind_Ok; [|apply Array_fill_map_join_Ok; lia].
  exists (v + 5), (Z.to_nat (v0 + 3)). eexists. split; [|lia].
  unfold Eff.ret. f_equal. f_equal.
  assert (Hk : repeat (lit "-  // Removed line of code") (Z.to_nat (v0 + 3)) <> []).
  { destruct (Z.to_nat (v0 + 3)) eqn:Ek; [lia|discriminate]. }
  rewrite !join_cons by (assumption || discriminate).
  rewrite <- !app_assoc. reflexivity.
Qed.

Lemma patch_modified_shape file s :
  exists a b c d s', patch_modified file s
    = (Ok (join [LF] [ lit "--- a/" ++ file;
                       lit "+++ b/" ++ file;
                       lit "@@ -" ++ dec a ++ lit "," ++ dec b
                       ++ lit " +" ++ dec c ++ lit "," ++ dec d ++ lit " @@";
                       lit "-  // Old line of code";
                       lit "+  // New line of code" ]), s').
Proof.
  unfold patch_modified. do 4 step_floor.
  exists (v + 1), (v0 + 3), (v1 + 1), (v2 + 3). eexists.
  unfold Eff.ret. f_equal. f_equal.
  rewrite !join_cons by discriminate.
  rewrite <- !app_assoc. reflexivity.
Qed.

Lemma simulateCommitFile_shape commitId i s :
  exists f s', simulateCommitFile commitId i s = (Ok f, s') /\
    (exists t, CommitFile.id f = lit "file_" ++ dec t ++ lit "_" ++ dec (Z.of_nat i)) /\
    (exists name ext, In name fileNames /\ In ext fileExtensions /\
                      CommitFile.filename f = name ++ ext) /\
    ((CommitFile.status f = Some (lit "added") /\
      exists n k, (3 <= k <= 12)%nat /\
        CommitFile.patch f
        = join [LF] ((lit "+++ b/" ++ CommitFile.filename f)
                     :: (lit "@@ -0,0 +1," ++ dec n ++ lit " @@")
                     :: repeat (lit "+  // New line of code") k)) \/
     (CommitFile.status f = Some (lit "deleted") /\
      exists n k, (3 <= k <= 12)%nat /\
        CommitFile.patch f
        = join [LF] ((lit "--- a/" ++ CommitFile.filename f)
                     :: (lit "@@ -1," ++ dec n ++ lit " +0,0 @@")
                     :: repeat (lit "-  // Removed line of code") k)) \/
     (CommitFile.status f = Some (lit "modified") /\
      exists a b c d,
        CommitFile.patch f
        = join [LF] [ lit "--- a/" ++ CommitFile.filename f;
                      lit "+++ b/" ++ CommitFile.filename f;
                      lit "@@ -" ++ dec a ++ lit "," ++ dec b
                      ++ lit " +" ++ dec c ++ lit "," ++ dec d ++ lit " @@";
                      lit "-  // Old line of code";
                      lit "+  // New line of code" ])).
Proof.
  unfold simulateCommitFile. do 3 step_floor.
  destruct (item_in_range fileNames v Hv) as (name & En & Hn).
  destruct (item_in_range fileExtensions v0 Hv0) as (ext & Ex & Hx).
  rewrite En, Ex. cbn [interpolate].
  change (Z.of_nat (length statuses)) with 3 in Hv1.
  assert (Hs : v1 = 0 \/ v1 = 1 \/ v1 = 2) by lia.
  destruct Hs as [-> | [-> | ->]].
  - change (item statuses 0) with (Some (lit "added")).
    change (status_is (Some (lit "added")) (lit "added")) with true.
    change (status_is (Some (lit "added")) (lit "deleted")) with false.
    cbv iota.
    match goal with |- context [Eff.bind (patch_added ?f) _ ?s0] =>
      destruct (patch_added_shape f s0) as (n & k & s1 & Ep & Hk) end.
    rewrite (bind_Ok _ _ _ _ _ Ep). cbv beta. step_now.
    rewrite bind_assoc. step_floor. step_ret. step_ret.
    eexists. eexists. split; [reflexivity|].
    cbn [CommitFile.id CommitFile.filename CommitFile.status CommitFile.patch].
    split; [now exists v1|]. split; [now exists name, ext|].
    left. split; [reflexivity|]. now exists n, k.
  - change (item statuses 1) with (Some (lit "modified")).
    change (status_is (Some (lit "modified")) (lit "added")) with false.
    change (status_is (Some (lit "modified")) (lit "deleted")) with false.
    cbv iota.
    match goal with |- context [Eff.bind (patch_modified ?f) _ ?s0] =>
      destruct (patch_modified_shape f s0) as (a & b & c & d & s1 & Ep) end.
    rewrite (bind_Ok _ _ _ _ _ Ep). cbv beta. step_now.
    rewrite bind_assoc. step_floor. step_ret.
    rewrite bind_assoc. step_floor. step_ret.
    eexists. eexists. split; [reflexivity|].
    cbn [CommitFile.id CommitFile.filename CommitFile.status CommitFile.patch].
    split; [now exists v1|]. split; [now exists name, ext|].
    right. right. split; [reflexivity|]. now exists a, b, c, d.
  - change (item statuses 2) with (Some (lit "deleted")).
    change (status_is (Some (lit "deleted")) (lit "added")) with false.
    change (status_is (Some (lit "deleted")) (lit "deleted")) with true.
    cbv iota.
    match goal with |- context [Eff.bind (patch_deleted ?f) _ ?s0] =>
      destruct (patch_deleted_shape f s0) as (n & k & s1 & Ep & Hk) end.
    rewrite (bind_Ok _ _ _ _ _ Ep). cbv beta. step_now. step_ret.
    rewrite bind_assoc. step_floor. step_ret.
    eexists. eexists. split; [reflexivity|].
    cbn [CommitFile.id CommitFile.filename CommitFile.status CommitFile.patch].
    split; [now exists v1|]. split; [now exists name, ext|].
    right. left. split; [reflexivity|]. now exists n, k.
Qed.

(** Every file of one run of the file generator is the result of one turn
    of its loop, at the index of the file. *)
Lemma simulateCommitFiles_turns commitId filesChanged s :
  exists files s', simulateCommitFiles commitId filesChanged s = (Ok files, s') /\
    forall k f, nth_error files k = Some f ->
      exists s1 s2, simulateCommitFile commitId k s1 = (Ok f, s2).
Proof.
  unfold simulateCommitFiles.
  destruct (for_push_Ok (simulateCommitFile commitId) (fun _ => True)
              (fun k f => exists s1 s2, simulateCommitFile commitId k s1 = (Ok f, s2))
              (Z.to_nat filesChanged))
    with (n := Z.to_nat filesChanged) (i0 := 0%nat) (acc := @nil CommitFile.t) (s := s)
    as (l & s' & E & _ & Hl & _).
  - intros i s0 _ _.
    destruct (simulateCommitFile_shape commitId i s0) as (f & s1 & E & _).
    exists f, s1. split; [exact E|]. split; [|exact I]. now exists s0, s1.
  - lia.
  - exact I.
  - exists l, s'. split; [exact E|]. exact Hl.
Qed.

Lemma generated_files_ids commitId filesChanged g1 g2 files :
  simulateCommitFiles commitId filesChanged g1 = (Ok files, g2) ->
  NoDup (map CommitFile.id files).
Proof.
  intros E0.
  destruct (simulateCommitFiles_turns commitId filesChanged g1) as (files' & s' & E & Hf).
  rewrite E0 in E. inversion E; subst files' s'.
  apply NoDup_by_index. intros k k' f f' Hk Hk' Hid.
  destruct (Hf k f Hk) as (s1 & s2 & E1). destruct (Hf k' f' Hk') as (s1' & s2' & E1').
  destruct (simulateCommitFile_shape commitId k s1) as (f0 & ? & E2 & [t Ht] & _).
  destruct (simulateCommitFile_shape commitId k' s1') as (f0' & ? & E2' & [t' Ht'] & _).
  rewrite E1 in E2. rewrite E1' in E2'. inversion E2; inversion E2'; subst f0 f0'.
  rewrite Ht, Ht' in Hid. now apply stamped_id_inj in Hid.
Qed.

(** X4: No two files of one run of the file generator have the same [id]. *)
Theorem simulateCommitFiles_ids_distinct commitId filesChanged s :
  exists files s', simulateCommitFiles commitId filesChanged s = (Ok files, s') /\
    NoDup (map CommitFile.id files).
Proof.
  destruct (simulateCommitFiles_turns commitId filesChanged s) as (files & s' & E & _).
  exists files, s'. split; [exact E|]. eapply generated_files_ids. exact E.
Qed.

End WithEnv.

Lemma simulateCommitFiles_ids_distinct_witness :
  EnvOk Demo.env /\
  exists files s',
    @simulateCommitFiles Demo.env (lit "commit_1_0") 3 Demo.src0 = (Ok files, s') /\
    NoDup (map CommitFile.id files).
Proof.
  split; [exact demo_env_ok|].
  exact (simulateCommitFiles_ids_distinct demo_env_ok (lit "commit_1_0") 3 Demo.src0).
Defined.

End FileShape.

(** ** Generated patches in the diff view *)

Module PatchRendering.
Import Generator EffFacts GeneratorFacts DecFacts GeneratorShape LineFacts FileShape.
Import CodeViewer.

Lemma className_at line i j : className (formatLine line i) = className (formatLine line j).
Proof. unfold formatLine. now destruct (if _ : bool then _ else _). Qed.

Lemma map_indexed_className lines : forall i,
  map className (map_indexed formatLine lines i)
  = map (fun line => className (formatLine line 0)) lines.
Proof.
  induction lines as [|l lines IH]; intros i; simpl; [reflexivity|].
  now rewrite IH, (className_at l i 0).
Qed.

(** The classes of a text given by its lines. *)
Lemma formatPatch_joined c l lines :
  Forall (fun x => ~ In LF x) ((c :: l) :: lines) ->
  map className (formatPatch (join [LF] ((c :: l) :: lines)))
  = map (fun line => className (formatLine line 0)) ((c :: l) :: lines).
Proof.
  intros Hl. unfold formatPatch.
  assert (E : exists rest, join [LF] ((c :: l) :: lines) = c :: rest).
  { destruct lines; simpl; eauto. }
  destruct E as [rest E]. rewrite E, <- E.
  rewrite split_join by assumption. apply map_indexed_className.
Qed.

Lemma repeat_without_LF (line : jsstring) k :
  existsb (N.eqb LF) line = false -> Forall (fun x => ~ In LF x) (repeat line k).
Proof.
  intros Hl. apply Forall_forall. intros x Hx. apply repeat_spec in Hx. subst x.
  now apply absent.
Qed.

Lemma added_renders file n k :
  ~ In LF file ->
  map className
    (formatPatch (join [LF] ((lit "+++ b/" ++ file)
                             :: (lit "@@ -0,0 +1," ++ dec n ++ lit " @@")
                             :: repeat (lit "+  // New line of code") k)))
  = CLASS_HEADER :: CLASS_HUNK :: repeat CLASS_ADDITION k.
Proof.
  intros Hf.
  change (lit "+++ b/" ++ file) with (43%N :: lit "++ b/" ++ file).
  rewrite formatPatch_joined.
  - cbn [map]. rewrite map_repeat. reflexivity.
  - constructor; [|constructor].
    + change (~ In LF (lit "+++ b/" ++ file)).
      apply not_in_app; [apply absent; reflexivity|assumption].
    + apply not_in_app; [apply absent; reflexivity|].
      apply not_in_app; [apply LF_not_in_dec|apply absent; reflexivity].
    + now apply repeat_without_LF.
Qed.

Lemma deleted_renders file n k :
  ~ In LF file ->
  map className
    (formatPatch (join [LF] ((lit "--- a/" ++ file)
                             :: (lit "@@ -1," ++ dec n ++ lit " +0,0 @@")
                             :: repeat (lit "-  // Removed line of code") k)))
  = CLASS_HEADER :: CLASS_HUNK :: repeat CLASS_DELETION k.
Proof.
  intros Hf.
  change (lit "--- a/" ++ file) with (45%N :: lit "-- a/" ++ file).
  rewrite formatPatch_joined.
  - cbn [map]. rewrite map_repeat. reflexivity.
  - constructor; [|constructor].
    + change (~ In LF (lit "--- a/" ++ file)).
      apply not_in_app; [apply absent; reflexivity|assumption].
    + apply not_in_app; [apply absent; reflexivity|].
      apply not_in_app; [apply LF_not_in_dec|apply absent; reflexivity].
    + now apply repeat_without_LF.
Qed.

Lemma modified_renders file a b c d :
  ~ In LF file ->
  map className
    (formatPatch (join [LF] [ lit "--- a/" ++ file;
                              lit "+++ b/" ++ file;
                              lit "@@ -" ++ dec a ++ lit "," ++ dec b
                              ++ lit " +" ++ dec c ++ lit "," ++ dec d ++ lit " @@";
                              lit "-  // Old line of code";
                              lit "+  // New line of code" ]))
  = [CLASS_HEADER; CLASS_HEADER; CLASS_HUNK; CLASS_DELETION; CLASS_ADDITION].
Proof.
  intros Hf.
  change (lit "--- a/" ++ file) with (45%N :: lit "-- a/" ++ file).
  rewrite formatPatch_joined.
  - reflexivity.
  - repeat constructor.
    + change (~ In LF (lit "--- a/" ++ file)).
      apply not_in_app; [apply absent; reflexivity|assumption].
    + apply not_in_app; [apply absent; reflexivity|assumption].
    + repeat (apply not_in_app;
              [first [apply LF_not_in_dec | apply absent; reflexivity]|]).
      apply absent; reflexivity.
    + apply absent; reflexivity.
    + apply absent; reflexivity.
Qed.

Section WithEnv.
Context `{Env} (HE : EnvOk _).

(** X5: The diff view of a generated file: for an added file a file header, a
    hunk header and then 3 to 12 additions; for a deleted file a file
    header, a hunk header and then 3 to 12 deletions; for a modified file
    two file headers, a hunk header, one deletion and one addition. *)
Theorem simulateCommitFiles_render commitId filesChanged s :
  exists files s', simulateCommitFiles commitId filesChanged s = (Ok files, s') /\
    Forall (fun f =>
      let classes := map className (formatPatch (CommitFile.patch f)) in
      (CommitFile.status f = Some (lit "added") /\
       exists k, (3 <= k <= 12)%nat /\
         classes = CLASS_HEADER :: CLASS_HUNK :: repeat CLASS_ADDITION k) \/
      (CommitFile.status f = Some (lit "deleted") /\
       exists k, (3 <= k <= 12)%nat /\
         classes = CLASS_HEADER :: CLASS_HUNK :: repeat CLASS_DELETION k) \/
      (CommitFile.status f = Some (lit "modified") /\
       classes = [CLASS_HEADER; CLASS_HEADER; CLASS_HUNK; CLASS_DELETION; CLASS_ADDITION]))
      files.
Proof.
  destruct (simulateCommitFiles_turns HE commitId filesChanged s) as (files & s' & E & Hf).
  exists files, s'. split; [exact E|].
  apply Forall_forall. intros f Hin. apply In_nth_error in Hin. destruct Hin as [i Hi].
  destruct (Hf i f Hi) as (s1 & s2 & E1).
  destruct (simulateCommitFile_shape HE commitId i s1)
    as (f0 & ? & E0 & _ & (name & ext & Hn & Hx & Ename) & Hp).
  rewrite E1 in E0. inversion E0; subst f0.
  pose proof (name_without_LF name ext Hn Hx) as Hlf. rewrite <- Ename in Hlf.
  cbv zeta.
  destruct Hp as [(Hs & n & k & Hk & ->) | [(Hs & n & k & Hk & ->) | (Hs & a & b & c & d & ->)]].
  - left. split; [exact Hs|]. exists k. split; [exact Hk|]. now apply added_renders.
  - right. left. split; [exact Hs|]. exists k. split; [exact Hk|]. now apply deleted_renders.
  - right. right. split; [exact Hs|]. now apply modified_renders.
Qed.

End WithEnv.

Lemma simulateCommitFiles_render_witness :
  EnvOk Demo.env /\
  exists files s',
    @simulateCommitFiles Demo.env (lit "commit_1_0") 3 Demo.src0 = (Ok files, s') /\
    Forall (fun f =>
      let classes := map className (formatPatch (CommitFile.patch f)) in
      (CommitFile.status f = Some (lit "added") /\
       exists k, (3 <= k <= 12)%nat /\
         classes = CLASS_HEADER :: CLASS_HUNK :: repeat CLASS_ADDITION k) \/
      (CommitFile.status f = Some (lit "deleted") /\
       exists k, (3 <= k <= 12)%nat /\
         classes = CLASS_HEADER :: CLASS_HUNK :: repeat CLASS_DELETION k) \/
      (CommitFile.status f = Some (lit "modified") /\
       classes = [CLASS_HEADER; CLASS_HEADER; CLASS_HUNK; CLASS_DELETION; CLASS_ADDITION]))
      files.
Proof.
  split; [exact demo_env_ok|].
  exact (simulateCommitFiles_render demo_env_ok (lit "commit_1_0") 3 Demo.src0).
Defined.

End PatchRendering.

(** ** The diff view loses nothing *)

Module FormatPatchFacts.
Import CodeViewer JSFacts LineFacts.

Lemma formatLine_parts line i :
  let out := formatLine line i in
  prefix out ++ content out = line /\
  (prefix out = [] \/ prefix out = lit "+" \/ prefix out = lit "-" \/ prefix out = lit " ").
Proof.
  unfold formatLine.
  destruct (startsWith line (lit "+++") || startsWith line (lit "---")); [cbn; auto|].
  destruct (startsWith line (lit "@@")); [cbn; auto|].
  destruct (startsWith line (lit "+")) eqn:E1.
  { apply startsWith_true in E1. destruct E1 as [rest ->]. cbn. auto. }
  destruct (startsWith line (lit "-")) eqn:E2.
  { apply startsWith_true in E2. destruct E2 as [rest ->]. cbn. auto. }
  destruct (startsWith line (lit " ")) eqn:E3.
  { apply startsWith_true in E3. destruct E3 as [rest ->]. cbn. auto 6. }
  cbn. auto.
Qed.

Lemma map_indexed_parts lines : forall i,
  map (fun out => prefix out ++ content out) (map_indexed formatLine lines i) = lines.
Proof.
  induction lines as [|l lines IH]; intros i; cbn [map_indexed map]; [reflexivity|].
  rewrite IH. f_equal. apply (formatLine_parts l i).
Qed.

(** X6: In every output of [formatPatch] the prefix followed by the content is
    the line it was made from, and the prefix is empty or the one marker
    [+], [-] or space; joining prefix and content of the outputs with line
    feeds gives the patch back, character for character. *)
Theorem formatPatch_round_trip patch :
  Forall (fun out =>
    prefix out ++ content out = originalLine out /\
    (prefix out = [] \/ prefix out = lit "+" \/ prefix out = lit "-" \/ prefix out = lit " "))
    (formatPatch patch) /\
  join [LF] (map (fun out => prefix out ++ content out) (formatPatch patch)) = patch.
Proof.
  unfold formatPatch. destruct patch as [|c rest]; [split; [constructor|reflexivity]|].
  split.
  - apply CodeViewerFacts.map_indexed_Forall. intros line i.
    destruct (formatLine_parts line i) as [Hp Hx]. split; [|exact Hx].
    rewrite Hp. unfold formatLine. now destruct (if _ : bool then _ else _).
  - rewrite map_indexed_parts. apply join_split.
Qed.

End FormatPatchFacts.

(** ** The intake flow: what is checked before anything is written *)

Module IntakeEdges.
Import Trace RepositoryAnalyzer Generator GeneratorFacts EffFacts UrlParser FlowFacts.

Lemma bind_throws {St A B} (m : Eff.t St A) (k : A -> Eff.t St B) s e s' :
  m s = (Throw e, s') -> Eff.bind m k s = (Throw e, s').
Proof. unfold Eff.bind. now intros ->. Qed.

Lemma after_nil_fields {V} g (v : V) s :
  after_writes [] g v s = mkState g (gateway_calls s) (store s) (log s) v.
Proof. unfold after_writes. cbn. now rewrite Nat.add_0_r, app_nil_r. Qed.

Local Ltac run_set := eapply bind_runs; [apply set_view_on|cbv beta].

Section WithEnv.
Context `{Env}.

(** X7: A URL that does not parse, a blank one included, is turned down before
    anything else happens: no clock or random value is read, no gateway call
    is issued, the store is untouched and nothing is handed to
    [onRepositoryAnalyzed].  A blank URL only sets the error text; any other
    one also shows the failure toast and leaves the form idle. *)
Theorem analyzeRepository_rejects_url url (s : State View) :
  (forall p, parseGitHubUrl (trim url) <> Ok p) ->
  exists s',
    analyzeRepository url s = (Ok tt, s') /\
    src s' = src s /\ gateway_calls s' = gateway_calls s /\
    store s' = store s /\ log s' = log s /\
    view s' = match trim url with
              | [] => mkView (analyzing (view s)) (progress (view s)) (currentStep (view s))
                        (lit "Please enter a GitHub repository URL")
                        (toasts (view s)) (analyzed (view s))
              | _ :: _ => mkView false 0 [] invalid_url_message
                            (toasts (view s) ++ [failed_toast]) (analyzed (view s))
              end.
Proof.
  intros Hp. unfold analyzeRepository. destruct (trim url) as [|c u] eqn:Eu.
  { eexists. split; [reflexivity|]. cbn. repeat split. }
  assert (Ep : parseGitHubUrl (c :: u) = Throw (Error invalid_url_message)).
  { unfold parseGitHubUrl in *. destruct (Regex.exec githubRegex (c :: u)) as [[i m]|].
    - exfalso. eapply Hp. reflexivity.
    - reflexivity. }
  assert (Eb : analyze url s
               = (Throw (Error invalid_url_message),
                  after_writes [] (src s)
                    (mkView true 0 (lit "Parsing repository URL...") []
                       (toasts (view s)) (analyzed (view s))) s)).
  { rewrite <- (after_writes_nil s) at 1.
    unfold analyze, setAnalyzing, setError, setProgress, setCurrentStep.
    do 4 run_set. apply bind_throws. rewrite Eu, Ep. reflexivity. }
  exists (mkState (src s) (gateway_calls s) (store s) (log s)
            (mkView false 0 [] invalid_url_message
               (toasts (view s) ++ [failed_toast]) (analyzed (view s)))).
  split; [|repeat split].
  unfold Eff.try_catch_finally. rewrite Eb.
  rewrite <- after_nil_fields. reflexivity.
Qed.

(** X8: When the user cannot be told, the repository row is never sent: the
    flow reads the clock and one random value for the id, issues no gateway
    call, leaves the store untouched, hands nothing over and reports the
    failure. *)
Theorem analyzeRepository_needs_user url (s : State View) p e :
  parseGitHubUrl (trim url) = Ok p ->
  auth_me_id = Throw e ->
  exists s',
    analyzeRepository url s = (Ok tt, s') /\
    src s' = next_random (next_now (src s)) /\
    gateway_calls s' = gateway_calls s /\
    store s' = store s /\ log s' = log s /\
    view s' = mkView false 0 [] (error_message e)
                (toasts (view s) ++ [failed_toast]) (analyzed (view s)).
Proof.
  intros Hp Hu. unfold analyzeRepository. destruct (trim url) as [|c u] eqn:Eu.
  { discriminate Hp. }
  assert (Eb : analyze url s
               = (Throw e,
                  after_writes [] (next_random (next_now (src s)))
                    (mkView true 20 (lit "Creating repository record...") []
                       (toasts (view s)) (analyzed (view s))) s)).
  { rewrite <- (after_writes_nil s) at 1.
    unfold analyze, setAnalyzing, setError, setProgress, setCurrentStep.
    do 4 run_set.
    eapply bind_runs; [rewrite Eu, Hp; reflexivity|cbv beta].
    do 2 run_set.
    eapply bind_runs; [apply liftG_on; reflexivity|cbv beta].
    eapply bind_runs; [apply liftG_on; reflexivity|cbv beta zeta].
    apply bind_throws. unfold auth_me. rewrite Hu. reflexivity. }
  exists (mkState (next_random (next_now (src s))) (gateway_calls s) (store s) (log s)
            (mkView false 0 [] (error_message e)
               (toasts (view s) ++ [failed_toast]) (analyzed (view s)))).
  split; [|repeat split].
  unfold Eff.try_catch_finally. rewrite Eb.
  rewrite <- after_nil_fields. reflexivity.
Qed.

End WithEnv.

Lemma analyzeRepository_rejects_url_witness :
  (forall p, parseGitHubUrl (trim (lit "  github.com/acme/widgets ")) <> Ok p) /\
  exists s',
    @analyzeRepository Demo.env (lit "  github.com/acme/widgets ") (Demo.state0 initial_view)
    = (Ok tt, s') /\
    src s' = Demo.src0 /\ gateway_calls s' = 0%nat /\
    store s' = Store.empty /\ log s' = [] /\
    view s' = mkView false 0 [] invalid_url_message [failed_toast] [].
Proof.
  assert (Hp : forall p, parseGitHubUrl (trim (lit "  github.com/acme/widgets ")) <> Ok p)
    by (intros p; vm_compute; discriminate).
  split; [exact Hp|].
  exact (@analyzeRepository_rejects_url Demo.env (lit "  github.com/acme/widgets ")
           (Demo.state0 initial_view) Hp).
Defined.

Lemma analyzeRepository_needs_user_witness :
  parseGitHubUrl (trim Demo.acme_widgets) = Ok {| owner := lit "acme"; repo := lit "widgets" |} /\
  @auth_me_id Scenario.env_signed_out = Throw (Error (lit "Not authenticated")) /\
  exists s',
    @analyzeRepository Scenario.env_signed_out Demo.acme_widgets (Demo.state0 initial_view)
    = (Ok tt, s') /\
    src s' = next_random (next_now Demo.src0) /\
    gateway_calls s' = 0%nat /\
    store s' = Store.empty /\ log s' = [] /\
    view s' = mkView false 0 [] (lit "Not authenticated") [failed_toast] [].
Proof.
  split; [reflexivity|]. split; [reflexivity|].
  exact (@analyzeRepository_needs_user Scenario.env_signed_out Demo.acme_widgets
           (Demo.state0 initial_view) {| owner := lit "acme"; repo := lit "widgets" |}
           (Error (lit "Not authenticated")) eq_refl eq_refl).
Defined.

End IntakeEdges.

(** ** The intake flow: one outcome per run *)

Module IntakeOutcome.
Import Trace RepositoryAnalyzer Generator GeneratorFacts EffFacts UrlParser FlowFacts.

(** View changes that announce nothing and keep the error text. *)
Local Abbreviation kept :=
  (fun v v' : View =>
     analyzed v' = analyzed v /\ toasts v' = toasts v /\ error v' = error v).

(** A run that hands over one completed repository, right after the update
    that completes it was written, and shows one plain toast. *)
Local Abbreviation announced :=
  (fun s s' : State View =>
     exists repo t ws,
       analyzed (view s') = analyzed (view s) ++ [repo] /\
       toasts (view s') = toasts (view s) ++ [t] /\
       toast_variant t = None /\
       error (view s') = error (view s) /\
       Repository.analysisStatus repo = COMPLETED /\
       log s' = log s ++ ws
                ++ [UpdateRepository (Repository.id repo) (Repository.totalCommits repo)
                      COMPLETED]).

Lemma kept_refl (v : View) : kept v v.
Proof. now repeat split. Qed.

Lemma kept_trans (v1 v2 v3 : View) : kept v1 v2 -> kept v2 v3 -> kept v1 v3.
Proof. intros (H1 & H2 & H3) (H4 & H5 & H6). repeat split; congruence. Qed.

Section WithEnv.
Context `{Env}.

Lemma announced_bind {A B} (m : M View A) (k : A -> M View B) :
  steady (fun _ => True) kept m ->
  (forall a s b s', k a s = (Ok b, s') -> announced s s') ->
  forall s b s', Eff.bind m k s = (Ok b, s') -> announced s s'.
Proof.
  intros Hm Hk s b s' E. unfold Eff.bind in E.
  destruct (m s) as [[a|e] s1] eqn:Em; [|discriminate].
  destruct (Hm _ _ _ Em) as (ws1 & (Hl & _) & _ & (Ha & Ht & He)).
  destruct (Hk a _ _ _ E) as (repo & t & ws & Ha' & Ht' & Hv & He' & Hst & Hl').
  exists repo, t, (ws1 ++ ws).
  rewrite Ha', Ht', He', Hl', Ha, Ht, He, Hl, <- !app_assoc. repeat split; assumption.
Qed.

Lemma persist_commit_kept repositoryId total i commit :
  steady (fun _ => True) kept (persist_commit repositoryId total i commit).
Proof.
  unfold persist_commit.
  apply steady_bind; [apply kept_trans| |intros _].
  { apply steady_gateway_write; [apply kept_refl|exact I]. }
  apply steady_bind; [apply kept_trans| |intros files].
  { apply steady_liftG, kept_refl. }
  apply steady_bind; [apply kept_trans| |intros _].
  { apply steady_for_each; [apply kept_refl|apply kept_trans|].
    intros _ f. apply steady_gateway_write; [apply kept_refl|exact I]. }
  apply steady_set_view. intros v. now repeat split.
Qed.

Lemma finish_announced repositoryId total p url (s : State View) b s' :
  (gateway_write (UpdateRepository repositoryId total COMPLETED) ;;
   setProgress 100 ;;
   setCurrentStep (lit "Analysis complete!") ;;
   onRepositoryAnalyzed (final_repository repositoryId p url total) ;;
   toast (complete_toast p total)) s = (Ok b, s') ->
  announced s s'.
Proof.
  unfold Eff.bind, gateway_write. intros E.
  destruct (gateway_rejects (gateway_calls s)) as [e|]; [discriminate|].
  cbn in E. inversion E; subst. cbn.
  exists (final_repository repositoryId p url total), (complete_toast p total), [].
  repeat split.
Qed.

Local Ltac kept_step :=
  apply announced_bind;
  [ first [ apply steady_set_view; intros v; now repeat split
          | apply steady_of_result, kept_refl
          | apply steady_liftG, kept_refl ]
  | intro ].

Lemma analyze_announced url (s : State View) b s' :
  analyze url s = (Ok b, s') ->
  exists repo t ws,
    analyzed (view s') = analyzed (view s) ++ [repo] /\
    toasts (view s') = toasts (view s) ++ [t] /\
    toast_variant t = None /\
    error (view s') = [] /\
    Repository.analysisStatus repo = COMPLETED /\
    log s' = log s ++ ws
             ++ [UpdateRepository (Repository.id repo) (Repository.totalCommits repo)
                   COMPLETED].
Proof.
  unfold analyze. intros E.
  rewrite (bind_Ok (setAnalyzing true) _ s tt _ eq_refl) in E.
  rewrite (bind_Ok (setError []) _ _ tt _ eq_refl) in E.
  revert E.
  match goal with |- ?m ?s0 = _ -> _ =>
    intros E; assert (Ha : announced s0 s'); [revert E; generalize s0 as s1; intros s1|] end.
  - revert s1 b s'.
    unfold setProgress, setCurrentStep, auth_me.
    do 8 kept_step.
    apply announced_bind; [|intros _].
    { apply steady_gateway_write; [apply kept_refl|exact I]. }
    do 5 kept_step.
    apply announced_bind; [|intros _].
    { apply steady_for_each; [apply kept_refl|apply kept_trans|].
      intros i c. apply persist_commit_kept. }
    do 2 kept_step.
    intros s1 b s' E. eapply finish_announced. exact E.
  - destruct Ha as (repo & t & ws & Ha & Ht & Hv & He & Hst & Hl).
    exists repo, t, ws. cbn in *. repeat split; assumption.
Qed.

(** X9: The intake flow never throws to its caller, and when the URL is not
    blank it leaves the form idle however it went.  Each run has one
    outcome.  Either it hands over exactly one repository, in status
    [completed], right after the update that completes it resolved, with one
    plain toast and an empty error text.  Or it hands over nothing, its
    writes are creates only, and it shows the failure toast (no toast at all
    for a blank URL). *)
Theorem analyzeRepository_outcome url (s : State View) :
  exists s',
    analyzeRepository url s = (Ok tt, s') /\
    (trim url <> [] ->
       analyzing (view s') = false /\ progress (view s') = 0%Q /\ currentStep (view s') = []) /\
    ((exists repo t ws,
        analyzed (view s') = analyzed (view s) ++ [repo] /\
        toasts (view s') = toasts (view s) ++ [t] /\
        toast_variant t = None /\
        error (view s') = [] /\
        Repository.analysisStatus repo = COMPLETED /\
        log s' = log s ++ ws
                 ++ [UpdateRepository (Repository.id repo) (Repository.totalCommits repo)
                       COMPLETED]) \/
     (exists ws,
        analyzed (view s') = analyzed (view s) /\
        toasts (view s')
        = toasts (view s) ++ match trim url with [] => [] | _ :: _ => [failed_toast] end /\
        log s' = log s ++ ws /\ Forall intake_create ws)).
Proof.
  unfold analyzeRepository. destruct (trim url) as [|c u] eqn:Eu.
  { eexists. split; [reflexivity|]. split; [congruence|]. right. exists [].
    cbn. rewrite !app_nil_r. repeat split. constructor. }
  unfold Eff.try_catch_finally.
  destruct (analyze url s) as [[[]|e] s1] eqn:Eb.
  - destruct (analyze_announced url s tt s1 Eb)
      as (repo & t & ws & Ha & Ht & Hv & He & Hst & Hl).
    eexists. split; [reflexivity|]. cbn. split; [repeat split|].
    left. exists repo, t, ws. repeat split; assumption.
  - destruct (analyze_tracks url _ _ _ Eb) as (ws & (Hl & _) & Ht).
    destruct (Ht I) as [Hq [Han Hto]].
    eexists. split; [reflexivity|]. cbn. split; [repeat split|].
    right. exists ws. rewrite Han, Hto. repeat split; assumption.
Qed.

End WithEnv.
End IntakeOutcome.

(** ** The intake flow: what a complete run leaves in the store *)

Module IntakeIntegrity.
Import Trace RepositoryAnalyzer Generator GeneratorFacts EffFacts UrlParser FlowFacts.
Import DecFacts GeneratorShape FileShape.

Local Ltac run_set := eapply bind_runs; [apply set_view_on|cbv beta].

Section WithEnv.
Context `{Env} (HE : EnvOk _).

(** The files the file generator made for a commit. *)
Local Abbreviation generated_for :=
  (fun (c : Commit.t) (files : list CommitFile.t) =>
     exists g1 g2,
       simulateCommitFiles (Commit.id c) (Commit.filesChanged c) g1 = (Ok files, g2)).

Lemma persist_commit_runs repositoryId total i commit (s : State View) :
  (forall j, (gateway_calls s <= j)%nat -> gateway_rejects j = None) ->
  exists files g p,
    persist_commit repositoryId total i commit s
    = (Ok tt, after_writes (commit_writes repositoryId (commit, files)) g
                           (with_progress p (view s)) s) /\
    generated_for commit files.
Proof.
  intros Hres. unfold persist_commit.
  rewrite (bind_Ok _ _ _ _ _ (gateway_write_Ok _ s (Hres _ (Nat.le_refl _)))).
  destruct (simulateCommitFiles_Ok HE (Commit.id commit) (Commit.filesChanged commit) (src s))
    as (files & g & E & _).
  exists files, g. eexists.
  erewrite bind_Ok; [|apply liftG_Ok; exact E].
  erewrite bind_Ok; [|apply persist_files_Ok; intros j Hj; apply Hres; cbn in Hj; lia].
  unfold setProgress. rewrite set_view_run.
  rewrite !after_writes_compose, src_after_writes, view_after_writes.
  cbn [app]. rewrite app_nil_r.
  split; [reflexivity|]. now exists (src s), g.
Qed.

Lemma persist_loop_runs repositoryId total commits : forall (s : State View) i,
  (forall j, (gateway_calls s <= j)%nat -> gateway_rejects j = None) ->
  exists filess g p,
    Eff.for_each commits i (persist_commit repositoryId total) s
    = (Ok tt, after_writes (flat_map (commit_writes repositoryId) (combine commits filess)) g
                           (with_progress p (view s)) s) /\
    Forall2 generated_for commits filess.
Proof.
  induction commits as [|c commits IH]; intros s i Hres.
  - exists [], (src s), (progress (view s)). split; [|constructor].
    simpl. unfold Eff.ret. now rewrite with_progress_same, after_writes_nil.
  - destruct (persist_commit_runs repositoryId total i c s Hres)
      as (files & g1 & p1 & E1 & Hgen).
    destruct (IH (after_writes (commit_writes repositoryId (c, files)) g1
                               (with_progress p1 (view s)) s) (S i))
      as (filess & g2 & p2 & E2 & Hgens).
    { intros j Hj. apply Hres. rewrite gateway_calls_after_writes in Hj. lia. }
    exists (files :: filess), g2, p2. split; [|constructor; assumption].
    simpl Eff.for_each. rewrite (bind_Ok _ _ _ _ _ E1), E2.
    rewrite after_writes_compose, view_after_writes. reflexivity.
Qed.

(** A complete run of the [try] block, with where its commits and files
    come from. *)
Lemma analyze_runs url (s : State View) p uid :
  parseGitHubUrl (trim url) = Ok p ->
  auth_me_id = Ok uid ->
  (forall j, (gateway_calls s <= j)%nat -> gateway_rejects j = None) ->
  exists repositoryId commits filess g,
    analyze url s
    = (Ok tt,
       after_writes
         (intake_writes (new_repository_row repositoryId uid p (trim url)) commits filess) g
         (mkView true 100 (lit "Analysis complete!") []
            (toasts (view s) ++ [complete_toast p 10])
            (analyzed (view s) ++ [final_repository repositoryId p (trim url) 10])) s) /\
    (exists g0 g1, simulateCommitData (repo p) (owner p) g0 = (Ok commits, g1)) /\
    Forall2 generated_for commits filess.
Proof.
  intros Hp Hu Hres.
  destruct (Date_now_Ok HE (src s)) as (t & Et & _).
  destruct (Math_random_Ok (next_now (src s))) as (r & Er).
  set (repositoryId := lit "repo_" ++ dec t ++ lit "_" ++ substr 2 9 (toString36 r)).
  destruct (simulateCommitData_Ok HE (repo p) (owner p) (next_random (next_now (src s))))
    as (commits & g1 & Ec & Hlen & _).
  assert (Hwrites : exists filess g' p',
    Eff.for_each commits 0 (persist_commit repositoryId (length commits))
      (after_writes ([] ++ [CreateRepository (new_repository_row repositoryId uid p (trim url))])
         g1
         (with_progress 60
            (mkView true 40 (lit "Processing commits and generating diffs...") []
               (toasts (view s)) (analyzed (view s)))) s)
    = (Ok tt,
       after_writes
         (([] ++ [CreateRepository (new_repository_row repositoryId uid p (trim url))])
          ++ flat_map (commit_writes repositoryId) (combine commits filess))
         g' (with_progress p'
               (with_progress 60
                  (mkView true 40 (lit "Processing commits and generating diffs...") []
                     (toasts (view s)) (analyzed (view s))))) s) /\
    Forall2 generated_for commits filess).
  { match goal with |- context [Eff.for_each _ _ _ ?s0] =>
      destruct (persist_loop_runs repositoryId (length commits) commits s0 0)
        as (filess & g' & p' & E & Hgen) end.
    { intros j Hj. apply Hres. rewrite gateway_calls_after_writes in Hj. lia. }
    exists filess, g', p'. split; [|exact Hgen].
    rewrite E. now rewrite after_writes_compose. }
  destruct Hwrites as (filess & g2 & p2 & El & Hgen).
  exists repositoryId, commits, filess, g2.
  split; [|split; [now exists (next_random (next_now (src s))), g1|exact Hgen]].
  rewrite <- (after_writes_nil s) at 1.
  unfold analyze, setAnalyzing, setError, setProgress, setCurrentStep,
    onRepositoryAnalyzed, toast.
  do 4 run_set.
  eapply bind_runs; [rewrite Hp; reflexivity|cbv beta].
  do 2 run_set.
  eapply bind_runs; [apply liftG_on; exact Et|cbv beta].
  eapply bind_runs; [apply liftG_on; exact Er|cbv beta zeta].
  eapply bind_runs; [unfold auth_me; rewrite Hu; reflexivity|cbv beta].
  eapply bind_runs; [apply gateway_write_on; apply Hres; lia|cbv beta].
  do 2 run_set.
  eapply bind_runs; [apply liftG_on; exact Ec|cbv beta].
  do 2 run_set.
  eapply bind_runs; [exact El|cbv beta].
  do 2 run_set.
  eapply bind_runs; [apply gateway_write_on; apply Hres; lia|cbv beta].
  do 3 run_set.
  rewrite set_view_on. unfold intake_writes.
  rewrite <- app_assoc, Hlen. reflexivity.
Qed.

End WithEnv.

Lemma jsstring_eqb_true a b : jsstring_eqb a b = true <-> a = b.
Proof. unfold jsstring_eqb. destruct (list_eq_dec N.eq_dec a b); split; congruence. Qed.

Lemma jsstring_eqb_false a b : jsstring_eqb a b = false <-> a <> b.
Proof. unfold jsstring_eqb. destruct (list_eq_dec N.eq_dec a b); split; congruence. Qed.

Lemma filter_all {A} (P : A -> bool) l : (forall x, In x l -> P x = true) -> filter P l = l.
Proof.
  induction l as [|x l IH]; intros Hl; simpl; [reflexivity|].
  rewrite (Hl x (or_introl eq_refl)), IH; [reflexivity|].
  intros y Hy. apply Hl. now right.
Qed.

Lemma filter_none {A} (P : A -> bool) l : (forall x, In x l -> P x = false) -> filter P l = [].
Proof.
  induction l as [|x l IH]; intros Hl; simpl; [reflexivity|].
  rewrite (Hl x (or_introl eq_refl)), IH; [reflexivity|].
  intros y Hy. apply Hl. now right.
Qed.

(** The file rows of a commit id that no commit of the list has. *)
Lemma files_of_other commits filess id :
  Forall2 files_fit commits filess ->
  ~ In id (map Commit.id commits) ->
  filter (fun f => jsstring_eqb (CommitFileRow.commit_id f) id)
         (map commit_file_row (concat filess)) = [].
Proof.
  intros Hfit Hid. apply filter_none. intros row Hrow.
  apply in_map_iff in Hrow. destruct Hrow as (f & <- & Hf).
  apply in_concat in Hf. destruct Hf as (files & Hfiles & Hf).
  apply jsstring_eqb_false. cbn [commit_file_row CommitFileRow.commit_id].
  intros Heq. apply Hid. clear Hid.
  induction Hfit as [|c files0 commits filess [_ Hc] _ IH]; [contradiction|].
  destruct Hfiles as [->|Hfiles].
  - left. rewrite <- (Hc f Hf). exact Heq.
  - right. now apply IH.
Qed.

(** With distinct commit ids, the file rows of a commit are the files
    generated for it, in their order. *)
Lemma files_of_commit commits filess :
  Forall2 files_fit commits filess ->
  NoDup (map Commit.id commits) ->
  forall k c files,
    nth_error commits k = Some c -> nth_error filess k = Some files ->
    filter (fun f => jsstring_eqb (CommitFileRow.commit_id f) (Commit.id c))
           (map commit_file_row (concat filess))
    = map commit_file_row files.
Proof.
  induction 1 as [|c0 files0 commits filess [Hn Hc0] Hfit IH]; intros Hnd k c files Hk Hf.
  - destruct k; discriminate.
  - cbn [map] in Hnd. inversion Hnd as [|? ? Hnotin Hnd']; subst.
    cbn [concat]. rewrite map_app, filter_app.
    destruct k as [|k]; cbn in Hk, Hf.
    + inversion Hk; inversion Hf; subst.
      rewrite (files_of_other commits filess (Commit.id c) Hfit Hnotin), app_nil_r.
      apply filter_all. intros row Hrow.
      apply in_map_iff in Hrow. destruct Hrow as (f & <- & Hin).
      apply jsstring_eqb_true. cbn. now apply Hc0.
    + rewrite (IH Hnd' k c files Hk Hf).
      rewrite filter_none; [reflexivity|].
      intros row Hrow. apply in_map_iff in Hrow. destruct Hrow as (f & <- & Hin).
      apply jsstring_eqb_false. cbn. rewrite (Hc0 f Hin).
      intros Heq. apply Hnotin. rewrite Heq.
      apply in_map. eapply nth_error_In. eassumption.
Qed.

Section Stored.
Context `{Env} (HE : EnvOk _).

Local Abbreviation generated_for :=
  (fun (c : Commit.t) (files : list CommitFile.t) =>
     exists g1 g2,
       simulateCommitFiles (Commit.id c) (Commit.filesChanged c) g1 = (Ok files, g2)).

Lemma generated_fit commits filess :
  Forall2 generated_for commits filess -> Forall2 files_fit commits filess.
Proof.
  induction 1 as [|c files commits filess (g1 & g2 & E) _ IH]; constructor; [|exact IH].
  destruct (simulateCommitFiles_Ok HE (Commit.id c) (Commit.filesChanged c) g1)
    as (files' & g' & E' & Hlen & Hf).
  rewrite E in E'. inversion E'; subst files' g'.
  split; [exact Hlen|]. intros f Hin. now destruct (Hf f Hin).
Qed.

(** What the commits of a run of the commit generator are. *)
Lemma generated_commits rn ow g0 g1 commits :
  simulateCommitData rn ow g0 = (Ok commits, g1) ->
  length commits = 10%nat /\
  NoDup (map Commit.id commits) /\
  map Commit.commitOrder commits = map Z.of_nat (seq 1 10) /\
  Forall (fun c => 1 <= Commit.filesChanged c <= 10 /\
                   10 <= Commit.additions c /\ 1 <= Commit.deletions c) commits.
Proof.
  intros E.
  destruct (simulateCommitData_shape HE rn ow g0) as (commits1 & E1 & _ & Hs).
  destruct (simulateCommitData_Ok HE rn ow g0) as (commits2 & g2 & E2 & Hlen & Hc).
  rewrite E in E1, E2. inversion E1; inversion E2; subst.
  split; [exact Hlen|]. split; [|split].
  - apply NoDup_by_index. intros k k' c c' Hk Hk' Hid.
    destruct (Hs k c Hk) as (Ec & _). destruct (Hs k' c' Hk') as (Ec' & _).
    rewrite Ec, Ec' in Hid. now apply stamped_id_inj in Hid.
  - rewrite <- Hlen. apply map_by_index. intros k c Hk.
    destruct (Hc k c Hk) as (_ & Ho & _). rewrite Ho. lia.
  - apply Forall_forall. intros c Hin. apply In_nth_error in Hin. destruct Hin as [k Hk].
    destruct (Hc k c Hk) as (_ & _ & _ & Hf & Ha & Hd). lia.
Qed.

(** A complete intake: the final state, and the rows it added. *)
Lemma intake_stored url (s : State View) p uid :
  parseGitHubUrl (trim url) = Ok p ->
  auth_me_id = Ok uid ->
  (forall j, (gateway_calls s <= j)%nat -> gateway_rejects j = None) ->
  exists repositoryId commits filess s',
    analyzeRepository url s = (Ok tt, s') /\
    view s' = mkView false 0 [] []
                (toasts (view s) ++ [complete_toast p 10])
                (analyzed (view s) ++ [final_repository repositoryId p (trim url) 10]) /\
    (gateway_calls s <= gateway_calls s')%nat /\
    Store.commits (store s')
    = Store.commits (store s) ++ map (commit_row repositoryId) commits /\
    Store.commit_files (store s')
    = Store.commit_files (store s) ++ map commit_file_row (concat filess) /\
    (exists g0 g1, simulateCommitData (repo p) (owner p) g0 = (Ok commits, g1)) /\
    Forall2 generated_for commits filess.
Proof.
  intros Hp Hu Hres.
  destruct (analyze_runs HE url s p uid Hp Hu Hres)
    as (repositoryId & commits & filess & g & E & Hc & Hgen).
  assert (Hl : length filess = length commits).
  { symmetry. eapply Forall2_length. exact Hgen. }
  exists repositoryId, commits, filess,
    (after_writes
       (intake_writes (new_repository_row repositoryId uid p (trim url)) commits filess) g
       (mkView false 0 [] []
          (toasts (view s) ++ [complete_toast p 10])
          (analyzed (view s) ++ [final_repository repositoryId p (trim url) 10])) s).
  split.
  { unfold analyzeRepository. destruct (trim url) as [|c u] eqn:Eu.
    - discriminate Hp.
    - unfold Eff.try_catch_finally. rewrite E. reflexivity. }
  split; [reflexivity|]. split; [rewrite gateway_calls_after_writes; lia|].
  rewrite store_after_writes. unfold intake_writes.
  rewrite !replay_app. cbn [RepositoryRow.id new_repository_row].
  rewrite replay_commits by exact Hl.
  cbn [replay fold_left apply_write Store.repositories Store.commits Store.commit_files
       Store.lessons].
  repeat split; try assumption.
Qed.

(** X10: After a complete intake the rows added hang together.  The repository
    handed over counts the commit rows added, and each of them carries its
    id.  The commit rows have distinct ids.  Every file row added belongs to
    one of them, and each commit row has as many file rows among those added
    as its [files_changed] says. *)
Theorem intake_integrity url (s : State View) p uid :
  parseGitHubUrl (trim url) = Ok p ->
  auth_me_id = Ok uid ->
  (forall j, (gateway_calls s <= j)%nat -> gateway_rejects j = None) ->
  exists repo added added_files s',
    analyzeRepository url s = (Ok tt, s') /\
    analyzed (view s') = analyzed (view s) ++ [repo] /\
    Store.commits (store s') = Store.commits (store s) ++ added /\
    Store.commit_files (store s') = Store.commit_files (store s) ++ added_files /\
    Repository.totalCommits repo = Z.of_nat (length added) /\
    Forall (fun c => CommitRow.repository_id c = Repository.id repo) added /\
    NoDup (map CommitRow.id added) /\
    Forall (fun f => In (CommitFileRow.commit_id f) (map CommitRow.id added)) added_files /\
    Forall (fun c =>
      Z.of_nat (length (filter (fun f => jsstring_eqb (CommitFileRow.commit_id f)
                                                       (CommitRow.id c)) added_files))
      = CommitRow.files_changed c) added.
Proof.
  intros Hp Hu Hres.
  destruct (intake_stored url s p uid Hp Hu Hres)
    as (repositoryId & commits & filess & s' & E & Hv & _ & Hc & Hf & (g0 & g1 & Eg) & Hgen).
  destruct (generated_commits _ _ _ _ _ Eg) as (Hlen & Hnd & _ & Hb).
  pose proof (generated_fit _ _ Hgen) as Hfit.
  exists (final_repository repositoryId p (trim url) 10),
    (map (commit_row repositoryId) commits), (map commit_file_row (concat filess)), s'.
  split; [exact E|]. split; [now rewrite Hv|]. split; [exact Hc|]. split; [exact Hf|].
  split; [now rewrite length_map, Hlen|].
  split; [apply Forall_forall; intros row Hrow; apply in_map_iff in Hrow;
          destruct Hrow as (c & <- & _); reflexivity|].
  rewrite map_map. cbn [commit_row CommitRow.id].
  split; [exact Hnd|]. split.
  - apply Forall_forall. intros row Hrow.
    apply in_map_iff in Hrow. destruct Hrow as (f & <- & Hin).
    apply in_concat in Hin. destruct Hin as (files & Hfiles & Hin).
    cbn [commit_file_row CommitFileRow.commit_id].
    apply In_nth_error in Hfiles. destruct Hfiles as [k Hk].
    clear - Hfit Hk Hin. revert k Hk.
    induction Hfit as [|c files0 commits filess [_ Hc0] _ IH]; intros k Hk.
    + destruct k; discriminate.
    + destruct k as [|k]; cbn in Hk.
      * inversion Hk; subst. left. symmetry. now apply Hc0.
      * right. eapply IH. exact Hk.
  - apply Forall_forall. intros row Hrow.
    apply in_map_iff in Hrow. destruct Hrow as (c & <- & Hin).
    apply In_nth_error in Hin. destruct Hin as [k Hk].
    destruct (nth_error filess k) as [files|] eqn:Ek.
    2:{ apply nth_error_None in Ek.
        assert (length filess = length commits)
          by (symmetry; eapply Forall2_length; exact Hfit).
        assert (k < length commits)%nat by (apply nth_error_Some; congruence). lia. }
    cbn [commit_row CommitRow.id CommitRow.files_changed].
    rewrite (files_of_commit commits filess Hfit Hnd k c files Hk Ek), length_map.
    assert (Hn : length files = Z.to_nat (Commit.filesChanged c)).
    { clear - Hfit Hk Ek. revert k Hk Ek.
      induction Hfit as [|c0 files0 commits filess [Hn _] _ IH]; intros k Hk Ek.
      - destruct k; discriminate.
      - destruct k as [|k]; cbn in Hk, Ek.
        + inversion Hk; inversion Ek; subst. exact Hn.
        + eapply IH; eassumption. }
    rewrite Hn. pose proof (proj1 (Forall_forall _ _) Hb c (nth_error_In _ _ Hk)) as Hc1.
    cbv beta in Hc1. lia.
Qed.



End Stored.

Lemma intake_integrity_witness :
  EnvOk Demo.env /\
  parseGitHubUrl (trim Demo.acme_widgets) = Ok {| owner := lit "acme"; repo := lit "widgets" |} /\
  @auth_me_id Demo.env = Ok (lit "user_1") /\
  (forall j, (0 <= j)%nat -> @gateway_rejects Demo.env j = None) /\
  exists handed added added_files s',
    @analyzeRepository Demo.env Demo.acme_widgets (Demo.state0 initial_view) = (Ok tt, s') /\
    analyzed (view s') = [handed] /\
    Store.commits (store s') = added /\
    Store.commit_files (store s') = added_files /\
    Repository.totalCommits handed = Z.of_nat (length added) /\
    Forall (fun c => CommitRow.repository_id c = Repository.id handed) added /\
    NoDup (map CommitRow.id added) /\
    Forall (fun f => In (CommitFileRow.commit_id f) (map CommitRow.id added)) added_files /\
    Forall (fun c =>
      Z.of_nat (length (filter (fun f => jsstring_eqb (CommitFileRow.commit_id f)
                                                       (CommitRow.id c)) added_files))
      = CommitRow.files_changed c) added.
Proof.
  split; [exact demo_env_ok|]. split; [reflexivity|]. split; [reflexivity|].
  split; [intros j _; reflexivity|].
  exact (@intake_integrity Demo.env demo_env_ok Demo.acme_widgets (Demo.state0 initial_view)
           {| owner := lit "acme"; repo := lit "widgets" |} (lit "user_1")
           eq_refl eq_refl (fun j _ => eq_refl)).
Defined.


End IntakeIntegrity.

(** ** App: the timeline of a repository *)

Module AppFacts.
Import Trace RepositoryAnalyzer Generator GeneratorFacts EffFacts UrlParser FlowFacts.
Import IntakeIntegrity IntakeEdges App.

Lemma num_or_zero n : LessonPanel.num_or n 0 = n.
Proof. unfold LessonPanel.num_or. destruct (Z.eqb_spec n 0); congruence. Qed.

(** A list in ascending order of a key that is strictly ascending on a
    permutation of it is that permutation. *)
Lemma sorted_permutation_eq {A} (key : A -> Z) (l : list A) : forall l',
  Permutation l' l ->
  StronglySorted (fun a b => key a <= key b) l' ->
  StronglySorted (fun a b => key a < key b) l ->
  l' = l.
Proof.
  induction l as [|x l IH]; intros l' Hp Hs' Hs.
  - now apply Permutation_nil, Permutation_sym.
  - destruct l' as [|y l'].
    { apply Permutation_length in Hp. discriminate. }
    apply StronglySorted_inv in Hs. destruct Hs as [Hs Hx].
    apply StronglySorted_inv in Hs'. destruct Hs' as [Hs' Hy].
    assert (Hyx : y = x).
    { assert (Hin : In y (x :: l)) by (eapply Permutation_in; [exact Hp|now left]).
      destruct Hin as [Hin|Hin]; [now symmetry|].
      assert (Hlt : key x < key y) by (rewrite Forall_forall in Hx; now apply Hx).
      assert (Hin' : In x (y :: l'))
        by (eapply Permutation_in; [apply Permutation_sym; exact Hp|now left]).
      destruct Hin' as [Hin'|Hin']; [now symmetry|].
      assert (Hle : key y <= key x) by (rewrite Forall_forall in Hy; now apply Hy).
      lia. }
    subst y. f_equal. apply IH; try assumption.
    eapply Permutation_cons_inv. exact Hp.
Qed.

Lemma ascending_keys {A} (key : A -> Z) (l : list A) : forall a,
  map key l = map Z.of_nat (seq a (length l)) ->
  StronglySorted (fun x y => key x < key y) l.
Proof.
  induction l as [|x l IH]; intros a Hk; [constructor|].
  cbn in Hk. inversion Hk as [[Hx Hl]]. constructor; [now apply (IH (S a))|].
  apply Forall_forall. intros y Hy.
  apply In_nth_error in Hy. destruct Hy as [k Hy].
  assert (Hlt : (k < length l)%nat) by (apply nth_error_Some; congruence).
  apply (map_nth_error key) in Hy. rewrite Hl in Hy.
  rewrite nth_error_map in Hy.
  rewrite (nth_error_nth' _ 0%nat) in Hy by (rewrite length_seq; exact Hlt).
  rewrite seq_nth in Hy by exact Hlt. cbn in Hy. inversion Hy. lia.
Qed.

Lemma insert_row_permutes c l : Permutation (Scenario.insert_row c l) (c :: l).
Proof.
  induction l as [|x l IH]; simpl; [apply Permutation_refl|].
  destruct (CommitRow.commit_order c <=? CommitRow.commit_order x).
  - apply Permutation_refl.
  - eapply Permutation_trans; [apply perm_skip, IH|apply perm_swap].
Qed.

Lemma insert_row_sorted c l :
  StronglySorted (fun a b => CommitRow.commit_order a <= CommitRow.commit_order b) l ->
  StronglySorted (fun a b => CommitRow.commit_order a <= CommitRow.commit_order b)
                 (Scenario.insert_row c l).
Proof.
  induction 1 as [|x l Hs IH Hx]; simpl; [repeat constructor|].
  destruct (Z.leb_spec (CommitRow.commit_order c) (CommitRow.commit_order x)) as [Hle|Hgt].
  - constructor; [now constructor|].
    constructor; [exact Hle|].
    apply Forall_forall. intros y Hy. rewrite Forall_forall in Hx.
    specialize (Hx y Hy). lia.
  - constructor; [exact IH|].
    eapply Permutation_Forall; [apply Permutation_sym, insert_row_permutes|].
    constructor; [lia|exact Hx].
Qed.

Lemma demo_ordering_ok : OrderingOk Scenario.ordering.
Proof.
  split; intros rows; cbn [commits_order_asc Scenario.ordering]; unfold Scenario.sort_rows.
  - induction rows as [|c rows IH]; simpl; [constructor|].
    eapply Permutation_trans; [apply insert_row_permutes|now apply perm_skip].
  - induction rows as [|c rows IH]; simpl; [constructor|].
    now apply insert_row_sorted.
Qed.

Section WithEnv.
Context `{Env} `{Ordering} (HE : EnvOk _) (HO : OrderingOk _).

(** The commit rows of a repository all of whose rows were written from
    [commits], with ascending orders, are listed in the order of [commits]. *)
Lemma commits_of_new_repository repositoryId commits (rows : list CommitRow.t) st :
  map Commit.commitOrder commits = map Z.of_nat (seq 1 (length commits)) ->
  (forall c, In c rows -> CommitRow.repository_id c <> repositoryId) ->
  Store.commits st = rows ++ map (commit_row repositoryId) commits ->
  commits_of_repository repositoryId st = map (commit_row repositoryId) commits.
Proof.
  intros Hord Hfresh Hst. unfold commits_of_repository. rewrite Hst.
  rewrite filter_app.
  rewrite (filter_none _ rows)
    by (intros c Hc; apply jsstring_eqb_false; now apply Hfresh).
  rewrite filter_all
    by (intros row Hrow; apply in_map_iff in Hrow; destruct Hrow as (c & <- & _);
        apply jsstring_eqb_refl).
  cbn [app].
  apply (sorted_permutation_eq CommitRow.commit_order).
  - apply (order_asc_permutes HO).
  - apply (order_asc_sorted HO).
  - apply (ascending_keys _ _ 1%nat). rewrite map_map, length_map. exact Hord.
Qed.

(** The entry made of the row of a generated commit. *)
Lemma format_commit_row repositoryId c :
  format_commit (commit_row repositoryId c)
  = {| ListedCommit.id := Commit.id c;
       ListedCommit.sha := Commit.sha c;
       ListedCommit.message := Commit.message c;
       ListedCommit.authorName :=
         match listed_keys snake_case with
         | snake_case => Some (Commit.authorName c)
         | camelCase => None
         end;
       ListedCommit.authorEmail :=
         match listed_keys snake_case with
         | snake_case => Some (Commit.authorEmail c)
         | camelCase => None
         end;
       ListedCommit.date := Commit.date c;
       ListedCommit.filesChanged :=
         match listed_keys snake_case with
         | snake_case => Commit.filesChanged c
         | camelCase => 0
         end;
       ListedCommit.additions := Commit.additions c;
       ListedCommit.deletions := Commit.deletions c;
       ListedCommit.commitOrder :=
         match listed_keys snake_case with
         | snake_case => Some (Commit.commitOrder c)
         | camelCase => None
         end |}.
Proof.
  unfold format_commit, commit_row, listed.
  cbn [CommitRow.id CommitRow.sha CommitRow.message CommitRow.author_name
       CommitRow.author_email CommitRow.date CommitRow.files_changed CommitRow.additions
       CommitRow.deletions CommitRow.commit_order].
  rewrite !num_or_zero.
  destruct (listed_keys snake_case); cbn [spelling_eqb LessonPanel.undefined_or_num];
    now rewrite ?num_or_zero.
Qed.

(** X11: After a complete intake, the page shows the repository handed over
    with a timeline of ten entries, one for each commit the generator made,
    in the order 1 to 10; the first entry is the one selected and passed to
    the code viewer and the lesson panel.  An entry has the [id], [sha],
    [message], [date], [additions] and [deletions] of its commit.  Its
    [authorName], [authorEmail], [filesChanged] and [commitOrder] are read
    from the listed row under the keys [author_name], [author_email],
    [files_changed] and [commit_order]: they are those of the commit when
    the gateway lists the row under the keys it was written with, and
    [undefined], [undefined], 0 and [undefined] when it lists it under
    camelCase keys.  This holds when no commit row written before the intake
    carries the id of the new repository. *)
Theorem timeline_after_intake url (s : State RepositoryAnalyzer.View) p uid (v : App.View) :
  parseGitHubUrl (trim url) = Ok p ->
  auth_me_id = Ok uid ->
  (forall j, (gateway_calls s <= j)%nat -> gateway_rejects j = None) ->
  let entry_of c :=
    {| ListedCommit.id := Commit.id c;
       ListedCommit.sha := Commit.sha c;
       ListedCommit.message := Commit.message c;
       ListedCommit.authorName :=
         match listed_keys snake_case with
         | snake_case => Some (Commit.authorName c)
         | camelCase => None
         end;
       ListedCommit.authorEmail :=
         match listed_keys snake_case with
         | snake_case => Some (Commit.authorEmail c)
         | camelCase => None
         end;
       ListedCommit.date := Commit.date c;
       ListedCommit.filesChanged :=
         match listed_keys snake_case with
         | snake_case => Commit.filesChanged c
         | camelCase => 0
         end;
       ListedCommit.additions := Commit.additions c;
       ListedCommit.deletions := Commit.deletions c;
       ListedCommit.commitOrder :=
         match listed_keys snake_case with
         | snake_case => Some (Commit.commitOrder c)
         | camelCase => None
         end |} in
  exists handed commits g1 s1,
    analyzeRepository url s = (Ok tt, s1) /\
    analyzed (view s1) = analyzed (view s) ++ [handed] /\
    simulateCommitData (repo p) (owner p) (next_random (next_now (src s))) = (Ok commits, g1) /\
    map Commit.commitOrder commits = map Z.of_nat (seq 1 10) /\
    ((forall c, In c (Store.commits (store s)) ->
                CommitRow.repository_id c <> Repository.id handed) ->
     exists s2,
       handleRepositoryAnalyzed handed (hand_over s1 v) = (Ok tt, s2) /\
       store s2 = store s1 /\
       view s2 = App.mkView (Some handed) (map entry_of commits)
                   (hd_error (map entry_of commits)) (console v) /\
       shows_timeline (view s2) = true /\
       viewed_commit (view s2) = hd_error (map entry_of commits)).
Proof.
  intros Hp Hu Hres entry_of.
  pose proof (intake_run HE url s p uid Hp Hu Hres) as Hrun. cbv zeta in Hrun.
  destruct Hrun as (commits & g1 & filess & s1 & Eg & _ & E & Hv & Hcalls & Hc & _).
  destruct (generated_commits HE _ _ _ _ _ Eg) as (Hlen & _ & Hord & _).
  set (repositoryId := lit "repo_" ++ dec (now_values (now_calls (src s))) ++ lit "_"
                       ++ substr 2 9 (toString36 (random_values (random_calls (src s)))))
    in Hv, Hc.
  exists (final_repository repositoryId p (trim url) 10), commits, g1, s1.
  split; [exact E|]. split; [now rewrite Hv|]. split; [exact Eg|].
  split; [exact Hord|].
  cbn [final_repository Repository.id]. intros Hfresh.
  assert (Hrows : map format_commit (commits_of_repository repositoryId (store s1))
                  = map entry_of commits).
  { rewrite (commits_of_new_repository repositoryId commits (Store.commits (store s)));
      [|now rewrite Hlen|exact Hfresh|exact Hc].
    rewrite map_map. apply map_ext. intros c. apply format_commit_row. }
  assert (Hn : gateway_rejects (gateway_calls s1) = None) by (apply Hres; exact Hcalls).
  assert (Hne : exists first rest, map entry_of commits = first :: rest).
  { destruct commits as [|c0 rest]; [discriminate Hlen|].
    now exists (entry_of c0), (map entry_of rest). }
  destruct Hne as (first & rest & Hne).
  eexists. split.
  { unfold handleRepositoryAnalyzed, loadCommits, Eff.try_catch_finally, Eff.bind,
      setRepository, setCommits, setSelectedCommit, set_view, Eff.modify, gateway_list,
      hand_over, Eff.ret.
    cbn [src gateway_calls store log view Repository.id final_repository].
    rewrite Hn. cbv zeta. rewrite Hrows, Hne. reflexivity. }
  cbn [store view]. rewrite Hne.
  unfold shows_timeline, viewed_commit, shows_timeline.
  cbn [App.repository App.commits App.selectedCommit hd_error length Nat.ltb Nat.leb].
  repeat split.
Qed.

(** X12: When the gateway rejects the call that lists the commits, the page
    shows the repository with the commits it had before, and the rejection
    goes to the console only.  On a page that had no commits, a repository
    handed over as [completed] is then shown with the card
    [No Commits Found], whatever commit rows the store holds for it. *)
Theorem handleRepositoryAnalyzed_list_rejected handed (s : State App.View) e :
  gateway_rejects (gateway_calls s) = Some e ->
  exists s',
    handleRepositoryAnalyzed handed s = (Ok tt, s') /\
    store s' = store s /\ log s' = log s /\
    view s' = App.mkView (Some handed) (commits (view s)) (selectedCommit (view s))
                (console (view s) ++ [e]) /\
    (commits (view s) = [] -> Repository.analysisStatus handed = lit "completed" ->
     shows_no_commits (view s') = true /\ shows_timeline (view s') = false /\
     viewed_commit (view s') = None).
Proof.
  intros He. eexists. split.
  { unfold handleRepositoryAnalyzed, loadCommits, Eff.try_catch_finally, Eff.bind,
      setRepository, setCommits, setSelectedCommit, console_error, set_view, Eff.modify,
      gateway_list, Eff.ret.
    cbn [src gateway_calls store log view]. rewrite He. reflexivity. }
  cbn [store log view]. split; [reflexivity|]. split; [reflexivity|].
  split; [reflexivity|]. intros Hc Hst.
  unfold shows_no_commits, viewed_commit, shows_timeline.
  cbn [repository commits selectedCommit]. rewrite Hc, Hst. repeat split.
Qed.

End WithEnv.

Lemma timeline_after_intake_witness :
  EnvOk Demo.env /\ OrderingOk Scenario.ordering /\
  parseGitHubUrl (trim Demo.acme_widgets) = Ok {| owner := lit "acme"; repo := lit "widgets" |} /\
  @auth_me_id Demo.env = Ok (lit "user_1") /\
  (forall j, (0 <= j)%nat -> @gateway_rejects Demo.env j = None) /\
  @listed_keys Demo.env snake_case = camelCase /\
  exists handed commits g1 s1 s2,
    @analyzeRepository Demo.env Demo.acme_widgets
      (Demo.state0 RepositoryAnalyzer.initial_view) = (Ok tt, s1) /\
    @simulateCommitData Demo.env (lit "widgets") (lit "acme")
      {| random_calls := 1; now_calls := 1 |} = (Ok commits, g1) /\
    map Commit.commitOrder commits = map Z.of_nat (seq 1 10) /\
    @handleRepositoryAnalyzed Demo.env Scenario.ordering handed (hand_over s1 App.initial_view)
    = (Ok tt, s2) /\
    shows_timeline (view s2) = true /\
    viewed_commit (view s2) = hd_error (App.commits (view s2)) /\
    map ListedCommit.id (App.commits (view s2)) = map Commit.id commits /\
    map ListedCommit.message (App.commits (view s2)) = map Commit.message commits /\
    Forall (fun e => ListedCommit.authorName e = None /\
                     ListedCommit.authorEmail e = None /\
                     ListedCommit.filesChanged e = 0 /\
                     ListedCommit.commitOrder e = None) (App.commits (view s2)).
Proof.
  split; [exact demo_env_ok|]. split; [exact demo_ordering_ok|].
  split; [reflexivity|]. split; [reflexivity|]. split; [intros j _; reflexivity|].
  split; [reflexivity|].
  pose proof (@timeline_after_intake Demo.env Scenario.ordering demo_env_ok demo_ordering_ok
                Demo.acme_widgets (Demo.state0 RepositoryAnalyzer.initial_view)
                {| owner := lit "acme"; repo := lit "widgets" |} (lit "user_1") App.initial_view
                eq_refl eq_refl (fun j _ => eq_refl)) as Hrun.
  cbv zeta in Hrun.
  destruct Hrun as (handed & commits & g1 & s1 & E & _ & Eg & Hord & Hshow).
  destruct Hshow as (s2 & E2 & _ & Hv & Hs & Hc); [intros c []|].
  exists handed, commits, g1, s1, s2.
  split; [exact E|]. split; [exact Eg|]. split; [exact Hord|]. split; [exact E2|].
  split; [exact Hs|]. rewrite Hc, Hv. cbn [App.commits].
  split; [reflexivity|]. rewrite !map_map. cbn [ListedCommit.id ListedCommit.message].
  split; [reflexivity|]. split; [reflexivity|].
  apply Forall_forall. intros e He. apply in_map_iff in He.
  destruct He as (c & <- & _). repeat split.
Defined.

Lemma handleRepositoryAnalyzed_list_rejected_witness :
  @gateway_rejects (Demo.env_rejecting 0) 0 = Some (Error (lit "Network error")) /\
  exists s',
    let handed := final_repository (lit "repo_1")
                    {| owner := lit "acme"; repo := lit "widgets" |} Demo.acme_widgets 10 in
    @handleRepositoryAnalyzed (Demo.env_rejecting 0) Scenario.ordering handed
      (Demo.state0 App.initial_view) = (Ok tt, s') /\
    view s' = App.mkView (Some handed) [] None [Error (lit "Network error")] /\
    shows_no_commits (view s') = true.
Proof.
  split; [reflexivity|].
  destruct (@handleRepositoryAnalyzed_list_rejected (Demo.env_rejecting 0) Scenario.ordering
              (final_repository (lit "repo_1")
                 {| owner := lit "acme"; repo := lit "widgets" |} Demo.acme_widgets 10)
              (Demo.state0 App.initial_view) (Error (lit "Network error")) eq_refl)
    as (s' & E & _ & _ & Hv & Hn).
  exists s'. cbv zeta. split; [exact E|]. split; [exact Hv|].
  now destruct (Hn eq_refl eq_refl).
Defined.

End AppFacts.

(** ** CodeViewer: the files of a generated commit *)

Module ViewerFacts.
Import Trace RepositoryAnalyzer Generator GeneratorFacts EffFacts UrlParser FlowFacts.
Import IntakeIntegrity FileShape App CodeViewerFiles.

(** With distinct keys, an element is the only one with its key. *)
Lemma filter_own_key {A} (key : A -> jsstring) (l : list A) x :
  NoDup (map key l) -> In x l ->
  filter (fun y => jsstring_eqb (key x) (key y)) l = [x].
Proof.
  induction l as [|a l IH]; intros Hnd Hin; [contradiction|].
  cbn [map] in Hnd. inversion Hnd as [|? ? Hnotin Hnd']; subst. cbn [filter].
  destruct Hin as [->|Hin].
  - rewrite jsstring_eqb_refl. f_equal. apply filter_none.
    intros y Hy. apply jsstring_eqb_false. intros Heq. apply Hnotin.
    rewrite Heq. now apply in_map.
  - assert (Hne : jsstring_eqb (key x) (key a) = false).
    { apply jsstring_eqb_false. intros Heq. apply Hnotin. rewrite <- Heq. now apply in_map. }
    rewrite Hne. now apply IH.
Qed.

Section WithEnv.
Context `{Env} (HE : EnvOk _).

(** X13: After a complete intake, the code viewer opened on a generated commit
    lists the files generated for it, each once: as many entries as the
    [filesChanged] of the commit, the first of them selected, and that one
    alone drawn as selected.  This holds when the gateway lists the rows it
    holds, in any order, and no file row written before the intake carries
    the id of the commit. *)
Theorem files_after_intake url (s : State RepositoryAnalyzer.View) p uid
    (v : CodeViewerFiles.View) :
  parseGitHubUrl (trim url) = Ok p ->
  auth_me_id = Ok uid ->
  (forall j, (gateway_calls s <= j)%nat -> gateway_rejects j = None) ->
  (forall rows, Permutation (commit_files_default_order rows) rows) ->
  exists commits filess s1,
    analyzeRepository url s = (Ok tt, s1) /\
    (exists g0 g1, simulateCommitData (repo p) (owner p) g0 = (Ok commits, g1)) /\
    Forall2 (fun c generated =>
               exists g1 g2,
                 simulateCommitFiles (Commit.id c) (Commit.filesChanged c) g1
                 = (Ok generated, g2)) commits filess /\
    forall k c generated,
      nth_error commits k = Some c -> nth_error filess k = Some generated ->
      (forall f, In f (Store.commit_files (store s)) ->
                 CommitFileRow.commit_id f <> Commit.id c) ->
      exists s2,
        loadCommitFiles c (hand_over s1 v) = (Ok tt, s2) /\
        store s2 = store s1 /\
        Permutation (files (view s2))
                    (map (fun f => format_file (commit_file_row f)) generated) /\
        Z.of_nat (length (files (view s2))) = Commit.filesChanged c /\
        selectedFile (view s2) = hd_error (files (view s2)) /\
        (exists sel, highlighted (view s2) = [sel]) /\
        loading (view s2) = false /\
        toasts (view s2) = toasts v.
Proof.
  intros Hp Hu Hres Horder.
  destruct (intake_stored HE url s p uid Hp Hu Hres)
    as (repositoryId & commits & filess & s1 & E & _ & Hcalls & _ & Hf & (g0 & g1 & Eg) & Hgen).
  destruct (generated_commits HE _ _ _ _ _ Eg) as (_ & Hnd & _ & Hb).
  pose proof (generated_fit HE _ _ Hgen) as Hfit.
  exists commits, filess, s1.
  split; [exact E|]. split; [now exists g0, g1|]. split; [exact Hgen|].
  intros k c generated Hk Hgk Hfresh.
  assert (Hn : gateway_rejects (gateway_calls s1) = None) by (apply Hres; exact Hcalls).
  assert (Hrows : filter (fun f => jsstring_eqb (CommitFileRow.commit_id f) (Commit.id c))
                         (Store.commit_files (store s1))
                  = map commit_file_row generated).
  { rewrite Hf, filter_app.
    rewrite (filter_none _ (Store.commit_files (store s)))
      by (intros f Hin; apply jsstring_eqb_false; now apply Hfresh).
    cbn [app]. now apply (files_of_commit commits filess Hfit Hnd k). }
  set (shown := map format_file (LessonPanel.commit_files_of (Commit.id c) (store s1))).
  assert (Hperm : Permutation shown (map (fun f => format_file (commit_file_row f)) generated)).
  { unfold shown, LessonPanel.commit_files_of. rewrite Hrows, <- (map_map commit_file_row).
    apply Permutation_map, Horder. }
  assert (Hlen : Z.of_nat (length shown) = Commit.filesChanged c).
  { rewrite (Permutation_length Hperm), length_map.
    assert (Hfc : files_fit c generated).
    { clear - Hfit Hk Hgk. revert k Hk Hgk.
      induction Hfit as [|c0 files0 commits filess Hc0 _ IH]; intros k Hk Hgk.
      - destruct k; discriminate.
      - destruct k as [|k]; cbn in Hk, Hgk.
        + inversion Hk; inversion Hgk; subst. exact Hc0.
        + eapply IH; eassumption. }
    destruct Hfc as [Hn' _]. rewrite Hn'.
    pose proof (proj1 (Forall_forall _ _) Hb c (nth_error_In _ _ Hk)) as Hc1.
    cbv beta in Hc1. lia. }
  assert (Hids : NoDup (map FileEntry.id shown)).
  { eapply Permutation_NoDup; [apply Permutation_sym, Permutation_map; exact Hperm|].
    rewrite map_map. cbn [format_file commit_file_row FileEntry.id CommitFileRow.id].
    assert (Hg : exists g1 g2,
               simulateCommitFiles (Commit.id c) (Commit.filesChanged c) g1 = (Ok generated, g2)).
    { clear - Hgen Hk Hgk. revert k Hk Hgk.
      induction Hgen as [|c0 files0 commits filess Hc0 _ IH]; intros k Hk Hgk.
      - destruct k; discriminate.
      - destruct k as [|k]; cbn in Hk, Hgk.
        + inversion Hk; inversion Hgk; subst. exact Hc0.
        + eapply IH; eassumption. }
    destruct Hg as (g1' & g2' & Eg'). eapply generated_files_ids; eassumption. }
  assert (Erun : loadCommitFiles c (hand_over s1 v)
                 = (Ok tt, mkState (src s1) (S (gateway_calls s1)) (store s1) (log s1)
                             (CodeViewerFiles.mkView shown false
                                (match shown with
                                 | first :: _ => Some first
                                 | [] => selectedFile v
                                 end) (toasts v)))).
  { unfold loadCommitFiles, Eff.try_catch_finally, Eff.bind, setLoading, setFiles,
      setSelectedFile, set_view, Eff.modify, gateway_list, hand_over, Eff.ret.
    cbn [src gateway_calls store log view]. rewrite Hn. cbv zeta. fold shown.
    destruct shown; reflexivity. }
  eexists. split; [exact Erun|]. cbn [store view files selectedFile loading toasts].
  split; [reflexivity|]. split; [exact Hperm|]. split; [exact Hlen|].
  destruct shown as [|first rest] eqn:Es.
  { cbn in Hlen. pose proof (proj1 (Forall_forall _ _) Hb c (nth_error_In _ _ Hk)) as Hc1.
    cbv beta in Hc1. lia. }
  split; [reflexivity|]. split; [|split; reflexivity].
  exists first. unfold highlighted. cbn [selectedFile files].
  apply (filter_own_key FileEntry.id (first :: rest) first Hids). now left.
Qed.

End WithEnv.

Lemma files_after_intake_witness :
  EnvOk Demo.env /\
  parseGitHubUrl (trim Demo.acme_widgets) = Ok {| owner := lit "acme"; repo := lit "widgets" |} /\
  @auth_me_id Demo.env = Ok (lit "user_1") /\
  (forall j, (0 <= j)%nat -> @gateway_rejects Demo.env j = None) /\
  (forall rows, Permutation (@commit_files_default_order Demo.env rows) rows) /\
  exists commits (filess : list (list CommitFile.t)) s1,
    @analyzeRepository Demo.env Demo.acme_widgets
      (Demo.state0 RepositoryAnalyzer.initial_view) = (Ok tt, s1) /\
    forall k c generated,
      nth_error commits k = Some c -> nth_error filess k = Some generated ->
      exists s2,
        @loadCommitFiles Demo.env c (hand_over s1 CodeViewerFiles.initial_view) = (Ok tt, s2) /\
        Z.of_nat (length (files (view s2))) = Commit.filesChanged c /\
        selectedFile (view s2) = hd_error (files (view s2)) /\
        (exists sel, highlighted (view s2) = [sel]).
Proof.
  split; [exact demo_env_ok|]. split; [reflexivity|]. split; [reflexivity|].
  split; [intros j _; reflexivity|]. split; [intros rows; apply Permutation_refl|].
  destruct (@files_after_intake Demo.env demo_env_ok Demo.acme_widgets
              (Demo.state0 RepositoryAnalyzer.initial_view)
              {| owner := lit "acme"; repo := lit "widgets" |} (lit "user_1")
              CodeViewerFiles.initial_view
              eq_refl eq_refl (fun j _ => eq_refl) (fun rows => Permutation_refl rows))
    as (commits & filess & s1 & E & _ & _ & Hload).
  exists commits, filess, s1. split; [exact E|].
  intros k c generated Hk Hg.
  destruct (Hload k c generated Hk Hg) as (s2 & E2 & _ & _ & Hlen & Hsel & Hhi & _);
    [intros f []|].
  exists s2. repeat split; assumption.
Defined.

End ViewerFacts.

(** ** CodeViewer: the language shown for a file *)

Module LanguageFacts.
Import Generator GeneratorFacts EffFacts FileShape LineFacts Language.

(** The pieces of a text around a separator: those before it, then those
    after it. *)
Lemma split_pieces sep a b : split sep (a ++ sep :: b) = split sep a ++ split sep b.
Proof.
  induction a as [|c a IH]; cbn [app split].
  - now rewrite N.eqb_refl.
  - rewrite IH. pose proof (split_not_nil sep a) as Hn.
    destruct (c =? sep)%N; [reflexivity|].
    destruct (split sep a); [congruence|reflexivity].
Qed.

Lemma last_of_app {A} (l l' : list A) d : l' <> [] -> last (l ++ l') d = last l' d.
Proof.
  intros Hn. induction l as [|x l IH]; [reflexivity|].
  cbn [app]. destruct (l ++ l') eqn:E; [|exact IH].
  apply app_eq_nil in E. destruct E; congruence.
Qed.

Lemma last_split sep a b :
  last (split sep (a ++ sep :: b)) [] = last (split sep b) [].
Proof. rewrite split_pieces. apply last_of_app, split_not_nil. Qed.

Lemma lowered_has_no_capital s c : In c (toLowerCase s) -> ~ (65 <= c <= 90)%N.
Proof.
  unfold toLowerCase. intros Hin. apply in_map_iff in Hin. destruct Hin as (x & <- & _).
  destruct ((65 <=? x) && (x <=? 90))%N eqn:E.
  - apply andb_prop in E. destruct E as [E1 E2].
    apply N.leb_le in E1, E2. lia.
  - intros [H1 H2]. apply N.leb_le in H1, H2. rewrite H1, H2 in E. discriminate.
Qed.

Lemma is_ascii_last_split sep s : is_ascii s -> is_ascii (last (split sep s) []).
Proof.
  induction s as [|c s IH]; intros Hs; cbn [split].
  - constructor.
  - inversion Hs as [|? ? Hc Hs']; subst. specialize (IH Hs').
    pose proof (split_not_nil sep s) as Hn.
    destruct (c =? sep)%N.
    + destruct (split sep s); [congruence|exact IH].
    + destruct (split sep s) as [|l ls]; [congruence|].
      destruct ls as [|l' ls]; [|exact IH].
      cbn in *. now constructor.
Qed.

Lemma capital_in_key (key : jsstring) :
  existsb (fun c => (65 <=? c) && (c <=? 90))%N key = true ->
  (forall c, In c key -> ~ (65 <= c <= 90)%N) -> False.
Proof.
  intros Hk Hlow. apply existsb_exists in Hk. destruct Hk as (c & Hc & Hcap).
  apply andb_prop in Hcap. destruct Hcap as [H1 H2]. apply N.leb_le in H1, H2.
  now apply (Hlow c Hc).
Qed.

Section WithEngine.
Context `{Engine} (HL : EngineOk _).

Lemma getFileExtension_after_dot stem ext :
  is_ascii ext -> ~ In DOT ext ->
  getFileExtension (stem ++ DOT :: ext) = LessonPanel.str_or (toLowerCase ext) (lit "txt").
Proof.
  intros Ha Hd. unfold getFileExtension.
  rewrite last_split, split_without by exact Hd. cbn [last].
  now rewrite HL.
Qed.

(** X15: The extension of a file name is what follows its last dot, in lower
    case; the whole name when it has no dot; and [txt] when that is empty:
    for an empty name and for one ending in a dot. *)
Theorem getFileExtension_cases :
  (forall name, is_ascii name -> ~ In DOT name ->
     getFileExtension name = LessonPanel.str_or (toLowerCase name) (lit "txt")) /\
  (forall stem ext, is_ascii ext -> ~ In DOT ext ->
     getFileExtension (stem ++ DOT :: ext)
     = LessonPanel.str_or (toLowerCase ext) (lit "txt")) /\
  getFileExtension [] = lit "txt" /\
  (forall stem, getFileExtension (stem ++ [DOT]) = lit "txt").
Proof.
  split; [|split; [exact getFileExtension_after_dot|split]].
  - intros name Ha Hd. unfold getFileExtension.
    rewrite split_without by exact Hd. cbn [last]. now rewrite HL.
  - unfold getFileExtension. cbn [split last]. rewrite HL by constructor. reflexivity.
  - intros stem. rewrite (getFileExtension_after_dot stem []);
      [reflexivity|constructor|intros []].
Qed.

Lemma own_property_value key m v :
  own_property key m = Some v -> In v (map snd m).
Proof.
  induction m as [|[k x] m IH]; cbn; [discriminate|].
  destruct (jsstring_eqb k key); [intros [= ->]; now left|].
  intros Hm. right. now apply IH.
Qed.

(** X16: The label the file list shows for a file.  It is never an empty string.
    It is not a string at all for the two file names whose extension names a
    member that the language table inherits: [constructor] and [__proto__];
    no other inherited member is reached, since the extension is in lower
    case. *)
Theorem language_label filename :
  is_ascii filename ->
  match getLanguageFromExtension (getFileExtension filename) with
  | Name language => language <> []
  | Inherited key => key = lit "constructor" \/ key = lit "__proto__"
  end /\
  (forall stem,
     getLanguageFromExtension (getFileExtension (stem ++ lit ".constructor"))
     = Inherited (lit "constructor")) /\
  (forall stem,
     getLanguageFromExtension (getFileExtension (stem ++ lit ".__proto__"))
     = Inherited (lit "__proto__")).
Proof.
  intros Ha. split; [|split].
  - assert (Hlow : forall c, In c (getFileExtension filename) -> ~ (65 <= c <= 90)%N).
    { unfold getFileExtension. rewrite HL by now apply is_ascii_last_split.
      intros c Hc.
      destruct (toLowerCase (last (split DOT filename) [])) as [|x xs] eqn:E.
      - cbn in Hc.
        repeat (destruct Hc as [<-|Hc]; [intros [H1 H2]; now compute in H1|]).
        contradiction.
      - cbn [LessonPanel.str_or] in Hc. rewrite <- E in Hc.
        eapply lowered_has_no_capital. exact Hc. }
    revert Hlow. generalize (getFileExtension filename) as ext. intros ext Hlow.
    unfold getLanguageFromExtension.
    destruct (own_property ext languageMap) as [language|] eqn:Eo.
    + apply own_property_value in Eo.
      destruct language as [|c l]; [|discriminate].
      exfalso. cbn in Eo.
      repeat (destruct Eo as [Eo|Eo]; [discriminate Eo|]). exact Eo.
    + destruct (existsb (jsstring_eqb ext) object_prototype_keys) eqn:Ek; [|discriminate].
      apply existsb_exists in Ek. destruct Ek as (key & Hkey & Heq).
      apply IntakeIntegrity.jsstring_eqb_true in Heq. subst key.
      cbn in Hkey.
      destruct Hkey as [<-|[<-|Hkey]]; [now left|now right|].
      exfalso.
      repeat (destruct Hkey as [<-|Hkey];
              [eapply capital_in_key; [|exact Hlow]; reflexivity|]).
      exact Hkey.
  - intros stem. change (lit ".constructor") with (DOT :: lit "constructor").
    rewrite getFileExtension_after_dot; [reflexivity| |].
    + repeat constructor.
    + apply absent. reflexivity.
  - intros stem. change (lit ".__proto__") with (DOT :: lit "__proto__").
    rewrite getFileExtension_after_dot; [reflexivity| |].
    + repeat constructor.
    + apply absent. reflexivity.
Qed.

Section WithEnv.
Context `{Env} (HE : EnvOk _).

(** X17: Every file the file generator makes is shown with the language of its
    extension: the label is one of six language names, never the default
    [text] and never an inherited member. *)
Theorem simulateCommitFiles_language commitId filesChanged s :
  exists files s', simulateCommitFiles commitId filesChanged s = (Ok files, s') /\
    Forall (fun f =>
      exists name ext language,
        CommitFile.filename f = name ++ ext /\
        In (ext, language)
           [ (lit ".js", lit "javascript"); (lit ".ts", lit "typescript");
             (lit ".tsx", lit "typescript"); (lit ".css", lit "css");
             (lit ".html", lit "html"); (lit ".md", lit "markdown");
             (lit ".json", lit "json") ] /\
        getLanguageFromExtension (getFileExtension (CommitFile.filename f))
        = Name language) files.
Proof.
  destruct (simulateCommitFiles_turns HE commitId filesChanged s) as (files & s' & E & Hf).
  exists files, s'. split; [exact E|].
  apply Forall_forall. intros f Hin. apply In_nth_error in Hin. destruct Hin as [k Hk].
  destruct (Hf k f Hk) as (s1 & s2 & E1).
  destruct (simulateCommitFile_shape HE commitId k s1)
    as (f0 & ? & E0 & _ & (name & ext & Hn & Hx & Ename) & _).
  rewrite E1 in E0. inversion E0; subst f0. rewrite Ename.
  exists name, ext. cbn in Hx.
  destruct Hx as [<- | [<- | [<- | [<- | [<- | [<- | [<- | []]]]]]]].
  - exists (lit "javascript"). split; [reflexivity|]. split; [cbn; tauto|].
    change (lit ".js") with (DOT :: lit "js").
    rewrite getFileExtension_after_dot;
      [reflexivity|repeat constructor|apply absent; reflexivity].
  - exists (lit "typescript"). split; [reflexivity|]. split; [cbn; tauto|].
    change (lit ".ts") with (DOT :: lit "ts").
    rewrite getFileExtension_after_dot;
      [reflexivity|repeat constructor|apply absent; reflexivity].
  - exists (lit "typescript"). split; [reflexivity|]. split; [cbn; tauto|].
    change (lit ".tsx") with (DOT :: lit "tsx").
    rewrite getFileExtension_after_dot;
      [reflexivity|repeat constructor|apply absent; reflexivity].
  - exists (lit "css"). split; [reflexivity|]. split; [cbn; tauto|].
    change (lit ".css") with (DOT :: lit "css").
    rewrite getFileExtension_after_dot;
      [reflexivity|repeat constructor|apply absent; reflexivity].
  - exists (lit "html"). split; [reflexivity|]. split; [cbn; tauto|].
    change (lit ".html") with (DOT :: lit "html").
    rewrite getFileExtension_after_dot;
      [reflexivity|repeat constructor|apply absent; reflexivity].
  - exists (lit "markdown"). split; [reflexivity|]. split; [cbn; tauto|].
    change (lit ".md") with (DOT :: lit "md").
    rewrite getFileExtension_after_dot;
      [reflexivity|repeat constructor|apply absent; reflexivity].
  - exists (lit "json"). split; [reflexivity|]. split; [cbn; tauto|].
    change (lit ".json") with (DOT :: lit "json").
    rewrite getFileExtension_after_dot;
      [reflexivity|repeat constructor|apply absent; reflexivity].
Qed.

End WithEnv.

End WithEngine.

Lemma demo_engine_ok : EngineOk Scenario.engine.
Proof. intros s _. reflexivity. Qed.

Lemma getFileExtension_cases_witness :
  EngineOk Scenario.engine /\
  @getFileExtension Scenario.engine (lit "Makefile") = lit "makefile" /\
  @getFileExtension Scenario.engine (lit "archive.tar.GZ") = lit "gz" /\
  @getFileExtension Scenario.engine (lit "notes.") = lit "txt".
Proof.
  split; [exact demo_engine_ok|].
  destruct (@getFileExtension_cases Scenario.engine demo_engine_ok) as (H1 & H2 & _ & H4).
  split; [|split].
  - apply (H1 (lit "Makefile")); [repeat constructor|apply absent; reflexivity].
  - apply (H2 (lit "archive.tar") (lit "GZ")); [repeat constructor|apply absent; reflexivity].
  - apply (H4 (lit "notes")).
Defined.

Lemma language_label_witness :
  EngineOk Scenario.engine /\ is_ascii (lit "index.tsx") /\
  match getLanguageFromExtension (@getFileExtension Scenario.engine (lit "index.tsx")) with
  | Name language => language <> []
  | Inherited key => key = lit "constructor" \/ key = lit "__proto__"
  end.
Proof.
  split; [exact demo_engine_ok|].
  assert (Ha : is_ascii (lit "index.tsx")) by (repeat constructor).
  split; [exact Ha|].
  exact (proj1 (@language_label Scenario.engine demo_engine_ok (lit "index.tsx") Ha)).
Defined.

Lemma simulateCommitFiles_language_witness :
  EngineOk Scenario.engine /\ EnvOk Demo.env /\
  exists files s',
    @simulateCommitFiles Demo.env (lit "commit_1_0") 3 Demo.src0 = (Ok files, s') /\
    Forall (fun f =>
      exists name ext language,
        CommitFile.filename f = name ++ ext /\
        In (ext, language)
           [ (lit ".js", lit "javascript"); (lit ".ts", lit "typescript");
             (lit ".tsx", lit "typescript"); (lit ".css", lit "css");
             (lit ".html", lit "html"); (lit ".md", lit "markdown");
             (lit ".json", lit "json") ] /\
        getLanguageFromExtension (@getFileExtension Scenario.engine (CommitFile.filename f))
        = Name language) files.
Proof.
  split; [exact demo_engine_ok|]. split; [exact demo_env_ok|].
  exact (@simulateCommitFiles_language Scenario.engine demo_engine_ok Demo.env demo_env_ok
           (lit "commit_1_0") 3 Demo.src0).
Defined.

End LanguageFacts.

(** ** LessonPanel: failures and reloads *)

Module LessonFacts.
Import LessonPanel EffFacts LessonPanelFacts.

Section WithEnv.
Context `{Env}.

Lemma str_or_nil s : str_or s [] = s.
Proof. now destruct s. Qed.

Lemma reading_time_bounds text :
  0 < Z.of_nat (length text) ->
  200 * (reading_time text - 1) < Z.of_nat (length text) <= 200 * reading_time text.
Proof.
  intros Hpos. unfold reading_time.
  pose proof (Z.div_mod (Z.of_nat (length text) + 199) 200 ltac:(lia)) as Hd.
  pose proof (Z.mod_pos_bound (Z.of_nat (length text) + 199) 200 ltac:(lia)) as Hm.
  lia.
Qed.

(** The lessons listed for a commit whose only lesson is the last row. *)
Lemma lessons_of_commit_new commit row st :
  (forall rows, Permutation (lessons_default_order rows) rows) ->
  (forall old, In old (Store.lessons st) -> LessonRow.commitId old <> Commit.id commit) ->
  LessonRow.commitId row = Commit.id commit ->
  lessons_of_commit (Commit.id commit) (apply_write (CreateLesson row) st) = [row].
Proof.
  intros Horder Hnone Hrow. unfold lessons_of_commit.
  cbn [apply_write Store.lessons]. rewrite filter_app.
  replace (filter (fun l => jsstring_eqb (LessonRow.commitId l) (Commit.id commit))
                  (Store.lessons st)) with (@nil LessonRow.t).
  - cbn [app filter]. rewrite Hrow.
    unfold jsstring_eqb.
    destruct (list_eq_dec N.eq_dec (Commit.id commit) (Commit.id commit)); [|congruence].
    apply Permutation_length_1_inv, Permutation_sym, Horder.
  - symmetry. induction (Store.lessons st) as [|x l IH]; [reflexivity|].
    cbn [filter]. unfold jsstring_eqb at 1.
    destruct (list_eq_dec N.eq_dec (LessonRow.commitId x) (Commit.id commit)) as [Heq|_].
    + now apply Hnone in Heq; [|left].
    + apply IH. intros old Hold. apply Hnone. now right.
Qed.

(** X18: A lesson is generated for a commit that had none, and the panel
    loads the lesson of the commit again, the gateway resolving its calls
    and listing the rows it holds.  The lesson then displayed has the [id],
    [title], [content], [summary] and [status] of the lesson displayed when
    it was generated.  Its [keyConcepts], [difficultyLevel] and
    [estimatedReadingTime] were written under these keys and are read under
    [key_concepts], [difficulty_level] and [estimated_reading_time]: when
    the gateway lists the row with snake_case keys they are those generated,
    except that an empty text has a reading time of 0 minutes at first and
    of 5 minutes once loaded; when it lists the row with camelCase keys they
    are the defaults: no key concepts, [beginner] and 5 minutes, in place of
    the key concepts generated, [intermediate] and the length of the text
    divided by 200, rounded up. *)
Theorem lesson_round_trip commit (s : State View) text :
  gateway_rejects (gateway_calls s) = None ->
  gateway_rejects (S (gateway_calls s)) = None ->
  gateway_rejects (S (S (gateway_calls s))) = None ->
  ai_generateText (lesson_prompt commit (commit_files_of (Commit.id commit) (store s)))
  = Ok text ->
  (forall rows, Permutation (lessons_default_order rows) rows) ->
  (forall old, In old (Store.lessons (store s)) ->
               LessonRow.commitId old <> Commit.id commit) ->
  exists generated loaded row s1 s2,
    generateLesson commit s = (Ok tt, s1) /\
    Store.lessons (store s1) = Store.lessons (store s) ++ [row] /\
    lesson (view s1) = Some generated /\
    loadLesson commit s1 = (Ok tt, s2) /\
    store s2 = store s1 /\
    lesson (view s2) = Some loaded /\
    Lesson.id loaded = Lesson.id generated /\
    Lesson.title loaded = Lesson.title generated /\
    Lesson.content loaded = text /\
    Lesson.content generated = text /\
    Lesson.summary loaded = Lesson.summary generated /\
    Lesson.status loaded = Lesson.status generated /\
    Lesson.keyConcepts generated = lit "Git, Version Control, Code Analysis" /\
    Lesson.difficultyLevel generated = lit "intermediate" /\
    Lesson.estimatedReadingTime generated = reading_time text /\
    (0 < Z.of_nat (length text) ->
     200 * (reading_time text - 1) < Z.of_nat (length text) <= 200 * reading_time text) /\
    match listed_keys camelCase with
    | snake_case =>
        Lesson.keyConcepts loaded = Lesson.keyConcepts generated /\
        Lesson.difficultyLevel loaded = Lesson.difficultyLevel generated /\
        Lesson.estimatedReadingTime loaded
        = match text with
          | [] => 5
          | _ :: _ => Lesson.estimatedReadingTime generated
          end
    | camelCase =>
        Lesson.keyConcepts loaded = [] /\
        Lesson.difficultyLevel loaded = lit "beginner" /\
        Lesson.estimatedReadingTime loaded = 5
    end.
Proof.
  intros H0 H1 H2 Hai Horder Hnone.
  pose proof (generate_body_runs commit s text H0 H1 Hai) as Eg. cbv zeta in Eg.
  set (row := lesson_row _ commit text) in Eg.
  set (s1 := mkState _ _ _ _ _) in Eg.
  pose proof (load_runs commit s1 H2) as El.
  assert (Hrows : lessons_of_commit (Commit.id commit) (store s1) = [row])
    by (apply lessons_of_commit_new; [exact Horder|exact Hnone|reflexivity]).
  rewrite Hrows in El. cbn [hd_error option_map] in El.
  set (s2 := mkState _ _ _ _ _) in El.
  exists (generated_lesson (LessonRow.id row) commit text), (lesson_of_row row), row, s1, s2.
  split; [exact Eg|]. split; [reflexivity|]. split; [reflexivity|].
  split; [exact El|]. split; [reflexivity|]. split; [reflexivity|].
  split; [reflexivity|]. split; [reflexivity|]. split; [reflexivity|].
  split; [reflexivity|]. split; [apply str_or_nil|]. split; [reflexivity|].
  split; [reflexivity|]. split; [reflexivity|]. split; [reflexivity|].
  split; [apply reading_time_bounds|].
  unfold lesson_of_row, listed.
  cbn [Lesson.keyConcepts Lesson.difficultyLevel Lesson.estimatedReadingTime
       generated_lesson row lesson_row LessonRow.keyConcepts LessonRow.difficultyLevel
       LessonRow.estimatedReadingTime].
  destruct (listed_keys camelCase);
    cbn [spelling_eqb undefined_or_str undefined_or_num]; [|repeat split].
  split; [reflexivity|]. split; [reflexivity|].
  destruct text as [|c text]; [reflexivity|].
  unfold num_or.
  destruct (Z.eqb_spec (reading_time (c :: text)) 0) as [E|]; [|reflexivity].
  pose proof (reading_time_bounds (c :: text)) as Hb. cbn [length] in Hb. lia.
Qed.

(** X19: Generating a lesson never throws to its caller and always ends with the
    panel no longer generating.  It is all or nothing: either one lesson row
    of the commit is appended to the store, that lesson is displayed and the
    success toast shown; or the store and the lesson displayed stay as they
    were and the failure toast is shown.  Nothing is written unless the
    files were listed and the text was generated. *)
Theorem generateLesson_all_or_nothing commit (s : State View) :
  exists s',
    generateLesson commit s = (Ok tt, s') /\
    generating (view s') = false /\
    loading (view s') = loading (view s) /\
    ((exists row,
        gateway_rejects (gateway_calls s) = None /\
        ai_generateText (lesson_prompt commit (commit_files_of (Commit.id commit) (store s)))
        = Ok (LessonRow.content row) /\
        log s' = log s ++ [CreateLesson row] /\
        store s' = apply_write (CreateLesson row) (store s) /\
        LessonRow.commitId row = Commit.id commit /\
        lesson (view s')
        = Some (generated_lesson (LessonRow.id row) commit (LessonRow.content row)) /\
        toasts (view s') = toasts (view s) ++ [generated_toast]) \/
     (log s' = log s /\ store s' = store s /\
      lesson (view s') = lesson (view s) /\
      exists t, toasts (view s') = toasts (view s) ++ [t] /\
                toast_title t = lit "Generation Failed" /\
                toast_variant t = Some (lit "destructive"))).
Proof.
  destruct (gateway_rejects (gateway_calls s)) as [e0|] eqn:H0.
  { eexists. split.
    { unfold generateLesson, Eff.try_catch_finally, Eff.bind, list_commit_files,
        gateway_list, setGenerating, toast, set_view, Eff.modify.
      cbn [src gateway_calls store log view]. rewrite H0. reflexivity. }
    cbn. split; [reflexivity|]. split; [reflexivity|]. right.
    repeat split. eexists. repeat split. }
  destruct (ai_generateText (lesson_prompt commit (commit_files_of (Commit.id commit) (store s))))
    as [text|e1] eqn:Hai.
  2:{ eexists. split.
      { unfold generateLesson, Eff.try_catch_finally, Eff.bind, list_commit_files,
          gateway_list, setGenerating, toast, set_view, Eff.modify, Eff.of_result.
        cbn [src gateway_calls store log view]. rewrite H0. cbn [store]. rewrite Hai.
        reflexivity. }
      cbn. split; [reflexivity|]. split; [reflexivity|]. right.
      repeat split. eexists. repeat split. }
  destruct (gateway_rejects (S (gateway_calls s))) as [e2|] eqn:H1.
  { eexists. split.
    { unfold generateLesson, Eff.try_catch_finally.
      match goal with
      | |- (let '(r1, s1) := match ?body with _ => _ end in _) = _ =>
          assert (Eb : body
                       = (Throw e2,
                          mkState (next_random (next_now (src s))) (S (S (gateway_calls s)))
                            (store s) (log s)
                            (mkView (lesson (view s)) (loading (view s)) true
                                    (toasts (view s)))))
      end.
      { eapply bind_runs; [reflexivity|cbv beta].
        eapply bind_runs; [apply gateway_list_resolves; exact H0|cbv beta].
        eapply bind_runs; [cbn [store]; rewrite Hai; reflexivity|cbv beta].
        eapply bind_runs; [reflexivity|cbv beta].
        eapply bind_runs; [reflexivity|cbv beta zeta].
        apply IntakeEdges.bind_throws. unfold create_lesson.
        apply IntakeEdges.bind_throws. unfold gateway_write.
        cbn [gateway_calls]. rewrite H1. reflexivity. }
      rewrite Eb. reflexivity. }
    cbn. split; [reflexivity|]. split; [reflexivity|]. right.
    repeat split. eexists. repeat split. }
  pose proof (generate_body_runs commit s text H0 H1 Hai) as Eg. cbv zeta in Eg.
  eexists. split; [exact Eg|]. cbn [view store log generating loading lesson toasts].
  split; [reflexivity|]. split; [reflexivity|]. left.
  exists (lesson_row (lesson_id (now_values (now_calls (src s)))
                                (random_values (random_calls (src s)))) commit text).
  repeat split.
Qed.


End WithEnv.

Lemma lesson_round_trip_witness :
  @gateway_rejects Demo.env 0 = None /\
  @gateway_rejects Demo.env 1 = None /\
  @gateway_rejects Demo.env 2 = None /\
  (forall rows, Permutation (@lessons_default_order Demo.env rows) rows) /\
  @listed_keys Demo.env camelCase = camelCase /\
  exists generated loaded s1 s2,
    @generateLesson Demo.env Demo.commit0 (Demo.state0 initial_view) = (Ok tt, s1) /\
    lesson (view s1) = Some generated /\
    @loadLesson Demo.env Demo.commit0 s1 = (Ok tt, s2) /\
    lesson (view s2) = Some loaded /\
    Lesson.id loaded = Lesson.id generated /\
    Lesson.content loaded = lit "A lesson." /\
    Lesson.keyConcepts generated = lit "Git, Version Control, Code Analysis" /\
    Lesson.keyConcepts loaded = [] /\
    Lesson.difficultyLevel generated = lit "intermediate" /\
    Lesson.difficultyLevel loaded = lit "beginner" /\
    Lesson.estimatedReadingTime generated = 1 /\
    Lesson.estimatedReadingTime loaded = 5.
Proof.
  split; [reflexivity|]. split; [reflexivity|]. split; [reflexivity|].
  split; [intros rows; apply Permutation_refl|]. split; [reflexivity|].
  destruct (@lesson_round_trip Demo.env Demo.commit0 (Demo.state0 initial_view)
              (lit "A lesson.") eq_refl eq_refl eq_refl eq_refl
              (fun rows => Permutation_refl rows) (fun old (Hold : In old []) => match Hold with end))
    as (generated & loaded & row & s1 & s2 & Eg & _ & Hg & El & _ & Hl & Hid & _ & Hc & _
        & _ & _ & Hk & Hd & Hr & _ & Hkeys).
  change (@listed_keys Demo.env camelCase) with camelCase in Hkeys.
  destruct Hkeys as (Hk' & Hd' & Hr').
  exists generated, loaded, s1, s2.
  split; [exact Eg|]. split; [exact Hg|]. split; [exact El|]. split; [exact Hl|].
  split; [exact Hid|]. split; [exact Hc|]. split; [exact Hk|]. split; [exact Hk'|].
  split; [exact Hd|]. split; [exact Hd'|]. split; [exact Hr|exact Hr'].
Defined.


End LessonFacts.

(** ** CodeViewer: loading the files of any commit *)

Module ViewerEdges.
Import EffFacts LessonPanelFacts IntakeIntegrity CodeViewerFiles.

Section WithEnv.
Context `{Env}.

(** X14: Loading the files of a commit reads only and never throws to its
    caller.  When the gateway answers, with rows that it holds, every entry
    listed is a file row of this commit; the first entry becomes the
    selected file, and with no entry the selection made before stays.  When
    the gateway rejects the call, the list and the selection made for the
    commit shown before stay, with the error toast.  In both cases the
    viewer is no longer loading. *)
Theorem loadCommitFiles_shows commit (s : State View) :
  (forall rows row, In row (commit_files_default_order rows) -> In row rows) ->
  exists s',
    loadCommitFiles commit s = (Ok tt, s') /\
    store s' = store s /\ log s' = log s /\
    loading (view s') = false /\
    match gateway_rejects (gateway_calls s) with
    | None =>
        toasts (view s') = toasts (view s) /\
        (forall entry, In entry (files (view s')) ->
           exists row, In row (Store.commit_files (store s)) /\
                       CommitFileRow.commit_id row = Commit.id commit /\
                       entry = format_file row) /\
        selectedFile (view s')
        = match files (view s') with
          | first :: _ => Some first
          | [] => selectedFile (view s)
          end
    | Some _ =>
        files (view s') = files (view s) /\
        selectedFile (view s') = selectedFile (view s) /\
        toasts (view s') = toasts (view s) ++ [load_failed_toast]
    end.
Proof.
  intros Horder.
  destruct (gateway_rejects (gateway_calls s)) as [e0|] eqn:H0.
  { eexists. split.
    { unfold loadCommitFiles, Eff.try_catch_finally, Eff.bind, gateway_list, setLoading,
        toast, set_view, Eff.modify.
      cbn [src gateway_calls store log view]. rewrite H0. reflexivity. }
    cbn. repeat split. }
  set (shown := map format_file (LessonPanel.commit_files_of (Commit.id commit) (store s))).
  assert (Erun : loadCommitFiles commit s
                 = (Ok tt, mkState (src s) (S (gateway_calls s)) (store s) (log s)
                             (mkView shown false
                                (match shown with
                                 | first :: _ => Some first
                                 | [] => selectedFile (view s)
                                 end) (toasts (view s))))).
  { unfold loadCommitFiles, Eff.try_catch_finally, Eff.bind, setLoading, setFiles,
      setSelectedFile, set_view, Eff.modify, gateway_list, Eff.ret.
    cbn [src gateway_calls store log view]. rewrite H0. cbv zeta. fold shown.
    destruct shown; reflexivity. }
  eexists. split; [exact Erun|]. cbn [store log view files selectedFile loading toasts].
  repeat split.
  intros entry Hin. unfold shown in Hin. apply in_map_iff in Hin.
  destruct Hin as (row & <- & Hrow). exists row.
  unfold LessonPanel.commit_files_of in Hrow. apply Horder in Hrow.
  apply filter_In in Hrow. destruct Hrow as [Hrow Heq].
  apply jsstring_eqb_true in Heq. now repeat split.
Qed.

End WithEnv.

Lemma loadCommitFiles_shows_witness :
  (forall rows row, In row (@commit_files_default_order Demo.env rows) -> In row rows) /\
  exists s',
    @loadCommitFiles Demo.env Demo.commit0 (Demo.state0 initial_view) = (Ok tt, s') /\
    store s' = Store.empty /\
    loading (view s') = false /\
    toasts (view s') = [].
Proof.
  split; [intros rows row Hrow; exact Hrow|].
  destruct (@loadCommitFiles_shows Demo.env Demo.commit0 (Demo.state0 initial_view)
              (fun rows row Hrow => Hrow))
    as (s' & E & Hs & _ & Hl & Hm).
  exists s'. split; [exact E|]. split; [exact Hs|]. split; [exact Hl|].
  cbn in Hm. now destruct Hm as (Ht & _).
Defined.

End ViewerEdges.

(** ** CommitTimeline: the entries of a generated repository *)

Module TimelineFacts.
Import Generator GeneratorFacts GeneratorShape IntakeIntegrity ViewerFacts CommitTimeline.

Section WithEnv.
Context `{Env} `{Engine} (HE : EnvOk _) (HL : EngineOk _).

(** X21: The timeline of the commits of any run of the commit generator.  The
    badges have the colours of initial, add, add, add, fix, add, add, add,
    update and other, in this order.  Selecting an entry draws that entry
    alone as selected.  The hash shown under an entry is the whole [sha] of
    the commit. *)
Theorem timeline_of_generated repoName owner s :
  exists commits s', simulateCommitData repoName owner s = (Ok commits, s') /\
    map (fun c => getCommitTypeColor (Commit.message c)) commits
    = [ COLOR_INITIAL; COLOR_ADD; COLOR_ADD; COLOR_ADD; COLOR_FIX;
        COLOR_ADD; COLOR_ADD; COLOR_ADD; COLOR_UPDATE; COLOR_OTHER ] /\
    Forall (fun c => highlighted commits (Some c) = [c] /\
                     shown_sha c = Commit.sha c) commits.
Proof.
  destruct (simulateCommitData_Ok HE repoName owner s) as (commits & s' & E & Hlen & Hc).
  destruct (generated_commits HE _ _ _ _ _ E) as (_ & Hnd & _ & _).
  destruct (simulateCommitData_shape HE repoName owner s) as (commits1 & E1 & _ & Hs).
  rewrite E in E1. inversion E1; subst commits1.
  exists commits, s'. split; [exact E|]. split.
  - rewrite (map_by_index (fun c => getCommitTypeColor (Commit.message c))
               (fun k => getCommitTypeColor (nth k commitMessages [])) commits 0).
    + rewrite Hlen. cbn [seq map nth commitMessages]. unfold getCommitTypeColor.
      rewrite !HL by (repeat constructor). reflexivity.
    + intros k c Hk. now destruct (Hc k c Hk) as (-> & _).
  - apply Forall_forall. intros c Hin. split.
    + unfold highlighted. now apply (filter_own_key Commit.id commits c Hnd).
    + apply In_nth_error in Hin. destruct Hin as [k Hk].
      destruct (Hs k c Hk) as (_ & _ & _ & _ & x & Hx).
      unfold shown_sha. rewrite Hx. unfold substring. cbn [skipn Nat.sub].
      rewrite firstn_firstn. reflexivity.
Qed.

End WithEnv.

Lemma timeline_of_generated_witness :
  EnvOk Demo.env /\ EngineOk Scenario.engine /\
  exists commits s',
    @simulateCommitData Demo.env (lit "widgets") (lit "acme") Demo.src0 = (Ok commits, s') /\
    map (fun c => @getCommitTypeColor Scenario.engine (Commit.message c)) commits
    = [ COLOR_INITIAL; COLOR_ADD; COLOR_ADD; COLOR_ADD; COLOR_FIX;
        COLOR_ADD; COLOR_ADD; COLOR_ADD; COLOR_UPDATE; COLOR_OTHER ] /\
    Forall (fun c => highlighted commits (Some c) = [c] /\
                     shown_sha c = Commit.sha c) commits.
Proof.
  split; [exact demo_env_ok|]. split; [exact LanguageFacts.demo_engine_ok|].
  exact (@timeline_of_generated Demo.env Scenario.engine demo_env_ok
           LanguageFacts.demo_engine_ok (lit "widgets") (lit "acme") Demo.src0).
Defined.

End TimelineFacts.

(** ** The URL: white space around it, and what the parser returns *)

Module UrlFacts.
Import Trace RepositoryAnalyzer EffFacts UrlParser UrlParserFacts JSFacts.

Local Abbreviation margin := (fun c : code_unit => is_white_space c || is_line_terminator c).

Lemma trimStart_margin pre s : forallb margin pre = true -> trimStart (pre ++ s) = trimStart s.
Proof.
  induction pre as [|c pre IH]; intros Hp; [reflexivity|].
  cbn [forallb] in Hp. apply andb_prop in Hp. destruct Hp as [Hc Hp].
  cbn [app trimStart]. rewrite Hc. now apply IH.
Qed.

Lemma trimStart_blank s : trimStart s = [] -> forallb margin s = true.
Proof.
  induction s as [|c s IH]; [reflexivity|]. cbn [trimStart forallb].
  destruct (margin c); [exact IH|discriminate].
Qed.

Lemma trimStart_app s t : trimStart s <> [] -> trimStart (s ++ t) = trimStart s ++ t.
Proof.
  induction s as [|c s IH]; [intros Hn; now contradiction Hn|]. cbn [app trimStart].
  destruct (margin c); [exact IH|reflexivity].
Qed.

Lemma forallb_rev {A} (P : A -> bool) l : forallb P (rev l) = forallb P l.
Proof.
  induction l as [|x l IH]; [reflexivity|].
  cbn [rev forallb]. rewrite forallb_app, IH. cbn. rewrite andb_true_r. apply andb_comm.
Qed.

(** White space around a text does not change what [trim] gives. *)
Lemma trim_margin pre s post :
  forallb margin pre = true -> forallb margin post = true ->
  trim (pre ++ s ++ post) = trim s.
Proof.
  intros Hpre Hpost. unfold trim. rewrite trimStart_margin by exact Hpre.
  destruct (trimStart s) as [|c r] eqn:Es.
  - apply trimStart_blank in Es.
    assert (Eb : trimStart (s ++ post) = []).
    { rewrite trimStart_margin by exact Es.
      rewrite <- (app_nil_r post), trimStart_margin by exact Hpost. reflexivity. }
    now rewrite Eb.
  - rewrite trimStart_app by (rewrite Es; discriminate).
    rewrite Es, rev_app_distr, trimStart_margin by (now rewrite forallb_rev).
    reflexivity.
Qed.

Section WithEnv.
Context `{Env}.

(** X22: White space around the URL never matters: the intake flow on a URL with
    white space or line breaks before and after it is the flow on the URL
    itself, in every state and however it ends, with the same final state. *)
Theorem analyzeRepository_ignores_margin pre url post (s : State View) :
  forallb margin pre = true -> forallb margin post = true ->
  analyzeRepository (pre ++ url ++ post) s = analyzeRepository url s.
Proof.
  intros Hpre Hpost. unfold analyzeRepository, analyze.
  now rewrite (trim_margin pre url post Hpre Hpost).
Qed.

End WithEnv.

Lemma strip_dot_git_cases g :
  (exists q, g = q ++ lit ".git" /\ strip_dot_git g = q) \/
  ((forall q, g <> q ++ lit ".git") /\ strip_dot_git g = g).
Proof.
  unfold strip_dot_git.
  destruct (strip_prefix (rev (lit ".git")) (rev g)) as [r|] eqn:E.
  - left. exists (rev r). split; [|reflexivity].
    apply strip_prefix_Some in E. apply (f_equal (@rev _)) in E.
    rewrite rev_involutive, rev_app_distr, rev_involutive in E. exact E.
  - right. split; [|reflexivity]. intros q ->.
    rewrite rev_app_distr, strip_prefix_app in E. discriminate.
Qed.

(** X23: What the parser returns when it returns: the owner is never empty; the
    owner and the repo never hold a slash; the repo is empty for the URLs
    whose repository part is [.git] alone, and only for them. *)
Theorem parseGitHubUrl_result url p :
  parseGitHubUrl url = Ok p ->
  owner p <> [] /\ no_slash (owner p) /\ no_slash (repo p) /\
  (repo p = [] <->
   exists secure tail,
     accepted_tail tail /\ url = accepted_url secure (owner p) (lit ".git") tail).
Proof.
  rewrite parseGitHubUrl_scan.
  destruct (scan_url url) as [[g1 g2]|] eqn:E; [|discriminate].
  intros [= <-]. cbn [owner repo].
  destruct (scan_url_inv _ _ _ E) as (secure & tail & Hg1 & Hg2 & Hs1 & Hs2 & Ht & Hu).
  split; [exact Hg1|]. split; [exact Hs1|].
  destruct (strip_dot_git_cases g2) as [(q & Hq & Hst)|(Hn & Hst)]; rewrite Hst.
  - split.
    + intros Hin. apply Hs2. rewrite Hq. apply in_or_app. now left.
    + split.
      * intros ->. exists secure, tail. split; [exact Ht|]. now rewrite Hu, Hq.
      * intros (secure' & tail' & Ht' & Hu').
        assert (Es : scan_url url = Some (g1, lit ".git")).
        { rewrite Hu'. apply scan_url_accepts; try assumption; try discriminate.
          apply FileShape.absent. reflexivity. }
        rewrite E in Es. inversion Es as [Hg]. rewrite Hg in Hq.
        destruct q as [|c q]; [reflexivity|].
        apply (f_equal (@length _)) in Hq. rewrite length_app in Hq. cbn in Hq. lia.
  - split; [exact Hs2|]. split.
    + intros ->. congruence.
    + intros (secure' & tail' & Ht' & Hu').
      assert (Es : scan_url url = Some (g1, lit ".git")).
      { rewrite Hu'. apply scan_url_accepts; try assumption; try discriminate.
        apply FileShape.absent. reflexivity. }
      rewrite E in Es. inversion Es as [Hg]. exfalso. apply (Hn []). exact Hg.
Qed.

Lemma analyzeRepository_ignores_margin_witness :
  forallb margin (lit "  ") = true /\ forallb margin [SPACE; LF] = true /\
  @analyzeRepository Demo.env (lit "  " ++ Demo.acme_widgets ++ [SPACE; LF])
    (Demo.state0 initial_view)
  = @analyzeRepository Demo.env Demo.acme_widgets (Demo.state0 initial_view).
Proof.
  split; [reflexivity|]. split; [reflexivity|].
  exact (@analyzeRepository_ignores_margin Demo.env (lit "  ") Demo.acme_widgets [SPACE; LF]
           (Demo.state0 initial_view) eq_refl eq_refl).
Defined.

Lemma parseGitHubUrl_result_witness :
  parseGitHubUrl (lit "https://github.com/acme/.git")
  = Ok {| owner := lit "acme"; repo := [] |} /\
  lit "acme" <> [] /\ no_slash (lit "acme") /\ no_slash [] /\
  (([] : jsstring) = [] <->
   exists secure tail,
     accepted_tail tail /\
     lit "https://github.com/acme/.git" = accepted_url secure (lit "acme") (lit ".git") tail).
Proof.
  split; [reflexivity|].
  exact (parseGitHubUrl_result (lit "https://github.com/acme/.git")
           {| owner := lit "acme"; repo := [] |} eq_refl).
Defined.

End UrlFacts.

(** ** LessonPanel: the blocks of a lesson text *)

Module ContentFacts.
Import Regex RegexFacts JSFacts LineFacts LessonContent.

Lemma unit_step_ext P st (k k' : cont) :
  (forall st', k st' = k' st') -> unit_step P st k = unit_step P st k'.
Proof.
  intros Hk. unfold unit_step. destruct (rest st) as [|c r]; [reflexivity|].
  destruct (P c); [apply Hk|reflexivity].
Qed.

(** A pattern character is the class of that one unit. *)
Lemma lit_unit c st k : Pattern.run (Pattern.Lit [c]) st k = unit_step (N.eqb c) st k.
Proof.
  cbn [Pattern.run]. unfold unit_step. destruct (rest st) as [|b r]; [reflexivity|].
  cbn [strip_prefix]. destruct (c =? b)%N; [|reflexivity].
  cbn [length]. now rewrite Nat.add_1_r.
Qed.

Lemma loop_lit c : forall fuel st k,
  loop (Pattern.run (Pattern.Lit [c])) fuel st k = loop (unit_step (N.eqb c)) fuel st k.
Proof.
  induction fuel as [|fuel IH]; intros st k; [reflexivity|].
  cbn [loop]. rewrite lit_unit.
  rewrite (unit_step_ext _ st _
             (fun st' => if (length (rest st') <? length (rest st))%nat
                         then loop (unit_step (N.eqb c)) fuel st' k else None)).
  - reflexivity.
  - intros st'. destruct (length (rest st') <? length (rest st))%nat; [apply IH|reflexivity].
Qed.

(** Greedy repetition of a class before a continuation that never fails
    takes the longest run. *)
Lemma loop_total P k : (forall st, k st <> None) ->
  forall fuel st, (length (rest st) < fuel)%nat ->
    loop (unit_step P) fuel st k = k (skip P st).
Proof.
  intros Hk. induction fuel as [|fuel IH]; intros st Hf; [lia|].
  cbn [loop]. unfold unit_step at 1.
  destruct (rest st) as [|c r] eqn:Er.
  - rewrite skip_empty; [reflexivity|]. now rewrite Er.
  - destruct (P c) eqn:Pc.
    + cbn [rest length]. rewrite (proj2 (Nat.ltb_lt _ _)) by lia.
      rewrite IH by (cbn [rest]; simpl in Hf; lia).
      assert (Es : skip P (mk (S (pos st)) r (caps st)) = skip P st).
      { unfold skip. cbn [rest pos caps]. rewrite Er. simpl. rewrite Pc.
        destruct (span P r) as [a b]. simpl. f_equal. lia. }
      rewrite Es. destruct (k (skip P st)) eqn:Ek; [reflexivity|].
      now apply Hk in Ek.
    + rewrite skip_empty; [reflexivity|]. rewrite Er. simpl. now rewrite Pc.
Qed.

Lemma plus_total P k st : (forall st', k st' <> None) ->
  unit_step P st (fun st' => loop (unit_step P) (S (length (rest st'))) st' k)
  = match fst (span P (rest st)) with
    | [] => None
    | _ :: _ => k (skip P st)
    end.
Proof.
  intros Hk. unfold unit_step at 1. destruct (rest st) as [|c r] eqn:Er; [reflexivity|].
  cbn [span]. destruct (P c) eqn:Pc; [|reflexivity].
  rewrite loop_total by (exact Hk || (cbn [rest]; lia)).
  assert (Es : skip P (mk (S (pos st)) r (caps st)) = skip P st).
  { unfold skip. cbn [rest pos caps]. rewrite Er. simpl. rewrite Pc.
    destruct (span P r) as [a b]. simpl. f_equal. lia. }
  rewrite Es. now destruct (span P r).
Qed.

(** A pattern that begins with [^] matches at index 0 or nowhere. *)
Lemma pattern_exec_from_Bol r s : forall i,
  Pattern.exec_from (Pattern.Seq Pattern.Bol r) (S i) s = None.
Proof.
  induction s as [|c s IH]; intros i; simpl; [reflexivity|apply IH].
Qed.

Lemma pattern_exec_Bol r s :
  Pattern.exec (Pattern.Seq Pattern.Bol r) s
  = match Pattern.run r (mk 0 s []) Some with
    | Some res => Some (0%nat, res)
    | None => None
    end.
Proof.
  unfold Pattern.exec. destruct s as [|c s]; simpl.
  - now destruct (Pattern.run r (mk 0 [] []) Some).
  - destruct (Pattern.run r (mk 0 (c :: s) []) Some); [reflexivity|apply pattern_exec_from_Bol].
Qed.

Lemma plus_lit c st k :
  Pattern.run (Pattern.Plus (Pattern.Lit [c])) st k
  = unit_step (N.eqb c) st
      (fun st' => loop (unit_step (N.eqb c)) (S (length (rest st'))) st' k).
Proof.
  change (Pattern.run (Pattern.Plus (Pattern.Lit [c])) st k)
    with (Pattern.run (Pattern.Lit [c]) st
            (fun st' => loop (Pattern.run (Pattern.Lit [c])) (S (length (rest st'))) st' k)).
  rewrite lit_unit. apply unit_step_ext. intros st'. apply loop_lit.
Qed.

(** The run of hashes at the start of a line. *)
Lemma exec_heading_run s :
  Pattern.exec heading_run s
  = match fst (span (N.eqb HASH) s) with
    | [] => None
    | _ :: _ => Some (0%nat, skip (N.eqb HASH) (mk 0 s []))
    end.
Proof.
  unfold heading_run. rewrite pattern_exec_Bol.
  change (lit "#") with [HASH]. rewrite plus_lit.
  rewrite plus_total by discriminate. cbn [rest].
  now destruct (fst (span (N.eqb HASH) s)).
Qed.

Lemma exec_heading_mark s :
  Pattern.exec heading_mark s
  = match fst (span (N.eqb HASH) s) with
    | [] => None
    | _ :: _ => Some (0%nat, skip is_space (skip (N.eqb HASH) (mk 0 s [])))
    end.
Proof.
  unfold heading_mark. rewrite pattern_exec_Bol.
  change (lit "#") with [HASH].
  change (Pattern.run (Pattern.Seq (Pattern.Plus (Pattern.Lit [HASH]))
                                   (Pattern.Star (Pattern.Class is_space)))
                      (mk 0 s []) Some)
    with (Pattern.run (Pattern.Plus (Pattern.Lit [HASH])) (mk 0 s [])
            (fun st' => loop (unit_step is_space) (S (length (rest st'))) st' Some)).
  rewrite plus_lit.
  rewrite plus_total.
  - cbn [rest]. destruct (fst (span (N.eqb HASH) s)); [reflexivity|].
    rewrite loop_total by (discriminate || lia). reflexivity.
  - intros st'. rewrite loop_total by (discriminate || lia). discriminate.
Qed.

Lemma span_run P a b :
  forallb P a = true -> match b with [] => True | c :: _ => P c = false end ->
  span P (a ++ b) = (a, b).
Proof.
  intros Ha Hb. induction a as [|x a IH]; cbn [app].
  - destruct b as [|c b]; [reflexivity|]. cbn [span]. now rewrite Hb.
  - cbn [forallb] in Ha. apply andb_prop in Ha. destruct Ha as [Hx Ha].
    cbn [span]. now rewrite Hx, (IH Ha).
Qed.

Lemma exec_numbered ds w tail :
  ds <> [] -> forallb is_digit ds = true -> is_space w = true ->
  Pattern.exec numbered_item (ds ++ lit "." ++ w :: tail)
  = Some (0%nat, mk (length ds + 1 + 1) tail []).
Proof.
  intros Hn Hd Hw. unfold numbered_item. rewrite pattern_exec_Bol.
  change (Pattern.run (Pattern.Seq (Pattern.Plus (Pattern.Class is_digit)) ?r) ?st Some)
    with (unit_step is_digit st
            (fun st' => loop (unit_step is_digit) (S (length (rest st'))) st'
                          (fun st'' => Pattern.run r st'' Some))).
  rewrite plus_class.
  - cbn [rest]. unfold skip. cbn [rest pos caps].
    rewrite (span_run is_digit ds (lit "." ++ w :: tail) Hd eq_refl). cbn [fst snd].
    destruct ds as [|d ds]; [congruence|].
    cbn. rewrite Hw. do 2 f_equal. f_equal. lia.
  - intros st c r Hr Hc. cbn [Pattern.run]. rewrite Hr.
    change (lit ".") with [46%N]. cbn [strip_prefix].
    unfold is_digit in Hc. apply andb_prop in Hc. destruct Hc as [H1 _].
    apply N.leb_le in H1.
    destruct (N.eqb_spec 46 c) as [<-|]; [lia|reflexivity].
Qed.

Lemma exec_numbered_none s :
  match s with [] => True | c :: _ => is_digit c = false end ->
  Pattern.exec numbered_item s = None.
Proof.
  intros Hs. unfold numbered_item. rewrite pattern_exec_Bol.
  cbn. destruct s as [|c s]; [reflexivity|]. cbn. now rewrite Hs.
Qed.

Lemma exec_from_item_mark s : forall i, Pattern.exec_from item_mark (S i) s = None.
Proof.
  induction s as [|c s IH]; intros i; simpl; [reflexivity|apply IH].
Qed.

Lemma exec_from_0 r s :
  Pattern.exec r s
  = match Pattern.run r (mk 0 s []) Some with
    | Some res => Some (0%nat, res)
    | None => match s with [] => None | _ :: s' => Pattern.exec_from r 1 s' end
    end.
Proof. unfold Pattern.exec. now destruct s. Qed.

Lemma run_item_mark st :
  Pattern.run item_mark st Some
  = match Pattern.run numbered_item st Some with
    | Some res => Some res
    | None => Pattern.run (Pattern.Seq Pattern.Bol
                             (Pattern.Seq (Pattern.Class is_bullet)
                                          (Pattern.Class is_space))) st Some
    end.
Proof. reflexivity. Qed.

Lemma run_bullet s :
  Pattern.run (Pattern.Seq Pattern.Bol
                 (Pattern.Seq (Pattern.Class is_bullet) (Pattern.Class is_space)))
              (mk 0 s []) Some
  = match s with
    | c :: w :: tail => if is_bullet c && is_space w then Some (mk 2 tail []) else None
    | _ => None
    end.
Proof.
  cbn [Pattern.run pos Nat.eqb]. unfold unit_step. cbn [rest pos caps].
  destruct s as [|c [|w tail]]; [reflexivity|now destruct (is_bullet c)|].
  destruct (is_bullet c); [|reflexivity].
  cbn [andb rest pos caps]. now destruct (is_space w).
Qed.

Lemma exec_item_mark s :
  Pattern.exec item_mark s
  = match Pattern.exec numbered_item s with
    | Some found => Some found
    | None =>
        match s with
        | c :: w :: tail =>
            if is_bullet c && is_space w then Some (0%nat, mk 2 tail []) else None
        | _ => None
        end
    end.
Proof.
  rewrite !exec_from_0, run_item_mark, run_bullet.
  assert (E1 : match s with [] => None | _ :: s' => Pattern.exec_from item_mark 1 s' end = None)
    by (destruct s; [reflexivity|apply exec_from_item_mark]).
  assert (E2 : match s with [] => None | _ :: s' => Pattern.exec_from numbered_item 1 s' end
               = None)
    by (destruct s; [reflexivity|apply pattern_exec_from_Bol]).
  rewrite E1, E2.
  destruct (Pattern.run numbered_item (mk 0 s []) Some) as [res|]; [reflexivity|].
  destruct s as [|c [|w tail]]; try reflexivity.
  now destruct (is_bullet c && is_space w).
Qed.

Lemma trimStart_head s c r : trimStart s = c :: r -> is_space c = false.
Proof.
  induction s as [|x s IH]; [discriminate|]. cbn [trimStart].
  destruct (is_white_space x || is_line_terminator x) eqn:Ex; [exact IH|].
  intros [= <- _]. exact Ex.
Qed.

(** Only a text of white space trims to nothing. *)
Lemma trim_blank_inv s : trim s = [] -> forallb is_space s = true.
Proof.
  unfold trim. intros Ht.
  assert (Hr : trimStart (rev (trimStart s)) = []).
  { rewrite <- (rev_involutive (trimStart (rev (trimStart s)))), Ht. reflexivity. }
  apply UrlFacts.trimStart_blank in Hr. rewrite UrlFacts.forallb_rev in Hr.
  destruct (trimStart s) as [|c r] eqn:Es.
  - now apply UrlFacts.trimStart_blank.
  - apply trimStart_head in Es. cbn [forallb] in Hr.
    apply andb_prop in Hr. destruct Hr as [Hc _]. unfold is_space in Es. congruence.
Qed.

Lemma trim_of_text c tail : is_space c = false -> trim (c :: tail) <> [].
Proof.
  intros Hc Ht. apply trim_blank_inv in Ht. cbn [forallb] in Ht.
  apply andb_prop in Ht. destruct Ht as [Ht _]. congruence.
Qed.

Lemma span_is_space s : snd (span is_space s) = trimStart s.
Proof.
  induction s as [|c s IH]; [reflexivity|]. cbn [span trimStart].
  unfold is_space at 1. destruct (is_white_space c || is_line_terminator c); [|reflexivity].
  destruct (span is_space s). exact IH.
Qed.

Lemma repeat_hashes n : forallb (N.eqb HASH) (repeat HASH n) = true.
Proof. induction n as [|n IH]; [reflexivity|exact IH]. Qed.

(** The key of a block is the index it was made at, and nothing else of it
    depends on that index. *)
Lemma formatParagraph_key line n i :
  formatParagraph line (n + i)
  = option_map (with_key (fun k => (n + k)%nat)) (formatParagraph line i).
Proof.
  unfold formatParagraph. destruct (trim line); [reflexivity|].
  destruct (startsWith line (lit "#")); [reflexivity|].
  destruct (startsWith line (lit "```")); [reflexivity|].
  now destruct (Pattern.test numbered_item line || startsWith line (lit "- ")
                || startsWith line (lit "* ")).
Qed.

Lemma map_indexed_app {A B} (f : A -> nat -> B) l1 l2 : forall i,
  CodeViewer.map_indexed f (l1 ++ l2) i
  = CodeViewer.map_indexed f l1 i ++ CodeViewer.map_indexed f l2 (length l1 + i).
Proof.
  induction l1 as [|x l1 IH]; intros i; [reflexivity|].
  cbn [app CodeViewer.map_indexed length]. rewrite IH.
  now replace (length l1 + S i)%nat with (S (length l1) + i)%nat by lia.
Qed.

Lemma present_shifted lines n : forall i,
  present (CodeViewer.map_indexed formatParagraph lines (n + i))
  = map (with_key (fun k => (n + k)%nat))
        (present (CodeViewer.map_indexed formatParagraph lines i)).
Proof.
  induction lines as [|line lines IH]; intros i; [reflexivity|].
  cbn [CodeViewer.map_indexed]. unfold present in *. cbn [flat_map].
  rewrite map_app. replace (S (n + i)) with (n + S i)%nat by lia. rewrite IH.
  f_equal. rewrite formatParagraph_key. now destruct (formatParagraph line i).
Qed.

(** X24: [formatContent] works line by line.  A line gives no block exactly
    when it is blank or begins with a code fence; every other line gives one
    block, whose key is the index of the line.  The blocks of a text are
    those of what stands before a line feed followed by those of what stands
    after it, under the keys of their lines: so the lines between two code
    fences are formatted like any other line, not left out. *)
Theorem formatContent_lines :
  (forall line i,
     formatParagraph line i = None
     <-> trim line = [] \/ startsWith line (lit "```") = true) /\
  (forall line i block, formatParagraph line i = Some block -> key_of block = i) /\
  (forall before after,
     formatContent (before ++ LF :: after)
     = formatContent before
       ++ map (with_key (fun k => (length (split LF before) + k)%nat))
              (formatContent after)).
Proof.
  split; [|split].
  - intros line i. unfold formatParagraph.
    destruct (trim line) as [|c r]; [split; auto|].
    destruct (startsWith line (lit "#")) eqn:Eh.
    + split; [discriminate|]. intros [Hb|Hf]; [discriminate|].
      apply startsWith_true in Eh. apply startsWith_true in Hf.
      destruct Eh as [r1 ->]. destruct Hf as [r2 Hf]. discriminate Hf.
    + destruct (startsWith line (lit "```")); [split; auto|].
      destruct (Pattern.test numbered_item line || startsWith line (lit "- ")
                || startsWith line (lit "* "));
        (split; [discriminate|intros [Hb|Hf]; discriminate]).
  - intros line i block. unfold formatParagraph.
    destruct (trim line); [discriminate|].
    destruct (startsWith line (lit "#")); [now intros [= <-]|].
    destruct (startsWith line (lit "```")); [discriminate|].
    destruct (Pattern.test numbered_item line || startsWith line (lit "- ")
              || startsWith line (lit "* ")); now intros [= <-].
  - intros before after. unfold formatContent.
    rewrite LanguageFacts.split_pieces, map_indexed_app.
    unfold present at 1. rewrite flat_map_app. fold (@present Block). f_equal.
    apply (present_shifted (split LF after) (length (split LF before)) 0).
Qed.

Lemma heading_parts (hs tail : jsstring) :
  hs <> [] -> forallb (N.eqb HASH) hs = true ->
  match tail with [] => True | c :: _ => c <> HASH end ->
  Pattern.matched heading_run (hs ++ tail) = Some hs /\
  Pattern.replace heading_mark [] (hs ++ tail) = trimStart tail.
Proof.
  intros Hn Hh Htail.
  assert (Hspan : span (N.eqb HASH) (hs ++ tail) = (hs, tail)).
  { apply span_run; [exact Hh|].
    destruct tail as [|c tail]; [exact I|].
    apply N.eqb_neq. congruence. }
  unfold Pattern.matched, Pattern.replace.
  rewrite exec_heading_run, exec_heading_mark, Hspan. cbn [fst].
  destruct hs as [|h hs'] eqn:Ehs; [congruence|]. rewrite <- Ehs in *.
  unfold skip. cbn [rest pos caps]. rewrite Hspan. cbn [fst snd Nat.add].
  rewrite span_is_space. split; [|reflexivity].
  rewrite Nat.sub_0_r. cbn [skipn].
  rewrite firstn_app, Nat.sub_diag, firstn_all. cbn [firstn]. now rewrite app_nil_r.
Qed.

(** X25: a line of [n] hashes and a text that does not begin with a hash
    gives a heading: its text is that text without the white space at its
    start, and its class is the one of level 1 for one hash, of level 2 for
    two, and the third one for three hashes or more. *)
Theorem formatParagraph_heading n (tail : jsstring) i :
  (0 < n)%nat ->
  match tail with [] => True | c :: _ => c <> HASH end ->
  formatParagraph (repeat HASH n ++ tail) i
  = Some (Heading i
            (if (n =? 1)%nat then CLASS_H1 else if (n =? 2)%nat then CLASS_H2 else CLASS_H3)
            (trimStart tail)).
Proof.
  intros Hn Htail.
  destruct (heading_parts (repeat HASH n) tail) as [Hm Hr];
    [destruct n; [lia|discriminate]|apply repeat_hashes|exact Htail|].
  assert (Et : trim (repeat HASH n ++ tail) <> []).
  { destruct n as [|m]; [lia|]. apply trim_of_text. reflexivity. }
  assert (Eh : startsWith (repeat HASH n ++ tail) (lit "#") = true).
  { destruct n as [|m]; [lia|].
    apply startsWith_true. exists (repeat HASH m ++ tail). reflexivity. }
  unfold formatParagraph.
  destruct (trim (repeat HASH n ++ tail)) as [|c r]; [congruence|].
  rewrite Eh, Hm, Hr, repeat_length.
  destruct n as [|m]; [lia|reflexivity].
Qed.

Lemma test_numbered_none s :
  match s with [] => True | c :: _ => is_digit c = false end ->
  Pattern.test numbered_item s = false.
Proof. intros Hs. unfold Pattern.test. now rewrite exec_numbered_none. Qed.

(** X26: list items and plain text.  A line of digits, a dot, one white
    space and a text gives a list item with that text; so does a line of a
    hyphen or a star, a space and a text.  A hyphen or a star followed by
    anything but a space gives a paragraph that keeps the marker.  A line
    that is not blank and begins with none of a hash, a backquote, a digit,
    a hyphen and a star gives a paragraph with the line unchanged: an
    indented marker is plain text. *)
Theorem formatParagraph_items :
  (forall (ds : jsstring) w tail i,
     ds <> [] -> forallb is_digit ds = true -> is_space w = true ->
     formatParagraph (ds ++ lit "." ++ w :: tail) i = Some (ListItem i tail)) /\
  (forall tail i, formatParagraph (lit "- " ++ tail) i = Some (ListItem i tail)) /\
  (forall tail i, formatParagraph (lit "* " ++ tail) i = Some (ListItem i tail)) /\
  (forall c w tail i,
     is_bullet c = true -> w <> SPACE ->
     formatParagraph (c :: w :: tail) i = Some (Paragraph i (c :: w :: tail))) /\
  (forall c tail i,
     trim (c :: tail) <> [] ->
     c <> HASH -> c <> 96%N -> is_digit c = false -> is_bullet c = false ->
     formatParagraph (c :: tail) i = Some (Paragraph i (c :: tail))).
Proof.
  split; [|split; [|split; [|split]]].
  - intros ds w tail i Hn Hd Hw.
    destruct ds as [|d ds']; [congruence|].
    assert (Hdd : is_digit d = true)
      by (cbn [forallb] in Hd; now apply andb_prop in Hd).
    assert (Ee : Pattern.exec numbered_item ((d :: ds') ++ lit "." ++ w :: tail)
                 = Some (0%nat, mk (length (d :: ds') + 1 + 1) tail []))
      by (apply exec_numbered; [discriminate|exact Hd|exact Hw]).
    unfold formatParagraph.
    destruct (trim ((d :: ds') ++ lit "." ++ w :: tail)) as [|c r] eqn:Et.
    { exfalso. revert Et. apply trim_of_text.
      unfold is_digit in Hdd. apply andb_prop in Hdd. destruct Hdd as [H1 H2].
      apply N.leb_le in H1, H2.
      unfold is_space, is_white_space, is_line_terminator.
      repeat match goal with
             | |- context [(d =? ?k)%N] => destruct (N.eqb_spec d k); [lia|]
             end.
      destruct (N.leb_spec 8192 d); [lia|]. reflexivity. }
    assert (Eh : startsWith ((d :: ds') ++ lit "." ++ w :: tail) (lit "#") = false).
    { unfold startsWith. change (lit "#") with [35%N]. cbn [app strip_prefix].
      destruct (N.eqb_spec 35 d) as [<-|]; [discriminate Hdd|reflexivity]. }
    assert (Ef : startsWith ((d :: ds') ++ lit "." ++ w :: tail) (lit "```") = false).
    { unfold startsWith. change (lit "```") with [96%N; 96%N; 96%N].
      cbn [app strip_prefix].
      destruct (N.eqb_spec 96 d) as [<-|]; [discriminate Hdd|reflexivity]. }
    rewrite Eh, Ef. unfold Pattern.test, Pattern.replace.
    rewrite exec_item_mark, Ee. reflexivity.
  - intros tail i. unfold formatParagraph.
    destruct (trim (lit "- " ++ tail)) as [|c r] eqn:Et.
    { exfalso. revert Et. apply trim_of_text. reflexivity. }
    unfold Pattern.replace. rewrite exec_item_mark.
    rewrite test_numbered_none, exec_numbered_none by reflexivity. reflexivity.
  - intros tail i. unfold formatParagraph.
    destruct (trim (lit "* " ++ tail)) as [|c r] eqn:Et.
    { exfalso. revert Et. apply trim_of_text. reflexivity. }
    unfold Pattern.replace. rewrite exec_item_mark.
    rewrite test_numbered_none, exec_numbered_none by reflexivity. reflexivity.
  - intros c w tail i Hc Hw.
    assert (Hcc : c = 45%N \/ c = 42%N).
    { unfold is_bullet in Hc. apply orb_prop in Hc.
      destruct Hc as [Hc|Hc]; apply N.eqb_eq in Hc; auto. }
    unfold formatParagraph.
    destruct (trim (c :: w :: tail)) as [|c0 r] eqn:Et.
    { exfalso. revert Et. apply trim_of_text. destruct Hcc as [-> | ->]; reflexivity. }
    rewrite test_numbered_none by (destruct Hcc as [-> | ->]; reflexivity).
    assert (Es : (32 =? w)%N = false) by (apply N.eqb_neq; unfold SPACE in Hw; congruence).
    unfold startsWith. change (lit "#") with [35%N]. change (lit "```") with [96%N; 96%N; 96%N].
    change (lit "- ") with [45%N; 32%N]. change (lit "* ") with [42%N; 32%N].
    cbn [strip_prefix]. rewrite Es.
    destruct (N.eqb_spec 35 c); [destruct Hcc; subst; discriminate|].
    destruct (N.eqb_spec 96 c); [destruct Hcc; subst; discriminate|].
    destruct (N.eqb_spec 45 c); destruct (N.eqb_spec 42 c); reflexivity.
  - intros c tail i Ht Hh Hq Hd Hb.
    unfold formatParagraph.
    destruct (trim (c :: tail)) as [|c0 r]; [congruence|].
    rewrite test_numbered_none by exact Hd.
    unfold is_bullet in Hb. apply orb_false_elim in Hb. destruct Hb as [H45 H42].
    apply N.eqb_neq in H45, H42.
    unfold startsWith. change (lit "#") with [35%N]. change (lit "```") with [96%N; 96%N; 96%N].
    change (lit "- ") with [45%N; 32%N]. change (lit "* ") with [42%N; 32%N].
    cbn [strip_prefix].
    destruct (N.eqb_spec 35 c); [unfold HASH in Hh; congruence|].
    destruct (N.eqb_spec 96 c); [congruence|].
    destruct (N.eqb_spec 45 c); [congruence|].
    destruct (N.eqb_spec 42 c); [congruence|]. reflexivity.
Qed.

Lemma formatParagraph_heading_witness :
  (0 < 2)%nat /\
  formatParagraph (lit "##  Setup") 7 = Some (Heading 7 CLASS_H2 (lit "Setup")).
Proof.
  split; [lia|].
  exact (formatParagraph_heading 2 (lit "  Setup") 7 ltac:(lia) ltac:(cbn; discriminate)).
Defined.

(** A comment line inside a code fence comes out as a heading, and the code
    as a paragraph; the two fence lines give nothing. *)
Example formatContent_fenced :
  formatContent (join [LF] [ lit "Run:"; lit "```"; lit "# install"; lit "npm i"; lit "```" ])
  = [ Paragraph 0 (lit "Run:");
      Heading 2 CLASS_H1 (lit "install");
      Paragraph 3 (lit "npm i") ].
Proof. vm_compute. reflexivity. Qed.

End ContentFacts.
